(** * GLideN64 frame-buffer registry (FrameBuffer.cpp): a shallow embedding

    The development follows
    [src/jni/mupen64plus-video-gliden64/src/FrameBuffer.cpp].
    Unsigned 32-bit values ([u32]) are integers of [Z] with the wrap-around
    of every C++ operation written out; guest memory ([RDRAM]) is a total
    map from byte addresses to bytes and the host is little-endian, as on
    every platform the plugin is built for.  Calls into the host graphics
    API (textures, frame-buffer objects, blits) have no effect on the state
    modelled here and are left out; what they return to the code (a mapped
    transfer buffer, the scale factors of the window) is read from an
    environment record.
    The depth samples of [_FloatToUInt16] are IEEE 754 single-precision
    values, with the operations of the Standard Library's [SpecFloat] at
    precision 24 and maximal exponent 128.

    Part I holds the definitions, Part II the theorems. *)

From Stdlib Require Import ZArith List Bool Lia QArith Qround SpecFloat.
From Equations Require Import Equations.
From Equations.Prop Require Import Logic.
Import ListNotations.
Local Open Scope Z_scope.

(* ===================================================================== *)
(** * Part I: definitions *)
(* ===================================================================== *)

(** ** Machine arithmetic *)

Module U32.

Definition modulus : Z := 2 ^ 32.

Definition wrap (z : Z) : Z := z mod modulus.

Definition add (a b : Z) : Z := wrap (a + b).
Definition sub (a b : Z) : Z := wrap (a - b).
Definition mul (a b : Z) : Z := wrap (a * b).
Definition shl (a n : Z) : Z := wrap (Z.shiftl a n).
Definition shr (a n : Z) : Z := Z.shiftr a n.
(** Unsigned division and remainder.  A zero divisor is undefined
    behaviour in the source; [Z] gives [a / 0 = 0] and [a mod 0 = a]. *)
Definition div (a b : Z) : Z := a / b.
Definition rem (a b : Z) : Z := a mod b.

Definition in_range (z : Z) : Prop := 0 <= z < modulus.

End U32.

(** Signed 32-bit values ([int]): the operands of an expression on [u16]
    values are promoted to [int].  An overflow is undefined behaviour in
    the source; the model takes the two's complement result that the
    compilers of the plugin give.  [>>] on a negative [int] is the
    arithmetic shift. *)
Module I32.

Definition wrap (z : Z) : Z := (z + 2 ^ 31) mod 2 ^ 32 - 2 ^ 31.

Definition mul (a b : Z) : Z := wrap (a * b).
Definition shl (a n : Z) : Z := wrap (Z.shiftl a n).
Definition shr (a n : Z) : Z := Z.shiftr a n.

End I32.

(** The scale factors [m_scaleX], [m_scaleY] are [float]s that the code only
    stores and compares with [!=]; they are kept as exact rationals. *)
Definition f32 : Type := Q.
Definition f32_ne (a b : f32) : bool := negb (Qeq_bool a b).
Definition f32_of_u32 (n : Z) : f32 := inject_Z n.

(** ** Guest memory *)

(** [u8 * RDRAM]: one byte per address. *)
Definition Memory : Type := Z -> Z.

Definition load8 (m : Memory) (a : Z) : Z := m a mod 256.

Definition store8 (m : Memory) (a v : Z) : Memory :=
  fun x => if x =? a then v mod 256 else m x.

(** A 16-bit and a 32-bit little-endian access at byte address [a]. *)
Definition load16 (m : Memory) (a : Z) : Z :=
  load8 m a + 2 ^ 8 * load8 m (a + 1).

Definition load32 (m : Memory) (a : Z) : Z :=
  load8 m a + 2 ^ 8 * load8 m (a + 1)
  + 2 ^ 16 * load8 m (a + 2) + 2 ^ 24 * load8 m (a + 3).

Definition store32 (m : Memory) (a v : Z) : Memory :=
  store8 (store8 (store8 (store8 m a v)
                         (a + 1) (v / 2 ^ 8))
                 (a + 2) (v / 2 ^ 16))
         (a + 3) (v / 2 ^ 24).

(** [pData[i]] for [pData = (u32 * )RDRAM]: the 32-bit word of index [i]. *)
Definition pData (m : Memory) (i : Z) : Z := load32 m (4 * i).
Definition pData_store (m : Memory) (i v : Z) : Memory := store32 m (4 * i) v.

(** [memcpy(dst, RDRAM + a, n)] into a byte vector. *)
Fixpoint read_bytes (m : Memory) (a : Z) (n : nat) : list Z :=
  match n with
  | O => []
  | S n' => load8 m a :: read_bytes m (a + 1) n'
  end.

(** [memset(RDRAM + a, 0, n)]. *)
Fixpoint memset0 (m : Memory) (a : Z) (n : nat) : Memory :=
  match n with
  | O => m
  | S n' => memset0 (store8 m a 0) (a + 1) n'
  end.

(** [pCopy[i]] for [pCopy = (const u32 * )v.data()], [v] a byte vector. *)
Definition byte_at (v : list Z) (k : Z) : Z := nth (Z.to_nat k) v 0.

Definition pCopy (v : list Z) (i : Z) : Z :=
  byte_at v (4 * i) + 2 ^ 8 * byte_at v (4 * i + 1)
  + 2 ^ 16 * byte_at v (4 * i + 2) + 2 ^ 24 * byte_at v (4 * i + 3).

(** ** Height clipping at the end of guest memory *)

(** [u32 _cutHeight(u32 _address, u32 _height, u32 _stride)];
    [RDRAMSize] is the global of N64.h (offset of the last byte). *)
Definition _cutHeight (RDRAMSize _address _height _stride : Z) : Z :=
  if _address >? RDRAMSize then 0
  else if U32.add _address (U32.mul _stride _height) >? U32.add RDRAMSize 1
       then U32.div (U32.sub (U32.add RDRAMSize 1) _address) _stride
       else _height.

(** ** The frame buffer record *)

(** The data members of [FrameBuffer] (FrameBuffer.h is not part of the
    sources; the integer members are [u32], as the constructor initialises
    them).  The handles of the host graphics API are left out, except the
    format and size that the code stores in the texture record. *)
Record FrameBuffer : Type := mkFrameBuffer {
  m_startAddress : Z;
  m_endAddress : Z;
  m_size : Z;
  m_width : Z;
  m_height : Z;
  m_fillcolor : Z;
  m_validityChecked : Z;
  m_scaleX : f32;
  m_scaleY : f32;
  m_copiedToRdram : bool;
  m_fingerprint : bool;
  m_cleared : bool;
  m_changed : bool;
  m_cfb : bool;
  m_isDepthBuffer : bool;
  m_isPauseScreen : bool;
  m_isOBScreen : bool;
  m_needHeightCorrection : bool;
  m_postProcessed : Z;
  m_pDepthBuffer : option Z;
  m_resolved : bool;
  m_RdramCopy : list Z;
  m_pTexture_format : Z;
  m_pTexture_size : Z
}.

(** [FrameBuffer::FrameBuffer()]. *)
Definition FrameBuffer_new : FrameBuffer :=
  mkFrameBuffer 0 0 0 0 0 0 0 0%Q 0%Q
                false false false false false false false false false
                0 None false [] 0 0.

Definition set_endAddress (v : Z) (b : FrameBuffer) : FrameBuffer :=
  mkFrameBuffer (m_startAddress b) v (m_size b) (m_width b) (m_height b)
    (m_fillcolor b) (m_validityChecked b) (m_scaleX b) (m_scaleY b)
    (m_copiedToRdram b) (m_fingerprint b) (m_cleared b) (m_changed b)
    (m_cfb b) (m_isDepthBuffer b) (m_isPauseScreen b) (m_isOBScreen b)
    (m_needHeightCorrection b) (m_postProcessed b) (m_pDepthBuffer b)
    (m_resolved b) (m_RdramCopy b) (m_pTexture_format b) (m_pTexture_size b).

Definition set_validityChecked (v : Z) (b : FrameBuffer) : FrameBuffer :=
  mkFrameBuffer (m_startAddress b) (m_endAddress b) (m_size b) (m_width b)
    (m_height b) (m_fillcolor b) v (m_scaleX b) (m_scaleY b)
    (m_copiedToRdram b) (m_fingerprint b) (m_cleared b) (m_changed b)
    (m_cfb b) (m_isDepthBuffer b) (m_isPauseScreen b) (m_isOBScreen b)
    (m_needHeightCorrection b) (m_postProcessed b) (m_pDepthBuffer b)
    (m_resolved b) (m_RdramCopy b) (m_pTexture_format b) (m_pTexture_size b).

(** [m_cleared = false; m_fingerprint = true;] *)
Definition set_fingerprinted (b : FrameBuffer) : FrameBuffer :=
  mkFrameBuffer (m_startAddress b) (m_endAddress b) (m_size b) (m_width b)
    (m_height b) (m_fillcolor b) (m_validityChecked b) (m_scaleX b)
    (m_scaleY b) (m_copiedToRdram b) true false (m_changed b)
    (m_cfb b) (m_isDepthBuffer b) (m_isPauseScreen b) (m_isOBScreen b)
    (m_needHeightCorrection b) (m_postProcessed b) (m_pDepthBuffer b)
    (m_resolved b) (m_RdramCopy b) (m_pTexture_format b) (m_pTexture_size b).

Definition set_RdramCopy (v : list Z) (b : FrameBuffer) : FrameBuffer :=
  mkFrameBuffer (m_startAddress b) (m_endAddress b) (m_size b) (m_width b)
    (m_height b) (m_fillcolor b) (m_validityChecked b) (m_scaleX b)
    (m_scaleY b) (m_copiedToRdram b) (m_fingerprint b) (m_cleared b)
    (m_changed b) (m_cfb b) (m_isDepthBuffer b) (m_isPauseScreen b)
    (m_isOBScreen b) (m_needHeightCorrection b) (m_postProcessed b)
    (m_pDepthBuffer b) (m_resolved b) v (m_pTexture_format b)
    (m_pTexture_size b).

Definition set_resolved (v : bool) (b : FrameBuffer) : FrameBuffer :=
  mkFrameBuffer (m_startAddress b) (m_endAddress b) (m_size b) (m_width b)
    (m_height b) (m_fillcolor b) (m_validityChecked b) (m_scaleX b)
    (m_scaleY b) (m_copiedToRdram b) (m_fingerprint b) (m_cleared b)
    (m_changed b) (m_cfb b) (m_isDepthBuffer b) (m_isPauseScreen b)
    (m_isOBScreen b) (m_needHeightCorrection b) (m_postProcessed b)
    (m_pDepthBuffer b) v (m_RdramCopy b) (m_pTexture_format b)
    (m_pTexture_size b).

(** [m_size = _size; m_pTexture->format = _format; m_pTexture->size = _size;] *)
Definition set_size_format (_size _format : Z) (b : FrameBuffer) : FrameBuffer :=
  mkFrameBuffer (m_startAddress b) (m_endAddress b) _size (m_width b)
    (m_height b) (m_fillcolor b) (m_validityChecked b) (m_scaleX b)
    (m_scaleY b) (m_copiedToRdram b) (m_fingerprint b) (m_cleared b)
    (m_changed b) (m_cfb b) (m_isDepthBuffer b) (m_isPauseScreen b)
    (m_isOBScreen b) (m_needHeightCorrection b) (m_postProcessed b)
    (m_pDepthBuffer b) (m_resolved b) (m_RdramCopy b) _format _size.

Definition set_pDepthBuffer (v : option Z) (b : FrameBuffer) : FrameBuffer :=
  mkFrameBuffer (m_startAddress b) (m_endAddress b) (m_size b) (m_width b)
    (m_height b) (m_fillcolor b) (m_validityChecked b) (m_scaleX b)
    (m_scaleY b) (m_copiedToRdram b) (m_fingerprint b) (m_cleared b)
    (m_changed b) (m_cfb b) (m_isDepthBuffer b) (m_isPauseScreen b)
    (m_isOBScreen b) (m_needHeightCorrection b) (m_postProcessed b)
    v (m_resolved b) (m_RdramCopy b) (m_pTexture_format b)
    (m_pTexture_size b).

(** The last three assignments of [saveBuffer]:
    [m_isDepthBuffer = d; m_isPauseScreen = m_isOBScreen = false;
     m_postProcessed = 0;] *)
Definition set_bound_flags (d : bool) (b : FrameBuffer) : FrameBuffer :=
  mkFrameBuffer (m_startAddress b) (m_endAddress b) (m_size b) (m_width b)
    (m_height b) (m_fillcolor b) (m_validityChecked b) (m_scaleX b)
    (m_scaleY b) (m_copiedToRdram b) (m_fingerprint b) (m_cleared b)
    (m_changed b) (m_cfb b) d false false
    (m_needHeightCorrection b) 0 (m_pDepthBuffer b) (m_resolved b)
    (m_RdramCopy b) (m_pTexture_format b) (m_pTexture_size b).

(** ** Globals read by the code *)

(** The globals of the plugin that the modelled functions read and never
    write: [RDRAMSize] (N64.h), the video-interface state [VI], the
    configuration, the scale factors and the frame counter of [video()],
    [gDP.depthImageAddress], and the constant table [fingerprint] of
    FrameBuffer.h, which is not part of the sources and is taken as it
    comes.  [hack_scoreboard_set] is
    [(config.generalEmulation.hacks & hack_scoreboard) != 0], and likewise
    for [hack_scoreboardJ_set]; [mapBufferRange_ok] tells whether
    [glMapBufferRange] (or [malloc]) returned a usable pointer. *)
Record Globals : Type := mkGlobals {
  RDRAMSize : Z;
  VI_width : Z;
  VI_height : Z;
  VI_real_height : Z;
  VI_PAL : bool;
  REG_VI_WIDTH : Z;
  config_copyAuxToRDRAM : Z;
  config_copyFromRDRAM : Z;
  config_nativeResFactor : Z;
  hack_scoreboard_set : bool;
  hack_scoreboardJ_set : bool;
  ogl_scaleX : f32;
  ogl_scaleY : f32;
  buffersSwapCount : Z;
  gDP_depthImageAddress : Z;
  fingerprint : Z -> Z;
  fbInfo_isSupported : bool;
  mapBufferRange_ok : bool;
  depthBuffer_current : option Z;
  depthBuffer_fits : FrameBuffer -> bool
}.

(** [bool FrameBuffer::isAuxiliary() const] *)
Definition isAuxiliary (g : Globals) (b : FrameBuffer) : bool :=
  negb (m_width b =? VI_width g).

(** [bool FrameBuffer::_isMarioTennisScoreboard() const] *)
Definition _isMarioTennisScoreboard (g : Globals) (b : FrameBuffer) : bool :=
  if hack_scoreboard_set g then
    if VI_PAL g
    then (m_startAddress b =? 0x13b480) || (m_startAddress b =? 0x26a530)
    else (m_startAddress b =? 0x13ba50) || (m_startAddress b =? 0x264430)
  else hack_scoreboardJ_set g
       && ((m_startAddress b =? 0x134080) || (m_startAddress b =? 0x1332f8)).

(** ** Capturing and checking validity data *)

(** The mask [0xFFFEFFFE]: the low bit of each 16-bit half is dropped. *)
Definition validity_mask : Z := 0xFFFEFFFE.

(** The loop of [copyRdram] that stamps the start of an auxiliary buffer:
    [for (u32 i = 0; i < twoPercent; ++i)
       pData[start++] = i < 4 ? fingerprint[i] : 0;]
    with [n] iterations left. *)
Fixpoint write_fingerprint (fp : Z -> Z) (m : Memory) (start i : Z) (n : nat)
  : Memory :=
  match n with
  | O => m
  | S n' =>
      write_fingerprint fp
        (pData_store m start (if i <? 4 then fp i else 0))
        (U32.add start 1) (i + 1) n'
  end.

(** [void FrameBuffer::copyRdram()]: the buffer and guest memory after the
    call. *)
Definition copyRdram (g : Globals) (b : FrameBuffer) (m : Memory)
  : FrameBuffer * Memory :=
  let stride := U32.shr (U32.shl (m_width b) (m_size b)) 1 in
  let height := _cutHeight (RDRAMSize g) (m_startAddress b) (m_height b) stride in
  if height =? 0 then (b, m)
  else
    let dataSize := U32.mul stride height in
    if isAuxiliary g b && (config_copyAuxToRDRAM g =? 0) then
      let twoPercent := U32.div dataSize 200 in
      let start := U32.shr (m_startAddress b) 2 in
      (set_fingerprinted b,
       write_fingerprint (fingerprint g) m start 0 (Z.to_nat twoPercent))
    else
      (set_RdramCopy (read_bytes m (m_startAddress b) (Z.to_nat dataSize)) b, m).

(** The counting loop of the fill-colour check,
    [for (u32 i = start; i < end; ++i)
       if ((pData[i] & 0xFFFEFFFE) != color) ++wrongPixels;]
    with [n] iterations left.  The counter cannot wrap: there are fewer
    than [2^30] words. *)
Fixpoint count_wrong_cleared (m : Memory) (color i : Z) (n : nat)
  (wrongPixels : Z) : Z :=
  match n with
  | O => wrongPixels
  | S n' =>
      count_wrong_cleared m color (i + 1) n'
        (if negb (Z.land (pData m i) validity_mask =? color)
         then wrongPixels + 1 else wrongPixels)
  end.

(** The loop of the fingerprint check, which leaves at the first mismatch:
    [for (u32 i = 0; i < 4; ++i)
       if ((pData[start++] & 0xFFFEFFFE) != (fingerprint[i] & 0xFFFEFFFE))
         return false;
     return true;] *)
Fixpoint check_fingerprint (fp : Z -> Z) (m : Memory) (start i : Z) (n : nat)
  : bool :=
  match n with
  | O => true
  | S n' =>
      if negb (Z.land (pData m start) validity_mask
               =? Z.land (fp i) validity_mask)
      then false
      else check_fingerprint fp m (U32.add start 1) (i + 1) n'
  end.

(** The counting loop of the snapshot check,
    [for (u32 i = 0; i < size_dwords; ++i)
       if ((pData[start++] & 0xFFFEFFFE) != (pCopy[i] & 0xFFFEFFFE))
         ++wrongPixels;] *)
Fixpoint count_wrong_copy (m : Memory) (copy : list Z) (start i : Z) (n : nat)
  (wrongPixels : Z) : Z :=
  match n with
  | O => wrongPixels
  | S n' =>
      count_wrong_copy m copy (U32.add start 1) (i + 1) n'
        (if negb (Z.land (pData m start) validity_mask
                  =? Z.land (pCopy copy i) validity_mask)
         then wrongPixels + 1 else wrongPixels)
  end.

(** [m_RdramCopy.empty()] *)
Definition empty {A : Type} (v : list A) : bool :=
  match v with [] => true | _ :: _ => false end.

(** [bool FrameBuffer::isValid() const] *)
Definition isValid (g : Globals) (m : Memory) (b : FrameBuffer) : bool :=
  if m_validityChecked b =? buffersSwapCount g then true
  else if m_cleared b then
    let color := Z.land (m_fillcolor b) validity_mask in
    let start := U32.shr (m_startAddress b) 2 in
    let end_ := U32.shr (m_endAddress b) 2 in
    let wrongPixels :=
      count_wrong_cleared m color start (Z.to_nat (end_ - start)) 0 in
    wrongPixels <? U32.div (U32.sub (m_endAddress b) (m_startAddress b)) 400
  else if m_fingerprint b then
    check_fingerprint (fingerprint g) m (U32.shr (m_startAddress b) 2) 0 4
  else if negb (empty (m_RdramCopy b)) then
    let size := U32.wrap (Z.of_nat (length (m_RdramCopy b))) in
    let size_dwords := U32.shr size 2 in
    let wrongPixels :=
      count_wrong_copy m (m_RdramCopy b) (U32.shr (m_startAddress b) 2) 0
                       (Z.to_nat size_dwords) 0 in
    wrongPixels <? U32.div size 400
  else true.

(** ** The registry: a list of frame buffers *)

(** [FrameBuffers] is a [std::list<FrameBuffer>]; the code keeps pointers to
    its nodes ([m_pCurrent], [m_pCurBuffer]).  A node is kept with its
    address, which is what a pointer holds; the front of the list is the
    head. *)
Definition Ptr : Type := nat.
Definition FrameBuffers : Type := list (Ptr * FrameBuffer).

(** [*p] and an assignment through [p]. *)
Fixpoint deref (l : FrameBuffers) (p : Ptr) : option FrameBuffer :=
  match l with
  | [] => None
  | (q, b) :: t => if Nat.eqb q p then Some b else deref t p
  end.

Definition update (p : Ptr) (f : FrameBuffer -> FrameBuffer) (l : FrameBuffers)
  : FrameBuffers :=
  map (fun n => if Nat.eqb (fst n) p then (fst n, f (snd n)) else n) l.

(** [m_list.erase(iter)] for the iterator at position [i]. *)
Definition erase {A : Type} (i : nat) (l : list A) : list A :=
  firstn i l ++ skipn (S i) l.

(** [FrameBuffer * FrameBufferList::findBuffer(u32 _startAddress)] *)
Fixpoint findBuffer (l : FrameBuffers) (_startAddress : Z) : option Ptr :=
  match l with
  | [] => None
  | (p, b) :: t =>
      if (m_startAddress b <=? _startAddress)
         && (m_endAddress b >=? _startAddress)
      then Some p
      else findBuffer t _startAddress
  end.

(** The test of [_findBuffer] on the entry under the iterator. *)
Definition conflicts (b : FrameBuffer) (_startAddress _endAddress : Z) : bool :=
  ((m_startAddress b <=? _startAddress) && (m_endAddress b >=? _startAddress))
  || ((_startAddress <=? m_startAddress b)
      && (_endAddress >=? m_startAddress b)).

(** [_startAddress != iter->m_startAddress || _width != iter->m_width] *)
Definition differs (b : FrameBuffer) (_startAddress _width : Z) : bool :=
  negb (_startAddress =? m_startAddress b) || negb (_width =? m_width b).

(** The [do { --iter; ... } while (iter != m_list.begin())] loop of
    [_findBuffer], with the iterator at position [iter] ([m_list.end()] is
    position [length l]): the position of the first entry, going from the
    back of the list to its front, that passes the conflict test. *)
Fixpoint _findBuffer_scan (l : FrameBuffers) (iter : nat)
  (_startAddress _endAddress : Z) : option nat :=
  match iter with
  | O => None
  | S i =>
      match nth_error l i with
      | Some (_, b) =>
          if conflicts b _startAddress _endAddress then Some i
          else _findBuffer_scan l i _startAddress _endAddress
      | None => None
      end
  end.

(** [FrameBuffer * FrameBufferList::_findBuffer(u32 _startAddress,
    u32 _endAddress, u32 _width)]: the pointer returned and [m_list] after
    the call.  The recursive call is on a list one entry shorter. *)
Equations? _findBuffer (l : FrameBuffers) (_startAddress _endAddress _width : Z)
  : option Ptr * FrameBuffers by wf (length l) lt :=
  _findBuffer [] _ _ _ := (None, []);
  _findBuffer (n :: t) s e w
    with inspect (_findBuffer_scan (n :: t) (length (n :: t)) s e) := {
    | exist _ None _ => (None, n :: t)
    | exist _ (Some i) _ with inspect (nth_error (n :: t) i) := {
        | exist _ None _ => (None, n :: t)
        | exist _ (Some (p, b)) Hnth =>
            if differs b s w
            then _findBuffer (erase i (n :: t)) s e w
            else (Some p, n :: t) } }.
Proof.
  match goal with
  | H : nth_error ?l ?i = Some _ |- _ =>
      assert (Hi : (i < length l)%nat) by (apply nth_error_Some; congruence)
  end.
  unfold erase. rewrite length_app, length_firstn, length_skipn.
  simpl in *. lia.
Qed.

(** [void FrameBufferList::removeBuffer(u32 _address)] on the list: the
    list without its first entry that starts at [_address], and the node
    erased, if any. *)
Fixpoint removeBuffer_list (l : FrameBuffers) (_address : Z)
  : FrameBuffers * option Ptr :=
  match l with
  | [] => ([], None)
  | (p, b) :: t =>
      if m_startAddress b =? _address then (t, Some p)
      else let r := removeBuffer_list t _address in ((p, b) :: fst r, snd r)
  end.

(** The data members of [FrameBufferList]. *)
Record FrameBufferList : Type := mkFrameBufferList {
  m_list : FrameBuffers;
  m_pCurrent : option Ptr;
  m_pCopy : option Ptr;
  m_prevColorImageHeight : Z
}.

Definition ptr_eqb (p : Ptr) (q : option Ptr) : bool :=
  match q with Some q' => Nat.eqb p q' | None => false end.

Definition removeBuffer (fbl : FrameBufferList) (_address : Z)
  : FrameBufferList :=
  let r := removeBuffer_list (m_list fbl) _address in
  mkFrameBufferList (fst r)
    (match snd r with
     | Some p => if ptr_eqb p (m_pCurrent fbl) then None else m_pCurrent fbl
     | None => m_pCurrent fbl
     end)
    (m_pCopy fbl) (m_prevColorImageHeight fbl).

(** ** Pixel formats *)

(** The pixel sizes of gbi.h. *)
Definition G_IM_SIZ_8b : Z := 1.
Definition G_IM_SIZ_16b : Z := 2.
Definition G_IM_SIZ_32b : Z := 3.

(** [u32 RGBA16ToABGR32(u16 col, bool _bCFB)] *)
Definition RGBA16ToABGR32 (col : Z) (_bCFB : bool) : Z :=
  let r := U32.shl (Z.land (Z.shiftr col 11) 31) 3 in
  let g := U32.shl (Z.land (Z.shiftr col 6) 31) 3 in
  let b := U32.shl (Z.land (Z.shiftr col 1) 31) 3 in
  let a := if _bCFB then 0xFF
           else if (Z.land col 1 >? 0) && (Z.lor (Z.lor r g) b >? 0)
                then 0xFF else 0 in
  Z.lor (Z.lor (Z.lor (U32.shl a 24) (U32.shl b 16)) (U32.shl g 8)) r.

(** [u32 RGBA32ToABGR32(u32 col, bool _bCFB)] *)
Definition RGBA32ToABGR32 (col : Z) (_bCFB : bool) : Z :=
  let r := Z.land (Z.shiftr col 24) 0xff in
  let g := Z.land (Z.shiftr col 16) 0xff in
  let b := Z.land (Z.shiftr col 8) 0xff in
  let a := if _bCFB then 0xFF
           else if Z.lor (Z.lor r g) b >? 0 then Z.land col 0xFF else 0 in
  Z.lor (Z.lor (Z.lor (U32.shl a 24) (U32.shl b 16)) (U32.shl g 8)) r.

(** The members of [union RGBA { struct { u8 r, g, b, a; }; u32 raw; }] on
    a little-endian host: [r] is the lowest byte of [raw]. *)
Definition RGBA_r (raw : Z) : Z := Z.land raw 0xff.
Definition RGBA_g (raw : Z) : Z := Z.land (Z.shiftr raw 8) 0xff.
Definition RGBA_b (raw : Z) : Z := Z.land (Z.shiftr raw 16) 0xff.
Definition RGBA_a (raw : Z) : Z := Z.land (Z.shiftr raw 24) 0xff.

(** [u32 FrameBufferToRDRAM::_RGBAtoRGBA32(u32 _c)] *)
Definition _RGBAtoRGBA32 (_c : Z) : Z :=
  Z.lor (Z.lor (Z.lor (U32.shl (RGBA_r _c) 24) (U32.shl (RGBA_g _c) 16))
               (U32.shl (RGBA_b _c) 8))
        (RGBA_a _c).

(** [u16 FrameBufferToRDRAM::_RGBAtoRGBA16(u32 _c)] *)
Definition _RGBAtoRGBA16 (_c : Z) : Z :=
  Z.lor (Z.lor (Z.lor (Z.shiftl (Z.shiftr (RGBA_r _c) 3) 11)
                      (Z.shiftl (Z.shiftr (RGBA_g _c) 3) 6))
               (Z.shiftl (Z.shiftr (RGBA_b _c) 3) 1))
        (if RGBA_a _c =? 0 then 0 else 1).

(** ** The guest-to-GPU engine [RDRAMtoFrameBuffer] *)

Record RDRAMtoFrameBuffer : Type := mkRDRAMtoFrameBuffer {
  m_pCurBuffer : option Ptr;
  m_vecAddress : list Z
}.

(** The state that the modelled functions read and write: the registry
    [frameBufferList()], guest memory, the two members of [gDP.colorImage]
    that the code uses, the engine [g_RDRAMtoFB], and the next address that
    the allocator of list nodes hands out. *)
Record Machine : Type := mkMachine {
  frameBufferList : FrameBufferList;
  RDRAM : Memory;
  gDP_colorImage_height : Z;
  gDP_colorImage_changed : Z;
  g_RDRAMtoFB : RDRAMtoFrameBuffer;
  heap_next : Ptr
}.

Definition with_frameBufferList (f : FrameBufferList) (st : Machine) : Machine :=
  mkMachine f (RDRAM st) (gDP_colorImage_height st)
            (gDP_colorImage_changed st) (g_RDRAMtoFB st) (heap_next st).

Definition with_RDRAM (m : Memory) (st : Machine) : Machine :=
  mkMachine (frameBufferList st) m (gDP_colorImage_height st)
            (gDP_colorImage_changed st) (g_RDRAMtoFB st) (heap_next st).

Definition with_g_RDRAMtoFB (e : RDRAMtoFrameBuffer) (st : Machine) : Machine :=
  mkMachine (frameBufferList st) (RDRAM st) (gDP_colorImage_height st)
            (gDP_colorImage_changed st) e (heap_next st).

(** The staging buffer that [CopyFromRDRAM] maps and fills: pixel index to
    pixel. *)
Definition Staging : Type := Z -> Z.

Definition staging_store (d : Staging) (k v : Z) : Staging :=
  fun x => if x =? k then v else d x.

(** [src[idx]] for [TSrc * src = RDRAM + _address], [sizeof(TSrc)] being
    [szPixel] (2 or 4). *)
Definition src_load (szPixel : Z) (m : Memory) (_address idx : Z) : Z :=
  if szPixel =? 2 then load16 m (_address + 2 * idx)
  else load32 m (_address + 4 * idx).

Section CopyLoops.

Variable szPixel : Z.
Variable converter : Z -> bool -> Z.
Variable m : Memory.
Variables _address _xor _width _height : Z.
Variable _bCFB : bool.

(** The inner loop [for (u32 x = _x0; x < _width; ++x)] of
    [_copyBufferFromRdram], left by [break] when [idx >= bound]; the
    accumulator is [(summ, _dst)]. *)
Fixpoint copyBuffer_row (bound y dsty x : Z) (n : nat) (acc : Z * Staging)
  : Z * Staging :=
  match n with
  | O => acc
  | S n' =>
      let idx :=
        Z.lxor (U32.add x (U32.mul (U32.sub (U32.sub _height y) 1) _width))
               _xor in
      if idx >=? bound then acc
      else
        let col := src_load szPixel m _address idx in
        copyBuffer_row bound y dsty (x + 1) n'
          (U32.add (fst acc) col,
           staging_store (snd acc) (U32.add x (U32.mul dsty _width))
                         (converter col _bCFB))
  end.

(** The outer loop [for (u32 y = _y0; y < y1; ++y) { ...; ++dsty; }]. *)
Fixpoint copyBuffer_rows (bound _x0 y dsty : Z) (n : nat) (acc : Z * Staging)
  : Z * Staging :=
  match n with
  | O => acc
  | S n' =>
      copyBuffer_rows bound _x0 (y + 1) (dsty + 1) n'
        (copyBuffer_row bound y dsty _x0 (Z.to_nat (_width - _x0)) acc)
  end.

(** The loop of [_copyPixelsFromRdram] over [_vecAddress]: whether the
    loop ran to its end ([false] is [return false]), and [(summ, _dst)]
    where it was left; the stores made before a [return false] stay in
    [_dst]. *)
Fixpoint copyPixels_loop (vec : list Z) (acc : Z * Staging)
  : bool * (Z * Staging) :=
  match vec with
  | [] => (true, acc)
  | a :: rest =>
      if a <? _address then (false, acc)
      else
        let idx := U32.div (U32.sub a _address) szPixel in
        let w := U32.rem idx _width in
        let h := U32.div idx _width in
        if h >? _height then (false, acc)
        else
          let col := src_load szPixel m _address idx in
          copyPixels_loop rest
            (U32.add (fst acc) col,
             staging_store (snd acc)
               (Z.lxor (U32.add w (U32.mul (U32.sub _height h) _width)) _xor)
               (converter col _bCFB))
  end.

End CopyLoops.

(** [template <typename TSrc> bool _copyBufferFromRdram(...)], with the
    staging buffer after the call. *)
Definition _copyBufferFromRdram (szPixel : Z) (g : Globals) (m : Memory)
  (_address : Z) (_dst : Staging) (converter : Z -> bool -> Z)
  (_xor _x0 _y0 _width _height : Z) (_bCFB : bool) : bool * Staging :=
  let bound :=
    U32.shr (U32.sub (U32.add (RDRAMSize g) 1) _address) (szPixel / 2) in
  let y1 := U32.add _y0 _height in
  let r := copyBuffer_rows szPixel converter m _address _xor _width _height
             _bCFB bound _x0 _y0 0 (Z.to_nat (y1 - _y0)) (0, _dst) in
  (negb (fst r =? 0), snd r).

(** [template <typename TSrc> bool _copyPixelsFromRdram(...)], with the
    staging buffer after the call: [memset] clears its first
    [_width * _height] pixels, then the loop stores the queued pixels. *)
Definition _copyPixelsFromRdram (szPixel : Z) (m : Memory) (_address : Z)
  (_vecAddress : list Z) (_dst : Staging) (converter : Z -> bool -> Z)
  (_xor _width _height : Z) (_bCFB : bool) : bool * Staging :=
  let zeroed : Staging :=
    fun k => if (0 <=? k) && (k <? U32.mul _width _height) then 0 else _dst k in
  let r := copyPixels_loop szPixel converter m _address _xor _width _height
             _bCFB _vecAddress (0, zeroed) in
  (fst r && negb (fst (snd r) =? 0), snd (snd r)).

(** [void RDRAMtoFrameBuffer::Reset()] *)
Definition Reset (e : RDRAMtoFrameBuffer) : RDRAMtoFrameBuffer :=
  mkRDRAMtoFrameBuffer None [].

(** The [return] statements of [CopyFromRDRAM], in the order of the source,
    and the end of its body. *)
Inductive CopyFromRDRAM_exit : Type :=
| return_no_addresses
| return_no_buffer
| return_colorImage_changed
| return_zero_height
| return_map_failed
| return_nothing_copied
| end_of_body.

(** The body of [CopyFromRDRAM] from the test
    [m_pCurBuffer == nullptr || m_pCurBuffer->m_size < G_IM_SIZ_16b] on.
    A pointer to a node that left the list is undefined behaviour in the
    source; it is read as a null pointer. *)
Definition CopyFromRDRAM_copy (g : Globals) (_address : Z) (_bCFB : bool)
  (st : Machine) : CopyFromRDRAM_exit * Machine :=
  let e := g_RDRAMtoFB st in
  match option_map (deref (m_list (frameBufferList st))) (m_pCurBuffer e) with
  | None | Some None => (return_no_buffer, st)
  | Some (Some b) =>
      if m_size b <? G_IM_SIZ_16b then (return_no_buffer, st)
      else if (m_startAddress b =? _address)
              && negb (gDP_colorImage_changed st =? 0)
      then (return_colorImage_changed, st)
      else
        let address := m_startAddress b in
        let height :=
          _cutHeight (RDRAMSize g) address
            (if m_startAddress b =? _address
             then VI_real_height g else m_height b)
            (U32.shr (U32.shl (m_width b) (m_size b)) 1) in
        if height =? 0 then (return_zero_height, st)
        else
          let width := m_width b in
          let bUseAlpha := negb _bCFB && m_changed b in
          if negb (mapBufferRange_ok g) then (return_map_failed, st)
          else
            let dst : Staging := fun _ => 0 in
            let copied :=
              if empty (m_vecAddress e) then
                if m_size b =? G_IM_SIZ_16b
                then _copyBufferFromRdram 2 g (RDRAM st) address dst
                       RGBA16ToABGR32 1 0 0 width height _bCFB
                else _copyBufferFromRdram 4 g (RDRAM st) address dst
                       RGBA32ToABGR32 0 0 0 width height _bCFB
              else
                if m_size b =? G_IM_SIZ_16b
                then _copyPixelsFromRdram 2 (RDRAM st) address
                       (m_vecAddress e) dst RGBA16ToABGR32 1 width height _bCFB
                else _copyPixelsFromRdram 4 (RDRAM st) address
                       (m_vecAddress e) dst RGBA32ToABGR32 0 width height _bCFB
            in
            let st' :=
              if bUseAlpha then
                let totalBytes :=
                  U32.shr (U32.shl (U32.mul width height) (m_size b)) 1 in
                let totalBytes :=
                  if U32.add address totalBytes >? U32.add (RDRAMSize g) 1
                  then U32.sub (U32.add (RDRAMSize g) 1) address
                  else totalBytes in
                with_RDRAM (memset0 (RDRAM st) address (Z.to_nat totalBytes)) st
              else st in
            if negb (fst copied) then (return_nothing_copied, st')
            else (end_of_body, st')
  end.

(** The body of [CopyFromRDRAM] after the declaration of [cleaner]: where
    it is left, and the state there. *)
Definition CopyFromRDRAM_body (g : Globals) (_address : Z) (_bCFB : bool)
  (st : Machine) : CopyFromRDRAM_exit * Machine :=
  let e := g_RDRAMtoFB st in
  match m_pCurBuffer e with
  | None =>
      if _bCFB || (negb (config_copyFromRDRAM g =? 0)
                   && negb (fbInfo_isSupported g))
      then CopyFromRDRAM_copy g _address _bCFB
             (with_g_RDRAMtoFB
                (mkRDRAMtoFrameBuffer
                   (findBuffer (m_list (frameBufferList st)) _address)
                   (m_vecAddress e)) st)
      else CopyFromRDRAM_copy g _address _bCFB st
  | Some _ =>
      if empty (m_vecAddress e) then (return_no_addresses, st)
      else CopyFromRDRAM_copy g _address _bCFB st
  end.

(** [~Cleaner()], run when the scope of [cleaner] is left. *)
Definition Cleaner_destructor (st : Machine) : Machine :=
  with_g_RDRAMtoFB (Reset (g_RDRAMtoFB st)) st.

(** [void RDRAMtoFrameBuffer::CopyFromRDRAM(u32 _address, bool _bCFB)]:
    [cleaner] is the first local of the function, so its destructor runs
    after the body, however the body is left. *)
Definition CopyFromRDRAM (g : Globals) (_address : Z) (_bCFB : bool)
  (st : Machine) : Machine :=
  Cleaner_destructor (snd (CopyFromRDRAM_body g _address _bCFB st)).

(** [void RDRAMtoFrameBuffer::AddAddress(u32 _address, u32 _size)] *)
Definition AddAddress (_address _size : Z) (st : Machine) : Machine :=
  let e := g_RDRAMtoFB st in
  let l := m_list (frameBufferList st) in
  let cur := match m_pCurBuffer e with
             | None => findBuffer l _address
             | Some p => Some p
             end in
  match option_map (deref l) cur with
  | None | Some None => st
  | Some (Some b) =>
      let st1 := with_g_RDRAMtoFB (mkRDRAMtoFrameBuffer cur (m_vecAddress e)) st in
      let pixelSize := U32.shr (U32.shl 1 (m_size b)) 1 in
      if negb (_size =? pixelSize) && (U32.rem _address pixelSize >? 0)
      then st1
      else
        mkMachine (frameBufferList st1) (RDRAM st1) (gDP_colorImage_height st1)
          1 (mkRDRAMtoFrameBuffer cur (m_vecAddress e ++ [_address]))
          (heap_next st1)
  end.

(** ** [FrameBufferList::saveBuffer] *)

(** [FrameBuffer_CopyToRDRAM(address, sync)], the GPU-to-guest engine: what
    it writes depends on the build flavour and on the pixels that the host
    graphics API reads back, so its effect on the state is a parameter. *)
Record Host : Type := mkHost {
  FrameBuffer_CopyToRDRAM : Z -> bool -> Machine -> Machine
}.

(** [*m_pCurrent], with the pointer.  A pointer to a node that left the
    list is undefined behaviour in the source; it is read as a null
    pointer. *)
Definition current (st : Machine) : option (Ptr * FrameBuffer) :=
  match m_pCurrent (frameBufferList st) with
  | None => None
  | Some p =>
      match deref (m_list (frameBufferList st)) p with
      | None => None
      | Some b => Some (p, b)
      end
  end.

Definition set_pCurrent (c : option Ptr) (st : Machine) : Machine :=
  let f := frameBufferList st in
  with_frameBufferList
    (mkFrameBufferList (m_list f) c (m_pCopy f) (m_prevColorImageHeight f)) st.

Definition set_list (l : FrameBuffers) (st : Machine) : Machine :=
  let f := frameBufferList st in
  with_frameBufferList
    (mkFrameBufferList l (m_pCurrent f) (m_pCopy f) (m_prevColorImageHeight f))
    st.

(** [void FrameBuffer::init(...)], on the members kept in the model. *)
Definition init (g : Globals)
  (_address _endAddress _format _size _width _height : Z) (_cfb : bool)
  (b : FrameBuffer) : FrameBuffer :=
  let aux := negb (_width =? VI_width g) in
  let scale :=
    if aux && negb (config_copyAuxToRDRAM g =? 0) then (1%Q, 1%Q)
    else if negb (config_nativeResFactor g =? 0)
         then (f32_of_u32 (config_nativeResFactor g),
               f32_of_u32 (config_nativeResFactor g))
         else (ogl_scaleX g, ogl_scaleY g) in
  mkFrameBuffer _address _endAddress _size _width _height
    0 (m_validityChecked b) (fst scale) (snd scale)
    (m_copiedToRdram b) false false (m_changed b)
    _cfb (m_isDepthBuffer b) (m_isPauseScreen b) (m_isOBScreen b)
    (negb (_width =? VI_width g) && negb (_width =? REG_VI_WIDTH g))
    (m_postProcessed b) (m_pDepthBuffer b) (m_resolved b) (m_RdramCopy b)
    _format _size.

(** The end address that [saveBuffer] gives the bound buffer for a colour
    image of [height] rows:
    [min(RDRAMSize, m_startAddress + (((m_width * height) << m_size >> 1) - 1))] *)
Definition corrected_endAddress (g : Globals) (b : FrameBuffer) (height : Z) : Z :=
  Z.min (RDRAMSize g)
    (U32.add (m_startAddress b)
       (U32.sub (U32.shr (U32.shl (U32.mul (m_width b) height) (m_size b)) 1) 1)).

(** Lines 524-529: an auxiliary bound buffer is copied to guest memory and
    removed when [copyAuxToRDRAM] is set. *)
Definition saveBuffer_flushAux (g : Globals) (h : Host) (st : Machine) : Machine :=
  match current st with
  | Some (_, b) =>
      if negb (config_copyAuxToRDRAM g =? 0) && isAuxiliary g b then
        let st1 := FrameBuffer_CopyToRDRAM h (m_startAddress b) true st in
        match current st1 with
        | Some (_, b1) =>
            with_frameBufferList
              (removeBuffer (frameBufferList st1) (m_startAddress b1)) st1
        | None => st1
        end
      else st
  | None => st
  end.

(** Lines 539-553, for the bound buffer [b]: its end address is corrected
    from the height of the colour image and its content is captured when it
    is eligible.  The result is the buffer, guest memory,
    [gDP.colorImage.height] and [m_prevColorImageHeight] after these lines. *)
Definition saveBuffer_correctCurrent (g : Globals) (st : Machine)
  (b : FrameBuffer) : FrameBuffer * Memory * Z * Z :=
  let f := frameBufferList st in
  let h0 := gDP_colorImage_height st in
  let aux := isAuxiliary g b in
  let prev :=
    if negb aux && (h0 >? 200) then h0 else m_prevColorImageHeight f in
  let height :=
    if aux then h0
    else Z.min (if h0 >? 200 then h0
                else if h0 =? 0 then m_prevColorImageHeight f else h0)
               (VI_height g) in
  let b1 :=
    if negb aux then set_endAddress (corrected_endAddress g b height) b
    else if m_needHeightCorrection b && negb (height =? 0)
         then set_endAddress (corrected_endAddress g b height) b
         else b in
  let captured :=
    if negb (_isMarioTennisScoreboard g b1) && negb (m_isDepthBuffer b1)
       && negb (m_copiedToRdram b1) && negb (m_cfb b1)
       && negb (m_cleared b1) && empty (m_RdramCopy b1) && (height >? 1)
    then copyRdram g b1 (RDRAM st)
    else (b1, RDRAM st) in
  (fst captured, snd captured, height, prev).

(** Lines 538-556: the bound buffer is corrected, then looked up again with
    [_findBuffer] on its own start address, end address and width. *)
Definition saveBuffer_resolveCurrent (g : Globals) (st : Machine) : Machine :=
  match current st with
  | None => st
  | Some (p, b) =>
      let f := frameBufferList st in
      let '(b2, mem, height, prev) := saveBuffer_correctCurrent g st b in
      let found :=
        _findBuffer (update p (fun _ => b2) (m_list f))
          (m_startAddress b2) (m_endAddress b2) (m_width b2) in
      mkMachine
        (mkFrameBufferList (snd found) (fst found) (m_pCopy f) prev)
        mem height (gDP_colorImage_changed st)
        (g_RDRAMtoFB st) (heap_next st)
  end.

(** Lines 558-591: the buffer for the new colour image is looked for; a
    buffer found with another start address, width or scale is removed, a
    buffer kept has its pixel size brought up to date. *)
Definition saveBuffer_lookup (g : Globals) (_address _format _size _width : Z)
  (st : Machine) : Machine :=
  let st1 :=
    match current st with
    | Some (_, b) =>
        if negb (m_startAddress b =? _address) || negb (m_width b =? _width)
        then set_pCurrent (findBuffer (m_list (frameBufferList st)) _address) st
        else st
    | None =>
        set_pCurrent (findBuffer (m_list (frameBufferList st)) _address) st
    end in
  let scaleX := if config_nativeResFactor g =? 0 then ogl_scaleX g
                else f32_of_u32 (config_nativeResFactor g) in
  let scaleY := if config_nativeResFactor g =? 0 then ogl_scaleY g
                else scaleX in
  match current st1 with
  | None => set_pCurrent None st1
  | Some (p, b) =>
      if negb (m_startAddress b =? _address) || negb (m_width b =? _width)
         || f32_ne (m_scaleX b) scaleX || f32_ne (m_scaleY b) scaleY
      then
        set_pCurrent None
          (with_frameBufferList
             (removeBuffer (frameBufferList st1) (m_startAddress b)) st1)
      else
        let b1 := set_resolved false b in
        let changed :=
          if negb (m_size b1 =? _size) then
            let b2 := set_size_format _size _format b1 in
            if m_copiedToRdram b2 then copyRdram g b2 (RDRAM st1)
            else (b2, RDRAM st1)
          else (b1, RDRAM st1) in
        with_RDRAM (snd changed)
          (set_list (update p (fun _ => fst changed)
                       (m_list (frameBufferList st1))) st1)
  end.

(** Lines 592-602: without a buffer, a new one is put at the front of the
    list and becomes the bound buffer.  Its end address is that of line
    558, [_address + ((_width * _height) << _size >> 1) - 1], where
    [_width], [_height] and [_size] are [u16]: the product and the shifts
    are made on [int], and the sum with [_address] on [u32]. *)
Definition saveBuffer_create (g : Globals)
  (_address _format _size _width _height : Z) (_cfb : bool) (st : Machine)
  : Machine :=
  match m_pCurrent (frameBufferList st) with
  | Some _ => st
  | None =>
      let endAddress :=
        U32.wrap (_address
                  + I32.shr (I32.shl (I32.mul _width _height) _size) 1 - 1) in
      let buffer :=
        init g _address endAddress _format _size _width _height _cfb
             FrameBuffer_new in
      let p := heap_next st in
      let f := frameBufferList st in
      let st1 :=
        mkMachine
          (mkFrameBufferList ((p, buffer) :: m_list f) (Some p) (m_pCopy f)
             (m_prevColorImageHeight f))
          (RDRAM st) (gDP_colorImage_height st) (gDP_colorImage_changed st)
          (g_RDRAMtoFB st) (S p) in
      if _isMarioTennisScoreboard g buffer
      then CopyFromRDRAM g (U32.add (m_startAddress buffer) 4) false st1
      else st1
  end.

(** [void FrameBufferList::attachDepthBuffer()], on the member
    [m_pDepthBuffer]; the frame-buffer object of a buffer is never zero. *)
Definition attachDepthBuffer (g : Globals) (st : Machine) : Machine :=
  match current st with
  | None => st
  | Some (p, b) =>
      let d := match depthBuffer_current g with
               | Some d => if depthBuffer_fits g b then Some d else None
               | None => None
               end in
      set_list (update p (set_pDepthBuffer d) (m_list (frameBufferList st))) st
  end.

(** Lines 604-617: the depth partner and the flags of the bound buffer.
    [depthBufferList().saveBuffer] belongs to the depth collaborator and
    keeps its state there. *)
Definition saveBuffer_finish (g : Globals) (_address : Z) (st : Machine)
  : Machine :=
  let st1 := if _address =? gDP_depthImageAddress g then st
             else attachDepthBuffer g st in
  match m_pCurrent (frameBufferList st1) with
  | None => st1
  | Some p =>
      set_list
        (update p (set_bound_flags (_address =? gDP_depthImageAddress g))
           (m_list (frameBufferList st1))) st1
  end.

(** [void FrameBufferList::saveBuffer(u32 _address, u16 _format, u16 _size,
    u16 _width, u16 _height, bool _cfb)] *)
Definition saveBuffer (g : Globals) (h : Host)
  (_address _format _size _width _height : Z) (_cfb : bool) (st : Machine)
  : Machine :=
  let st1 := saveBuffer_flushAux g h st in
  if (VI_width g =? 0) || (_height =? 0) then set_pCurrent None st1
  else
    let st2 := saveBuffer_resolveCurrent g st1 in
    let st3 := saveBuffer_lookup g _address _format _size _width st2 in
    let st4 :=
      saveBuffer_create g _address _format _size _width _height _cfb st3 in
    saveBuffer_finish g _address st4.

(** One call of [saveBuffer] with its arguments, and a sequence of calls. *)
Record Call : Type := mkCall {
  call_address : Z;
  call_format : Z;
  call_size : Z;
  call_width : Z;
  call_height : Z;
  call_cfb : bool
}.

Definition saveBuffer_call (g : Globals) (h : Host) (st : Machine) (c : Call)
  : Machine :=
  saveBuffer g h (call_address c) (call_format c) (call_size c)
    (call_width c) (call_height c) (call_cfb c) st.

Definition saveBuffer_calls (g : Globals) (h : Host) (cs : list Call)
  (st : Machine) : Machine :=
  fold_left (saveBuffer_call g h) cs st.

(** The state after [FrameBufferList::init()] on a fresh registry, with
    guest memory [m] and the colour image [height] rows high. *)
Definition Machine_init (m : Memory) (height : Z) : Machine :=
  mkMachine (mkFrameBufferList [] None None 0) m height 0
            (mkRDRAMtoFrameBuffer None []) 0%nat.

(** ** The properties that the specification states *)







(** The specification has [_findBuffer] scan the entries "from
    most-recently-created backward", and new entries are put at the front
    of the list: this is the scan from the front of the list to its back. *)
Fixpoint spec_scan (l : FrameBuffers) (_startAddress _endAddress : Z)
  : option nat :=
  match l with
  | [] => None
  | (_, b) :: t =>
      if conflicts b _startAddress _endAddress then Some 0%nat
      else option_map S (spec_scan t _startAddress _endAddress)
  end.

(** The lookup as the specification words it, with that scan. *)
Equations? spec_findBuffer (l : FrameBuffers)
  (_startAddress _endAddress _width : Z)
  : option Ptr * FrameBuffers by wf (length l) lt :=
  spec_findBuffer l s e w with inspect (spec_scan l s e) := {
    | exist _ None _ => (None, l)
    | exist _ (Some i) _ with inspect (nth_error l i) := {
        | exist _ None _ => (None, l)
        | exist _ (Some (p, b)) Hnth =>
            if differs b s w
            then spec_findBuffer (erase i l) s e w
            else (Some p, l) } }.
Proof.
  assert (Hi : (i < length l)%nat) by (apply nth_error_Some; congruence).
  unfold erase. rewrite length_app, length_firstn, length_skipn. lia.
Qed.

(** ** Sample states *)

(** The globals of a session: 8 MB of guest memory, a 320 x 240 display
    whose visible part is [real_height] rows high, frame 7, the fingerprint
    table [{2, 6, 4, 3}]; [map_ok] tells whether a transfer buffer can be
    mapped, [copyAux] is [config.frameBufferEmulation.copyAuxToRDRAM]. *)
Definition session (real_height : Z) (map_ok : bool) (copyAux : Z) : Globals :=
  mkGlobals 0x7FFFFF 320 240 real_height false 320 copyAux 0 0 false false
            1%Q 1%Q 7 0
            (fun i => nth (Z.to_nat i) [2; 6; 4; 3] 0) false map_ok None
            (fun _ => true).

Definition frame7 : Globals := session 240 true 0.

(** The same session with the policy that copies auxiliary buffers to guest
    memory. *)
Definition frame7_flushing : Globals := session 240 true 1.

(** An auxiliary (16 pixels wide), fingerprinted buffer whose validity was
    last checked in frame 0. *)
Definition stale_buffer : FrameBuffer :=
  mkFrameBuffer 0x100000 0x1001FF 2 16 16 0 0 1%Q 1%Q
                false true false false false false false false false
                0 None false [] 0 2.

(** A 32 x 16 buffer of 16-bit pixels at [0x100000], and a registry that
    holds it, with guest memory [m], [gDP.colorImage.changed] set to
    [changed], and the engine [g_RDRAMtoFB] in state [e]. *)
Definition screen_buffer : FrameBuffer :=
  mkFrameBuffer 0x100000 0x1003FF 2 32 16 0 0 1%Q 1%Q
                false false false false false false false false false
                0 None false [] 0 2.

Definition screen_machine (m : Memory) (changed : Z) (e : RDRAMtoFrameBuffer)
  : Machine :=
  mkMachine (mkFrameBufferList [(0%nat, screen_buffer)] (Some 0%nat) None 0)
            m 16 changed e 1%nat.

(** The same range held by an older entry of width 32 and a newer entry of
    width 64. *)
Definition wide_buffer : FrameBuffer :=
  mkFrameBuffer 0x100000 0x1003FF 2 64 8 0 0 1%Q 1%Q
                false false false false false false false false false
                0 None false [] 0 2.

Definition two_claims : FrameBuffers :=
  [(1%nat, wide_buffer); (0%nat, screen_buffer)].

(** A host whose GPU-to-guest engine is never asked to copy. *)
Definition host_idle : Host := mkHost (fun _ _ st => st).

(** Two buffer switches to auxiliary 32 x 16 images of 16-bit pixels (1024
    bytes): the first at [0x100200], the second at [0x100000], whose range
    holds the start of the first. *)
Definition call_upper : Call := mkCall 0x100200 0 2 32 16 false.
Definition call_lower : Call := mkCall 0x100000 0 2 32 16 false.


(** Auxiliary buffers (16 pixels wide) of 16-bit pixels: 32 rows (1024
    bytes), 16 rows (512 bytes), 8 rows (256 bytes), and 32 rows starting
    past the end of guest memory. *)
Definition aux_buffer : FrameBuffer :=
  mkFrameBuffer 0x100000 0x1003FF 2 16 32 0 0 1%Q 1%Q
                false false false false false false false false false
                0 None false [] 0 2.

Definition small_aux_buffer : FrameBuffer :=
  mkFrameBuffer 0x100000 0x1001FF 2 16 16 0 0 1%Q 1%Q
                false false false false false false false false false
                0 None false [] 0 2.

Definition small_buffer : FrameBuffer :=
  mkFrameBuffer 0x100000 0x1000FF 2 16 8 0 0 1%Q 1%Q
                false false false false false false false false false
                0 None false [] 0 2.

Definition beyond_buffer : FrameBuffer :=
  mkFrameBuffer 0x800000 0x8003FF 2 16 32 0 0 1%Q 1%Q
                false false false false false false false false false
                0 None false [] 0 2.

(** ** The depth conversion [DepthBufferToRDRAM::_FloatToUInt16] *)

(** [f32] depth samples: IEEE 754 binary32.  Every [float] expression is
    evaluated in binary32 with rounding to nearest, ties to even, as on
    the platforms the plugin is built for. *)
Definition binary32 : Type := spec_float.
Definition b32_prec : Z := 24.
Definition b32_emax : Z := 128.

Definition b32_mul : binary32 -> binary32 -> binary32 :=
  SFmul b32_prec b32_emax.
Definition b32_add : binary32 -> binary32 -> binary32 :=
  SFadd b32_prec b32_emax.
Definition b32_lt : binary32 -> binary32 -> bool := SFltb.

(** The constants [1.0f], [262144.0f] and [0.5f]. *)
Definition b32_one : binary32 := S754_finite false 0x800000 (-23).
Definition b32_262144 : binary32 := S754_finite false 0x800000 (-5).
Definition b32_half : binary32 := S754_finite false 0x800000 (-24).

(** [floorf(x)] as an integer; there is none for an infinity or a NaN. *)
Definition floorf (x : binary32) : option Z :=
  match x with
  | S754_zero _ => Some 0
  | S754_finite s m e =>
      let v := if s then Z.neg m else Z.pos m in
      Some (if 0 <=? e then v * 2 ^ e else v / 2 ^ (- e))
  | S754_infinity _ | S754_nan => None
  end.

(** [u32(floorf(x))]: the conversion of a [float] to [u32] is undefined
    behaviour when the value is not in the range of [u32]; [None] stands
    for it. *)
Definition u32_of_floorf (x : binary32) : option Z :=
  match floorf x with
  | Some n => if (0 <=? n) && (n <? 2 ^ 32) then Some n else None
  | None => None
  end.

(** The index that [_FloatToUInt16] computes,
    [u32 idx = 0x3FFFF;
     if (_z < 1.0f) {
       _z *= 262144.0f;
       idx = min(0x3FFFFU, u32(floorf(_z + 0.5f)));
     }] *)
Definition FloatToUInt16_idx (_z : binary32) : option Z :=
  if b32_lt _z b32_one then
    match u32_of_floorf (b32_add (b32_mul _z b32_262144) b32_half) with
    | Some n => Some (Z.min 0x3FFFF n)
    | None => None
    end
  else Some 0x3FFFF.

(** [u16 DepthBufferToRDRAM::_FloatToUInt16(f32 _z)]; the table [zLUT]
    belongs to the depth-buffer list, which is not part of the sources,
    and is taken as it comes. *)
Definition _FloatToUInt16 (zLUT : Z -> Z) (_z : binary32) : option Z :=
  option_map zLUT (FloatToUInt16_idx _z).

(** The value of a finite binary32 number, as a rational: [m * 2^e], the
    fraction [m / 2^(-e)] when the exponent is negative. *)
Definition b32_value (x : binary32) : option Q :=
  match x with
  | S754_zero _ => Some 0%Q
  | S754_finite s m e =>
      let v := if s then Z.neg m else Z.pos m in
      Some (if 0 <=? e then inject_Z (v * 2 ^ e)
            else v # Z.to_pos (2 ^ (- e)))
  | S754_infinity _ | S754_nan => None
  end.

(** The index as the specification has it, in exact arithmetic:
    [min(0x3FFFF, floor(z * 262144 + 0.5))]. *)
Definition spec_depth_index (x : binary32) : option Z :=
  match b32_value x with
  | Some q => Some (Z.min 0x3FFFF (Qfloor (q * 262144 + (1 # 2))%Q))
  | None => None
  end.

(** The largest binary32 number below [2^-19]: [(2^24 - 1) * 2^-43]. *)
Definition below_half_step : binary32 := S754_finite false 16777215 (-43).

(** The samples of a depth surface are not negative: a zero or a number
    with a positive sign. *)
Definition b32_nonneg (x : binary32) : bool :=
  match x with
  | S754_zero _ => true
  | S754_finite s _ _ => negb s
  | S754_infinity s => negb s
  | S754_nan => false
  end.

(** The integer [M] without its last [n] bits, rounded to nearest with
    ties to even: the mantissa that the rounding of [SpecFloat] leaves
    when it shifts [M] by [n] bits. *)
Definition shifted_rne (M n : Z) : Z :=
  let q := M / 2 ^ n in
  let r := M mod 2 ^ n in
  if 2 * r <? 2 ^ n then q
  else if 2 * r =? 2 ^ n then (if Z.even q then q else q + 1)
  else q + 1.

(** ** More of the registry *)

(** [FrameBuffer * FrameBufferList::findTmpBuffer(u32 _address)] *)
Fixpoint findTmpBuffer (l : FrameBuffers) (_address : Z) : option Ptr :=
  match l with
  | [] => None
  | (p, b) :: t =>
      if (m_startAddress b >? _address) || (m_endAddress b <? _address)
      then Some p
      else findTmpBuffer t _address
  end.

(** The loops of [removeBuffers] and [removeAux],
    [for (iter = m_list.begin(); iter != m_list.end(); ++iter)
       while (cond(iter)) {
         if (&( *iter) == m_pCurrent) m_pCurrent = NULL;
         iter = m_list.erase(iter);
         if (iter == m_list.end()) return;
       }]
    The iterator splits the list in the entries before it ([before]) and
    the entries from it on ([from]); [erase] drops the head of [from] and
    leaves the iterator on the next entry, where the [while] test is made
    again; [++iter] moves an entry that failed the test to [before].  The
    result is [m_list] and [m_pCurrent] when the function returns. *)
Fixpoint remove_loop (cond : FrameBuffer -> bool) (before from : FrameBuffers)
  (pCurrent : option Ptr) : FrameBuffers * option Ptr :=
  match from with
  | [] => (before, pCurrent)
  | (p, b) :: t =>
      if cond b
      then remove_loop cond before t
                       (if ptr_eqb p pCurrent then None else pCurrent)
      else remove_loop cond (before ++ [(p, b)]) t pCurrent
  end.

(** [void FrameBufferList::removeBuffers(u32 _width)] *)
Definition removeBuffers (fbl : FrameBufferList) (_width : Z)
  : FrameBufferList :=
  let r := remove_loop (fun b => m_width b =? _width) [] (m_list fbl) None in
  mkFrameBufferList (fst r) (snd r) (m_pCopy fbl) (m_prevColorImageHeight fbl).

(** [void FrameBufferList::removeAux()] *)
Definition removeAux (g : Globals) (fbl : FrameBufferList) : FrameBufferList :=
  let r :=
    remove_loop
      (fun b => negb (m_width b =? VI_width g)
                && negb (m_height b =? VI_height g))
      [] (m_list fbl) (m_pCurrent fbl) in
  mkFrameBufferList (fst r) (snd r) (m_pCopy fbl) (m_prevColorImageHeight fbl).

(** [void FrameBufferList::clearDepthBuffer(DepthBuffer * _pDepthBuffer)],
    for a pointer [_pDepthBuffer] that is not null (with a null pointer no
    member changes). *)
Definition clearDepthBuffer (_pDepthBuffer : Z) (l : FrameBuffers)
  : FrameBuffers :=
  map (fun n =>
         match m_pDepthBuffer (snd n) with
         | Some d =>
             if d =? _pDepthBuffer
             then (fst n, set_pDepthBuffer None (snd n)) else n
         | None => n
         end) l.

(** One record of [FBInfo::FrameBufferInfo]. *)
Record FrameBufferInfo : Type := mkFrameBufferInfo {
  info_addr : Z;
  info_width : Z;
  info_height : Z;
  info_size : Z
}.

(** The loop of [fillBufferInfo]: [pInfo] holds the records written so far,
    [pInfo[0]] to [pInfo[idx - 1]]. *)
Fixpoint fillBufferInfo_loop (g : Globals) (l : FrameBuffers) (_size idx : Z)
  (pInfo : list FrameBufferInfo) : list FrameBufferInfo :=
  match l with
  | [] => pInfo
  | (_, b) :: t =>
      if (m_width b =? VI_width g) && negb (m_cfb b)
         && negb (m_isDepthBuffer b)
      then
        let pInfo' :=
          pInfo ++ [mkFrameBufferInfo (m_startAddress b) (m_width b)
                                      (m_height b) (m_size b)] in
        if idx + 1 >=? _size then pInfo'
        else fillBufferInfo_loop g t _size (idx + 1) pInfo'
      else fillBufferInfo_loop g t _size idx pInfo
  end.

(** [void FrameBufferList::fillBufferInfo(void * _pinfo, u32 _size)]: the
    records written to [_pinfo], from index 0 on. *)
Definition fillBufferInfo (g : Globals) (l : FrameBuffers) (_size : Z)
  : list FrameBufferInfo :=
  fillBufferInfo_loop g l _size 0 [].

(** The buffers that [fillBufferInfo] reports. *)
Definition reported (g : Globals) (n : Ptr * FrameBuffer) : bool :=
  (m_width (snd n) =? VI_width g) && negb (m_cfb (snd n))
  && negb (m_isDepthBuffer (snd n)).

Definition info_of (n : Ptr * FrameBuffer) : FrameBufferInfo :=
  mkFrameBufferInfo (m_startAddress (snd n)) (m_width (snd n))
                    (m_height (snd n)) (m_size (snd n)).

(** ** The GPU-to-guest direction on builds without pixel read-back *)

(** A 16-bit little-endian store at byte address [a]. *)
Definition store16 (m : Memory) (a v : Z) : Memory :=
  store8 (store8 m a v) (a + 1) (v / 2 ^ 8).

Definition set_copiedToRdram (v : bool) (b : FrameBuffer) : FrameBuffer :=
  mkFrameBuffer (m_startAddress b) (m_endAddress b) (m_size b) (m_width b)
    (m_height b) (m_fillcolor b) (m_validityChecked b) (m_scaleX b)
    (m_scaleY b) v (m_fingerprint b) (m_cleared b) (m_changed b)
    (m_cfb b) (m_isDepthBuffer b) (m_isPauseScreen b) (m_isOBScreen b)
    (m_needHeightCorrection b) (m_postProcessed b) (m_pDepthBuffer b)
    (m_resolved b) (m_RdramCopy b) (m_pTexture_format b) (m_pTexture_size b).

Definition set_cleared (v : bool) (b : FrameBuffer) : FrameBuffer :=
  mkFrameBuffer (m_startAddress b) (m_endAddress b) (m_size b) (m_width b)
    (m_height b) (m_fillcolor b) (m_validityChecked b) (m_scaleX b)
    (m_scaleY b) (m_copiedToRdram b) (m_fingerprint b) v (m_changed b)
    (m_cfb b) (m_isDepthBuffer b) (m_isPauseScreen b) (m_isOBScreen b)
    (m_needHeightCorrection b) (m_postProcessed b) (m_pDepthBuffer b)
    (m_resolved b) (m_RdramCopy b) (m_pTexture_format b) (m_pTexture_size b).

(** The store of [copyWhiteToRDRAM] for the pixel index [idx]:
    [ptr_dst[idx] = 0xFFFFFFFF] for 32-bit pixels ([ptr_dst] a [u32 * ]),
    [ptr_dst[idx ^ 1] = 0xFFFF] otherwise ([ptr_dst] a [u16 * ]). *)
Definition white_store (size start idx : Z) (m : Memory) : Memory :=
  if size =? G_IM_SIZ_32b then store32 m (start + 4 * idx) 0xFFFFFFFF
  else store16 m (start + 2 * Z.lxor idx 1) 0xFFFF.

(** The loops [for (u32 x = 0; x < VI.width; ++x)] and
    [for (u32 y = 0; y < VI.height; ++y)] of [copyWhiteToRDRAM], with [n]
    iterations left; the pixel index is [x + y*VI.width]. *)
Fixpoint white_row (g : Globals) (size start y x : Z) (n : nat) (m : Memory)
  : Memory :=
  match n with
  | O => m
  | S n' =>
      white_row g size start y (x + 1) n'
        (white_store size start (U32.add x (U32.mul y (VI_width g))) m)
  end.

Fixpoint white_rows (g : Globals) (size start y : Z) (n : nat) (m : Memory)
  : Memory :=
  match n with
  | O => m
  | S n' =>
      white_rows g size start (y + 1) n'
        (white_row g size start y 0 (Z.to_nat (VI_width g)) m)
  end.

(** [static void copyWhiteToRDRAM(FrameBuffer * _pBuffer)]: the buffer and
    guest memory after the call. *)
Definition copyWhiteToRDRAM (g : Globals) (b : FrameBuffer) (m : Memory)
  : FrameBuffer * Memory :=
  let m1 := white_rows g (m_size b) (m_startAddress b) 0
              (Z.to_nat (VI_height g)) m in
  let r := copyRdram g (set_copiedToRdram true b) m1 in
  (set_cleared false (fst r), snd r).

(** [void FrameBuffer_CopyToRDRAM(u32 _address, bool _sync)] as it is
    compiled with [GLES2]; [hack_subscreen_set] is
    [(config.generalEmulation.hacks & hack_subscreen) != 0].  A pointer to
    a node that left the list is read as a null pointer. *)
Definition FrameBuffer_CopyToRDRAM_GLES2 (g : Globals)
  (hack_subscreen_set : bool) (_address : Z) (_sync : bool) (st : Machine)
  : Machine :=
  let l := m_list (frameBufferList st) in
  if negb hack_subscreen_set then st
  else if (VI_width g =? 0)
          || match m_pCurrent (frameBufferList st) with
             | None => true
             | Some _ => false
             end
  then st
  else
    match findBuffer l _address with
    | None => st
    | Some p =>
        match deref l p with
        | None => st
        | Some b =>
            if (m_width b <? VI_width g) || m_isOBScreen b then st
            else
              let r := copyWhiteToRDRAM g b (RDRAM st) in
              with_RDRAM (snd r) (set_list (update p (fun _ => fst r) l) st)
        end
    end.

(** The host of a [GLES2] build. *)
Definition host_gles2 (g : Globals) (hack_subscreen_set : bool) : Host :=
  mkHost (FrameBuffer_CopyToRDRAM_GLES2 g hack_subscreen_set).

(** ** The GPU-to-guest direction with pixel read-back: [_writeToRdram] *)

(** [_dst[k] = v] for the destination of [_writeToRdram], an array of
    [TDst] read as a map from the element index, counted from the pointer
    that the function got, to the element. *)
Definition dst_store (d : Z -> Z) (k v : Z) : Z -> Z :=
  fun x => if x =? k then v else d x.

Section WriteLoops.

Variable src : Z -> Z.
Variable converter : Z -> Z.
Variables _testValue _xor _width _height _numPixels : Z.

(** The loop over the rest of the first row,
    [for (u32 x = chunkStart; x < _width; ++x)], with [n] iterations left;
    [base] is the offset of [_dst] from the pointer that the function got.
    The result is [numStored] and the destination. *)
Fixpoint writeToRdram_first (x : Z) (n : nat) (base : Z)
  (acc : Z * (Z -> Z)) : Z * (Z -> Z) :=
  match n with
  | O => acc
  | S n' =>
      let c := src (U32.add x (U32.mul (U32.sub _height 1) _width)) in
      writeToRdram_first (x + 1) n' base
        (U32.add (fst acc) 1,
         if negb (c =? _testValue)
         then dst_store (snd acc) (base + Z.lxor (fst acc) _xor) (converter c)
         else snd acc)
  end.

(** The inner loop
    [for (u32 x = 0; x < _width && numStored < _numPixels; ++x)]. *)
Fixpoint writeToRdram_row (y dsty x : Z) (n : nat) (base : Z)
  (acc : Z * (Z -> Z)) : Z * (Z -> Z) :=
  match n with
  | O => acc
  | S n' =>
      if fst acc <? _numPixels then
        let c :=
          src (U32.add x (U32.mul (U32.sub (U32.sub _height y) 1) _width)) in
        writeToRdram_row y dsty (x + 1) n' base
          (U32.add (fst acc) 1,
           if negb (c =? _testValue)
           then dst_store (snd acc)
                  (base + Z.lxor (U32.add x (U32.mul dsty _width)) _xor)
                  (converter c)
           else snd acc)
      else acc
  end.

(** The outer loop [for (; y < _height; ++y) { ...; ++dsty; }]. *)
Fixpoint writeToRdram_rows (y dsty : Z) (n : nat) (base : Z)
  (acc : Z * (Z -> Z)) : Z * (Z -> Z) :=
  match n with
  | O => acc
  | S n' =>
      writeToRdram_rows (y + 1) (dsty + 1) n' base
        (writeToRdram_row y dsty 0 (Z.to_nat _width) base acc)
  end.

End WriteLoops.

(** [template <typename TSrc, typename TDst> void _writeToRdram(...)]: the
    destination after the call. *)
Definition _writeToRdram (_src _dst : Z -> Z) (converter : Z -> Z)
  (_testValue _xor _width _height _numPixels _startAddress _bufferAddress
   _bufferSize : Z) : Z -> Z :=
  let chunkStart0 :=
    U32.rem (U32.shr (U32.sub _startAddress _bufferAddress)
                     (U32.sub _bufferSize 1)) _width in
  let odd := negb (U32.rem chunkStart0 2 =? 0) in
  let chunkStart := if odd then U32.sub chunkStart0 1 else chunkStart0 in
  let base0 := if odd then -1 else 0 in
  let numPixels := if odd then U32.add _numPixels 1 else _numPixels in
  let first :=
    if chunkStart >? 0
    then writeToRdram_first _src converter _testValue _xor _width _height
           chunkStart (Z.to_nat (_width - chunkStart)) base0 (0, _dst)
    else (0, _dst) in
  let y := if chunkStart >? 0 then 1 else 0 in
  let base := if chunkStart >? 0 then base0 + fst first else base0 in
  snd (writeToRdram_rows _src converter _testValue _xor _width _height
         numPixels y 0 (Z.to_nat (_height - y)) base first).

(** ** Pixel formats: the host pixel of a 16-bit guest pixel *)

(** The five bits of the channel of a 16-bit guest pixel that starts at
    bit [shift]: [(col >> shift) & 31]. *)
Definition channel5 (col shift : Z) : Z := Z.land (Z.shiftr col shift) 31.

(** ** Notions used to state what the code does *)

(** The range of a buffer holds an address. *)
Definition holds (b : FrameBuffer) (a : Z) : Prop :=
  m_startAddress b <= a <= m_endAddress b.

(** The entries that [removeAux] erases. *)
Definition off_screen (g : Globals) (b : FrameBuffer) : bool :=
  negb (m_width b =? VI_width g) && negb (m_height b =? VI_height g).

(** The entries that a query of [_findBuffer] leaves alone, and the entries
    that it asks for. *)
Definition clear_of (s e : Z) (n : Ptr * FrameBuffer) : bool :=
  negb (conflicts (snd n) s e).

Definition matches (s e w : Z) (n : Ptr * FrameBuffer) : bool :=
  conflicts (snd n) s e && negb (differs (snd n) s w).

(** The state in which [saveBuffer] has looked for its buffer:
    [m_pCurrent] is null, or points to a live buffer with the start address
    and width asked for. *)
Definition bound_or_null (_address _width : Z) (st : Machine) : Prop :=
  m_pCurrent (frameBufferList st) = None
  \/ exists p b, current st = Some (p, b)
                 /\ m_startAddress b = _address /\ m_width b = _width
                 /\ m_resolved b = false.

(** Two memories that [isValid] cannot tell apart: their 32-bit words are
    equal once the low bit of each 16-bit half is dropped. *)
Definition same_masked (m m' : Memory) : Prop :=
  forall i, Z.land (pData m i) validity_mask
            = Z.land (pData m' i) validity_mask.

(** The bytes that [CopyFromRDRAM] clears for the buffer [b] of [height]
    rows:
    [u32 totalBytes = (width * height) << m_pCurBuffer->m_size >> 1;
     if (address + totalBytes > RDRAMSize + 1)
       totalBytes = RDRAMSize + 1 - address;] *)
Definition cleared_bytes (g : Globals) (b : FrameBuffer) (height : Z) : Z :=
  let totalBytes :=
    U32.shr (U32.shl (U32.mul (m_width b) height) (m_size b)) 1 in
  if U32.add (m_startAddress b) totalBytes >? U32.add (RDRAMSize g) 1
  then U32.sub (U32.add (RDRAMSize g) 1) (m_startAddress b)
  else totalBytes.

(** Two memories with the same bytes from [a] to the last byte of guest
    memory. *)
Definition same_guest_bytes (R a : Z) (m m' : Memory) : Prop :=
  forall x, a <= x <= R -> load8 m x = load8 m' x.

(** The pixel index and the row that [_copyPixelsFromRdram] computes for a
    queued address:
    [idx = (_vecAddress[i] - _address) / szPixel; h = idx / _width;] *)
Definition pixel_index (szPixel _address a : Z) : Z :=
  U32.div (U32.sub a _address) szPixel.

Definition pixel_row (szPixel _address _width a : Z) : Z :=
  U32.div (pixel_index szPixel _address a) _width.

(** The position of the staging buffer at which [_copyPixelsFromRdram]
    stores the pixel of a queued address:
    [w = idx % _width; (w + (_height - h)*_width) ^ _xor]. *)
Definition pixel_target (szPixel _address _xor _width _height a : Z) : Z :=
  let idx := pixel_index szPixel _address a in
  Z.lxor (U32.add (U32.rem idx _width)
            (U32.mul (U32.sub _height (U32.div idx _width)) _width)) _xor.

(** A queued address that the loop of [_copyPixelsFromRdram] accepts, and
    the queued addresses that the loop reaches: those in front of the
    first one that it rejects. *)
Definition accepted (szPixel _address _width _height a : Z) : bool :=
  negb (a <? _address)
  && negb (pixel_row szPixel _address _width a >? _height).

Fixpoint reached (szPixel _address _width _height : Z) (vec : list Z)
  : list Z :=
  match vec with
  | [] => []
  | a :: rest =>
      if accepted szPixel _address _width _height a
      then a :: reached szPixel _address _width _height rest
      else []
  end.

(** The bound of [_copyBufferFromRdram] on the pixel index:
    [(RDRAMSize + 1 - _address) >> (sizeof(TSrc) / 2)]. *)
Definition copy_bound (szPixel : Z) (g : Globals) (_address : Z) : Z :=
  U32.shr (U32.sub (U32.add (RDRAMSize g) 1) _address) (szPixel / 2).

(** The pixel that a whole-buffer copy puts at position [k] of the staging
    buffer: the pixel of the same column in the row counted from the
    bottom. *)
Definition flipped (szPixel : Z) (converter : Z -> bool -> Z) (m : Memory)
  (_address _xor _width _height : Z) (_bCFB : bool) (k : Z) : Z :=
  converter
    (src_load szPixel m _address
       (Z.lxor (k mod _width + (_height - k / _width - 1) * _width) _xor))
    _bCFB.

(** The bytes of a pixel of [copyWhiteToRDRAM], and the pixel index whose
    store reaches the byte at address [k]. *)
Definition white_pixel_bytes (size : Z) : Z :=
  if size =? G_IM_SIZ_32b then 4 else 2.

Definition white_source (size start k : Z) : Z :=
  let p := (k - start) / white_pixel_bytes size in
  if size =? G_IM_SIZ_32b then p else Z.lxor p 1.

(** The pixel of the source that [_writeToRdram] stores for the pixel
    index [i] of the destination: the same column, the row counted from
    the bottom. *)
Definition mirrored (src : Z -> Z) (_width _height i : Z) : Z :=
  src (i mod _width + (_height - i / _width - 1) * _width).

(** What a pass of [_writeToRdram] over the pixel indexes from [lo] to
    [hi] leaves at position [k] of a destination that was [d] before: the
    pixel index that is stored at [k] is [k ^ _xor]. *)
Definition written (src : Z -> Z) (converter : Z -> Z)
  (_testValue _xor _width _height lo hi : Z) (d : Z -> Z) (k : Z) : Z :=
  let i := Z.lxor k _xor in
  if (lo <=? i) && (i <? hi)
  then if mirrored src _width _height i =? _testValue then d k
       else converter (mirrored src _width _height i)
  else d k.

(** ** More sample states *)

(** Guest memory with the alpha bit of the 16-bit pixel at byte address
    [0x100000] set, and all other bytes zero. *)
Definition alpha_bit_set : Memory := fun a => if a =? 0x100000 then 1 else 0.

(** Memory that is zero inside the 8 MB of guest memory and [0xFF] past
    its end. *)
Definition beyond_guest : Memory := fun a => if a >? 0x7FFFFF then 255 else 0.

(** A buffer that was cleared to colour 0, last checked in frame 0. *)
Definition cleared_buffer : FrameBuffer :=
  mkFrameBuffer 0x100000 0x1003FF 2 32 16 0 0 1%Q 1%Q
                false false true false false false false false false
                0 None false [] 0 2.

(** A registry with the two entries of [two_claims], the older one
    bound. *)
Definition two_claims_list : FrameBufferList :=
  mkFrameBufferList two_claims (Some 0%nat) None 0.

(** A 32 x 16 display on 8 MB of guest memory, and a buffer of 32-bit
    pixels that fills it. *)
Definition small_display : Globals :=
  mkGlobals 0x7FFFFF 32 16 16 false 32 0 0 0 false false
            1%Q 1%Q 7 0
            (fun i => nth (Z.to_nat i) [2; 6; 4; 3] 0) false true None
            (fun _ => true).

Definition small_display_buffer : FrameBuffer :=
  mkFrameBuffer 0x100000 0x1007FF 3 32 16 0 0 1%Q 1%Q
                false false false false false false false false false
                0 None false [] 0 3.

(* ===================================================================== *)
(** * Part II: theorems *)
(* ===================================================================== *)

(** ** Arithmetic *)

Lemma wrap_range (z : Z) : U32.in_range (U32.wrap z).
Proof.
  unfold U32.in_range, U32.wrap, U32.modulus.
  apply Z.mod_pos_bound. lia.
Qed.

Lemma wrap_small (z : Z) : U32.in_range z -> U32.wrap z = z.
Proof.
  unfold U32.in_range, U32.wrap. intros H. now apply Z.mod_small.
Qed.

Lemma modulus_value : U32.modulus = 4294967296.
Proof. reflexivity. Qed.

(** ** Height clipping *)

Lemma cutHeight_outside (R a h s : Z) : R < a -> _cutHeight R a h s = 0.
Proof.
  intros H. unfold _cutHeight.
  destruct (Z.gtb_spec a R) as [_ | Hle]; [reflexivity | lia].
Qed.

(** C2, as stated, fails: for an address past the end of guest memory the
    clipped height is 0, and [address + stride * 0] is still above
    [RDRAMSize + 1]. *)
Lemma cutHeight_bound_counterexample :
  _cutHeight 0x7FFFFF 0x800001 240 640 = 0
  /\ ~ (0x800001 + 640 * _cutHeight 0x7FFFFF 0x800001 240 640 <= 0x7FFFFF + 1).
Proof.
  split; [reflexivity | vm_compute; intros H; apply H; reflexivity].
Qed.

(** The product [_stride * _height] is taken modulo [2^32]: a buffer whose
    extent wraps around is not clipped at all. *)
Lemma cutHeight_wraps :
  _cutHeight 0x7FFFFF 0x100 0x10000 0x10000 = 0x10000.
Proof. reflexivity. Qed.

(** C2 (amended): for an address of at most [RDRAMSize + 1] and an
    unclipped extent [address + stride * height] that fits 32 bits, the
    clipped height [h] satisfies [address + stride * h <= RDRAMSize + 1],
    and when the unclipped extent is above that bound [h] is
    [min height ((RDRAMSize + 1 - address) / stride)]. *)
Theorem cutHeight_bound (R a h s : Z) :
  0 <= R -> R + 1 < U32.modulus ->
  0 <= a <= R + 1 -> 0 <= h -> 0 <= s ->
  a + s * h < U32.modulus ->
  a + s * _cutHeight R a h s <= R + 1
  /\ (a + s * h > R + 1 ->
      _cutHeight R a h s = Z.min h ((R + 1 - a) / s)).
Proof.
  intros HR HR1 Ha Hh Hs Hfit. unfold _cutHeight.
  destruct (Z.gtb_spec a R) as [Hout | Hin].
  - assert (a = R + 1) by lia. subst a. split; [lia |].
    intros _. replace (R + 1 - (R + 1)) with 0 by lia.
    rewrite Zdiv_0_l. lia.
  - assert (Hsh : 0 <= s * h) by (apply Z.mul_nonneg_nonneg; lia).
    unfold U32.add, U32.mul, U32.sub, U32.div.
    rewrite (wrap_small (s * h)) by (unfold U32.in_range; lia).
    rewrite (wrap_small (a + s * h)) by (unfold U32.in_range; lia).
    rewrite (wrap_small (R + 1)) by (unfold U32.in_range; lia).
    rewrite (wrap_small (R + 1 - a)) by (unfold U32.in_range; lia).
    destruct (Z.gtb_spec (a + s * h) (R + 1)) as [Hover | Hfits].
    + assert (Hs0 : 0 < s) by nia.
      assert (Hq : s * ((R + 1 - a) / s) <= R + 1 - a)
        by (apply Z.mul_div_le; lia).
      split; [lia |]. intros _.
      assert ((R + 1 - a) / s < h)
        by (apply Z.div_lt_upper_bound; lia).
      lia.
    + split; [lia | intros; lia].
Qed.

Lemma cutHeight_bound_witness :
  640 * _cutHeight 0x7FFFFF 0x7FF000 240 640 <= 0x7FFFFF + 1 - 0x7FF000.
Proof.
  pose proof (cutHeight_bound 0x7FFFFF 0x7FF000 240 640) as H.
  rewrite modulus_value in H.
  assert (H1 : 0 <= 0x7FFFFF) by lia.
  assert (H2 : 0x7FFFFF + 1 < 4294967296) by lia.
  assert (H3 : 0 <= 0x7FF000 <= 0x7FFFFF + 1) by lia.
  assert (H4 : 0 <= 240) by lia.
  assert (H5 : 0 <= 640) by lia.
  assert (H6 : 0x7FF000 + 640 * 240 < 4294967296) by lia.
  destruct (H H1 H2 H3 H4 H5 H6) as [Hb _]. lia.
Defined.

(** ** The validity check *)

(** C7, as stated, fails: a check that found the buffer stale is not what
    a later call of the same frame returns.  The fingerprint is absent from
    guest memory, so the check answers [false]; once [m_validityChecked]
    holds the frame counter, [isValid] answers [true]. *)
Lemma isValid_cached_counterexample :
  isValid frame7 (fun _ => 0) stale_buffer = false
  /\ isValid frame7 (fun _ => 0)
       (set_validityChecked (buffersSwapCount frame7) stale_buffer) = true.
Proof. split; reflexivity. Qed.

(** C7 (amended): a buffer whose [m_validityChecked] equals the current
    swap count is reported valid, whatever guest memory holds and whatever
    an earlier check returned. *)
Theorem isValid_cached (g : Globals) (m : Memory) (b : FrameBuffer) :
  m_validityChecked b = buffersSwapCount g -> isValid g m b = true.
Proof.
  intros H. unfold isValid. rewrite H, Z.eqb_refl. reflexivity.
Qed.

Lemma isValid_cached_witness :
  isValid frame7 (fun _ => 0) (set_validityChecked 7 stale_buffer) = true.
Proof.
  apply (isValid_cached frame7 (fun _ => 0) (set_validityChecked 7 stale_buffer)).
  reflexivity.
Defined.

(** C10: a buffer that is not cleared, has no fingerprint and no snapshot
    is reported valid. *)
Theorem isValid_no_data (g : Globals) (m : Memory) (b : FrameBuffer) :
  m_cleared b = false -> m_fingerprint b = false -> m_RdramCopy b = [] ->
  isValid g m b = true.
Proof.
  intros Hc Hf Hr. unfold isValid. rewrite Hc, Hf, Hr. simpl.
  destruct (m_validityChecked b =? buffersSwapCount g); reflexivity.
Qed.

Lemma isValid_no_data_witness :
  isValid frame7 (fun _ => 0) FrameBuffer_new = true.
Proof.
  apply (isValid_no_data frame7 (fun _ => 0) FrameBuffer_new); reflexivity.
Defined.

(** ** The guest-to-GPU push *)

(** C9: however the body of [CopyFromRDRAM] is left, the call ends with an
    empty queue of written addresses and no current buffer. *)
Theorem CopyFromRDRAM_resets (g : Globals) (_address : Z) (_bCFB : bool)
  (st : Machine) :
  m_vecAddress (g_RDRAMtoFB (CopyFromRDRAM g _address _bCFB st)) = []
  /\ m_pCurBuffer (g_RDRAMtoFB (CopyFromRDRAM g _address _bCFB st)) = None.
Proof.
  unfold CopyFromRDRAM, Cleaner_destructor, with_g_RDRAMtoFB, Reset.
  destruct (CopyFromRDRAM_body g _address _bCFB st) as [ex st1].
  split; reflexivity.
Qed.

(** The call changes nothing else than what its body changed. *)
Lemma CopyFromRDRAM_keeps_body (g : Globals) (_address : Z) (_bCFB : bool)
  (st : Machine) :
  let st1 := snd (CopyFromRDRAM_body g _address _bCFB st) in
  let st2 := CopyFromRDRAM g _address _bCFB st in
  frameBufferList st2 = frameBufferList st1 /\ RDRAM st2 = RDRAM st1.
Proof. split; reflexivity. Qed.

(** Every [return] of the body, and its end, is taken by some call. *)
Lemma CopyFromRDRAM_exits_reachable (ex : CopyFromRDRAM_exit) :
  exists (g : Globals) (_address : Z) (_bCFB : bool) (st : Machine),
    fst (CopyFromRDRAM_body g _address _bCFB st) = ex.
Proof.
  destruct ex.
  - exists frame7, 0x100000, false,
      (screen_machine (fun _ => 0) 0 (mkRDRAMtoFrameBuffer (Some 0%nat) [])).
    reflexivity.
  - exists frame7, 0x100000, false,
      (screen_machine (fun _ => 0) 0 (mkRDRAMtoFrameBuffer None [])).
    reflexivity.
  - exists frame7, 0x100000, true,
      (screen_machine (fun _ => 0) 1 (mkRDRAMtoFrameBuffer None [])).
    reflexivity.
  - exists (session 0 true 0), 0x100000, true,
      (screen_machine (fun _ => 0) 0 (mkRDRAMtoFrameBuffer None [])).
    reflexivity.
  - exists (session 240 false 0), 0x100000, true,
      (screen_machine (fun _ => 0) 0 (mkRDRAMtoFrameBuffer None [])).
    reflexivity.
  - exists frame7, 0x100000, true,
      (screen_machine (fun _ => 0) 0 (mkRDRAMtoFrameBuffer None [])).
    vm_compute. reflexivity.
  - exists frame7, 0x100000, true,
      (screen_machine (fun _ => 255) 0 (mkRDRAMtoFrameBuffer None [])).
    vm_compute. reflexivity.
Qed.

(** ** The 32-bit pixel round trip *)

Lemma testbit_above (x k n : Z) :
  0 <= x < 2 ^ k -> 0 <= k <= n -> Z.testbit x n = false.
Proof.
  intros Hx Hk. rewrite <- (Z.mod_small x (2 ^ k)) by lia.
  apply Z.mod_pow2_bits_high. lia.
Qed.

Lemma lor_add (hi lo k : Z) :
  0 <= k -> 0 <= lo < 2 ^ k -> Z.lor (hi * 2 ^ k) lo = hi * 2 ^ k + lo.
Proof.
  intros Hk Hlo.
  assert (Hland : Z.land (hi * 2 ^ k) lo = 0).
  { apply Z.bits_inj'. intros n Hn. rewrite Z.land_spec, Z.bits_0.
    destruct (Z.lt_ge_cases n k) as [Hlt | Hge].
    - rewrite Z.mul_pow2_bits_low by lia. reflexivity.
    - rewrite (testbit_above lo k n) by lia. apply andb_false_r. }
  rewrite <- Z.lxor_lor by exact Hland.
  symmetry. apply Z.add_nocarry_lxor. exact Hland.
Qed.

Lemma land_byte (x : Z) : Z.land x 0xff = x mod 256.
Proof. change 0xff with (Z.ones 8). rewrite Z.land_ones by lia. reflexivity. Qed.

Lemma shl_byte (b k : Z) :
  0 <= b < 256 -> 0 <= k <= 24 -> U32.shl b k = b * 2 ^ k.
Proof.
  intros Hb Hk. unfold U32.shl, U32.wrap, U32.modulus.
  rewrite Z.shiftl_mul_pow2 by lia. apply Z.mod_small.
  assert (2 ^ k <= 2 ^ 24) by (apply Z.pow_le_mono_r; lia).
  assert (0 < 2 ^ k) by (apply Z.pow_pos_nonneg; lia).
  nia.
Qed.

Lemma lor4_value (b3 b2 b1 b0 : Z) :
  0 <= b3 < 256 -> 0 <= b2 < 256 -> 0 <= b1 < 256 -> 0 <= b0 < 256 ->
  Z.lor (Z.lor (Z.lor (U32.shl b3 24) (U32.shl b2 16)) (U32.shl b1 8)) b0
  = b3 * 2 ^ 24 + b2 * 2 ^ 16 + b1 * 2 ^ 8 + b0.
Proof.
  intros H3 H2 H1 H0. rewrite !shl_byte by lia.
  rewrite (lor_add b3 (b2 * 2 ^ 16) 24) by lia.
  replace (b3 * 2 ^ 24 + b2 * 2 ^ 16) with ((b3 * 2 ^ 8 + b2) * 2 ^ 16) by lia.
  rewrite (lor_add _ (b1 * 2 ^ 8) 16) by lia.
  replace ((b3 * 2 ^ 8 + b2) * 2 ^ 16 + b1 * 2 ^ 8)
    with ((b3 * 2 ^ 16 + b2 * 2 ^ 8 + b1) * 2 ^ 8) by lia.
  rewrite (lor_add _ b0 8) by lia. lia.
Qed.

Lemma bytes_of_value (b3 b2 b1 b0 : Z) :
  0 <= b3 < 256 -> 0 <= b2 < 256 -> 0 <= b1 < 256 -> 0 <= b0 < 256 ->
  let x := b3 * 2 ^ 24 + b2 * 2 ^ 16 + b1 * 2 ^ 8 + b0 in
  RGBA_r x = b0 /\ RGBA_g x = b1 /\ RGBA_b x = b2 /\ RGBA_a x = b3.
Proof.
  intros H3 H2 H1 H0 x. unfold RGBA_r, RGBA_g, RGBA_b, RGBA_a.
  rewrite !land_byte, !Z.shiftr_div_pow2 by lia. subst x.
  change (2 ^ 24) with 16777216. change (2 ^ 16) with 65536. change (2 ^ 8) with 256.
  repeat split; Z.div_mod_to_equations; lia.
Qed.

(** C5, as stated, fails: a black pixel with alpha [0x80] comes back as 0,
    and a pixel decoded as part of a CPU-written colour frame buffer comes
    back with alpha [0xFF]. *)
Lemma rgba32_round_trip_counterexample :
  _RGBAtoRGBA32 (RGBA32ToABGR32 0x00000080 false) <> 0x00000080
  /\ _RGBAtoRGBA32 (RGBA32ToABGR32 0x11223344 true) <> 0x11223344.
Proof. split; vm_compute; discriminate. Qed.

(** C5 (amended): decoding a 32-bit guest pixel with [RGBA32ToABGR32] and
    encoding the result with [_RGBAtoRGBA32] gives the pixel back when
    [_bCFB] is false and one of its colour channels is not zero; with all
    three colour channels zero it gives 0, and with [_bCFB] true it gives
    the pixel with its alpha byte replaced by [0xFF]. *)
Theorem rgba32_round_trip (col : Z) (_bCFB : bool) :
  0 <= col < 2 ^ 32 ->
  _RGBAtoRGBA32 (RGBA32ToABGR32 col _bCFB)
  = if _bCFB then col - Z.land col 0xFF + 0xFF
    else if Z.shiftr col 8 =? 0 then 0 else col.
Proof.
  intros Hc. unfold RGBA32ToABGR32.
  set (r := Z.land (Z.shiftr col 24) 0xff).
  set (g := Z.land (Z.shiftr col 16) 0xff).
  set (b := Z.land (Z.shiftr col 8) 0xff).
  set (a := if _bCFB then 0xFF
            else if Z.lor (Z.lor r g) b >? 0 then Z.land col 0xFF else 0).
  assert (Hr : 0 <= r < 256) by (subst r; rewrite land_byte; apply Z.mod_pos_bound; lia).
  assert (Hg : 0 <= g < 256) by (subst g; rewrite land_byte; apply Z.mod_pos_bound; lia).
  assert (Hb : 0 <= b < 256) by (subst b; rewrite land_byte; apply Z.mod_pos_bound; lia).
  assert (Hl : 0 <= Z.land col 0xFF < 256)
    by (change 0xFF with 0xff; rewrite land_byte; apply Z.mod_pos_bound; lia).
  assert (Ha : 0 <= a < 256).
  { subst a. destruct _bCFB; [lia |].
    destruct (Z.lor (Z.lor r g) b >? 0); lia. }
  rewrite (lor4_value a b g r) by assumption.
  unfold _RGBAtoRGBA32.
  destruct (bytes_of_value a b g r Ha Hb Hg Hr) as (Er & Eg & Eb & Ea).
  cbv zeta in Er, Eg, Eb, Ea. rewrite Er, Eg, Eb, Ea.
  rewrite (lor4_value r g b a) by assumption.
  assert (Hcol : col = r * 2 ^ 24 + g * 2 ^ 16 + b * 2 ^ 8 + Z.land col 0xFF).
  { subst r g b. change 0xFF with 0xff. rewrite !land_byte, !Z.shiftr_div_pow2 by lia.
    change (2 ^ 24) with 16777216. change (2 ^ 16) with 65536. change (2 ^ 8) with 256.
    change (2 ^ 32) with 4294967296 in Hc.
    Z.div_mod_to_equations. lia. }
  assert (Hz : Z.lor (Z.lor r g) b = 0 <-> Z.shiftr col 8 = 0).
  { rewrite !Z.lor_eq_0_iff. rewrite Z.shiftr_div_pow2 by lia.
    subst r g b. rewrite !land_byte, !Z.shiftr_div_pow2 by lia.
    change (2 ^ 24) with 16777216. change (2 ^ 16) with 65536. change (2 ^ 8) with 256.
    change (2 ^ 32) with 4294967296 in Hc.
    split; [intros [[? ?] ?] | intros ?; repeat split];
      Z.div_mod_to_equations; lia. }
  subst a. destruct _bCFB; [lia |].
  assert (Hnn : 0 <= Z.lor (Z.lor r g) b) by (rewrite !Z.lor_nonneg; lia).
  destruct (Z.gtb_spec (Z.lor (Z.lor r g) b) 0) as [Hpos | Hzero].
  - destruct (Z.eqb_spec (Z.shiftr col 8) 0) as [E | E]; [| lia].
    apply Hz in E. lia.
  - assert (E : Z.lor (Z.lor r g) b = 0) by lia.
    pose proof E as E'. apply Hz in E'. rewrite E', Z.eqb_refl.
    rewrite !Z.lor_eq_0_iff in E. lia.
Qed.

Lemma rgba32_round_trip_witness :
  _RGBAtoRGBA32 (RGBA32ToABGR32 0x11223344 false) = 0x11223344.
Proof.
  apply (rgba32_round_trip 0x11223344 false). lia.
Defined.

(** ** The registry lookup [_findBuffer] *)

Lemma erase_length {A : Type} (i : nat) (l : list A) :
  (i < length l)%nat -> length (erase i l) = pred (length l).
Proof.
  intros H. unfold erase.
  rewrite length_app, length_firstn, length_skipn. lia.
Qed.

Lemma erase_middle {A : Type} (l1 l2 : list A) (x : A) :
  erase (length l1) (l1 ++ x :: l2) = l1 ++ l2.
Proof.
  unfold erase.
  rewrite firstn_app, Nat.sub_diag, firstn_all, firstn_O, app_nil_r.
  rewrite skipn_app.
  replace (S (length l1) - length l1)%nat with 1%nat by lia.
  rewrite skipn_all2 by lia. reflexivity.
Qed.

(** The defining equation of [_findBuffer]. *)
Lemma findBuffer_body (l : FrameBuffers) (s e w : Z) :
  _findBuffer l s e w =
  match _findBuffer_scan l (length l) s e with
  | None => (None, l)
  | Some i =>
      match nth_error l i with
      | None => (None, l)
      | Some (p, b) =>
          if differs b s w then _findBuffer (erase i l) s e w else (Some p, l)
      end
  end.
Proof.
  funelim (_findBuffer l s e w);
    try match goal with
        | H : _findBuffer_scan _ _ _ _ = _ |- _ => rewrite H
        end;
    try match goal with H : nth_error _ _ = _ |- _ => rewrite H end;
    reflexivity.
Qed.

Lemma spec_findBuffer_body (l : FrameBuffers) (s e w : Z) :
  spec_findBuffer l s e w =
  match spec_scan l s e with
  | None => (None, l)
  | Some i =>
      match nth_error l i with
      | None => (None, l)
      | Some (p, b) =>
          if differs b s w then spec_findBuffer (erase i l) s e w
          else (Some p, l)
      end
  end.
Proof.
  funelim (spec_findBuffer l s e w);
    try match goal with H : spec_scan _ _ _ = _ |- _ => rewrite H end;
    try match goal with H : nth_error _ _ = _ |- _ => rewrite H end;
    reflexivity.
Qed.

(** What the backward scan finds. *)
Lemma scan_spec (l : FrameBuffers) (s e : Z) (k : nat) :
  (k <= length l)%nat ->
  match _findBuffer_scan l k s e with
  | None =>
      forall i n, (i < k)%nat -> nth_error l i = Some n ->
                  conflicts (snd n) s e = false
  | Some i =>
      (i < k)%nat
      /\ (exists n, nth_error l i = Some n /\ conflicts (snd n) s e = true)
      /\ (forall j n, (i < j < k)%nat -> nth_error l j = Some n ->
                      conflicts (snd n) s e = false)
  end.
Proof.
  induction k as [| k IH]; simpl; intros Hk.
  - intros i n Hi. lia.
  - destruct (nth_error l k) as [[q b] |] eqn:Hnk.
    + destruct (conflicts b s e) eqn:Hc.
      * split; [lia |]. split.
        -- exists (q, b). split; [exact Hnk | exact Hc].
        -- intros j n Hj. lia.
      * specialize (IH ltac:(lia)).
        destruct (_findBuffer_scan l k s e) as [i |].
        -- destruct IH as (Hi & Hn & Hrest). split; [lia |]. split; [exact Hn |].
           intros j n Hj Hnth.
           destruct (Nat.eq_dec j k) as [-> | Hne].
           ++ rewrite Hnk in Hnth. inversion Hnth; subst. exact Hc.
           ++ apply (Hrest j n); [lia | exact Hnth].
        -- intros i n Hi Hnth.
           destruct (Nat.eq_dec i k) as [-> | Hne].
           ++ rewrite Hnk in Hnth. inversion Hnth; subst. exact Hc.
           ++ apply (IH i n); [lia | exact Hnth].
    + apply nth_error_None in Hnk. lia.
Qed.

Lemma scan_no_conflict (l : FrameBuffers) (s e : Z) :
  (forall n, In n l -> conflicts (snd n) s e = false) ->
  _findBuffer_scan l (length l) s e = None.
Proof.
  intros Hno. pose proof (scan_spec l s e (length l) (le_n _)) as H.
  destruct (_findBuffer_scan l (length l) s e) as [i |]; [| reflexivity].
  destruct H as (_ & (n & Hn & Hc) & _).
  apply nth_error_In in Hn. rewrite (Hno n Hn) in Hc. discriminate.
Qed.

Lemma scan_last_conflict (l1 l2 : FrameBuffers) (x : Ptr * FrameBuffer)
  (s e : Z) :
  conflicts (snd x) s e = true ->
  (forall n, In n l2 -> conflicts (snd n) s e = false) ->
  _findBuffer_scan (l1 ++ x :: l2) (length (l1 ++ x :: l2)) s e
  = Some (length l1).
Proof.
  intros Hx Hno.
  pose proof (scan_spec (l1 ++ x :: l2) s e _ (le_n _)) as H.
  assert (Hnx : nth_error (l1 ++ x :: l2) (length l1) = Some x)
    by (rewrite nth_error_app2, Nat.sub_diag by lia; reflexivity).
  assert (Hlen : (length l1 < length (l1 ++ x :: l2))%nat)
    by (rewrite length_app; simpl; lia).
  destruct (_findBuffer_scan (l1 ++ x :: l2) (length (l1 ++ x :: l2)) s e)
    as [i |].
  - destruct H as (Hi & (n & Hn & Hc) & Hrest).
    destruct (Nat.lt_trichotomy i (length l1)) as [Hlt | [Heq | Hgt]].
    + rewrite (Hrest (length l1) x) in Hx by (auto; lia). discriminate.
    + congruence.
    + rewrite nth_error_app2 in Hn by lia.
      destruct (i - length l1)%nat as [| d] eqn:Hd; [lia |].
      simpl in Hn. apply nth_error_In in Hn.
      rewrite (Hno n Hn) in Hc. discriminate.
  - rewrite (H (length l1) x Hlen Hnx) in Hx. discriminate.
Qed.

(** C3, as stated, fails on the direction of the scan.  With a newer entry
    of another width in front of an older entry that matches the query, the
    code meets the older entry first and returns it, leaving the newer one
    in the list; a scan from the most recently created entry erases the
    newer one first. *)
Lemma findBuffer_scan_order_counterexample :
  _findBuffer two_claims 0x100000 0x1003FF 32 = (Some 0%nat, two_claims)
  /\ spec_findBuffer two_claims 0x100000 0x1003FF 32
     = (Some 0%nat, [(0%nat, screen_buffer)])
  /\ _findBuffer two_claims 0x100000 0x1003FF 32
     <> spec_findBuffer two_claims 0x100000 0x1003FF 32.
Proof.
  split; [vm_compute; reflexivity |].
  split; [vm_compute; reflexivity |].
  vm_compute. discriminate.
Qed.

(** C3 (amended): [_findBuffer] is a total function of the list and the
    query; it scans the entries from the back of the list (the least
    recently created entry) to its front.  If no entry conflicts the result
    is none and the list is unchanged.  Otherwise, for the conflicting entry
    nearest to the back: if its start address and width equal the query's
    it is returned, else it is erased and the search starts again on the
    shorter list. *)
Theorem findBuffer_scans_from_back (l : FrameBuffers) (s e w : Z) :
  ((forall n, In n l -> conflicts (snd n) s e = false) ->
   _findBuffer l s e w = (None, l))
  /\ (forall l1 p b l2,
        l = l1 ++ (p, b) :: l2 ->
        conflicts b s e = true ->
        (forall n, In n l2 -> conflicts (snd n) s e = false) ->
        _findBuffer l s e w =
        if differs b s w then _findBuffer (l1 ++ l2) s e w else (Some p, l)).
Proof.
  split.
  - intros Hno. rewrite findBuffer_body, scan_no_conflict by exact Hno.
    reflexivity.
  - intros l1 p b l2 -> Hc Hno.
    rewrite findBuffer_body.
    rewrite (scan_last_conflict l1 l2 (p, b) s e Hc Hno).
    rewrite nth_error_app2, Nat.sub_diag by lia. simpl.
    rewrite erase_middle. reflexivity.
Qed.

(** What [_findBuffer] leaves in the list. *)
Lemma findBuffer_post (l : FrameBuffers) (s e w : Z) :
  match _findBuffer l s e w with
  | (None, l') => forall n, In n l' -> conflicts (snd n) s e = false
  | (Some q, l') =>
      exists l1 c l2,
        l' = l1 ++ (q, c) :: l2
        /\ differs c s w = false /\ conflicts c s e = true
        /\ forall n, In n l2 -> conflicts (snd n) s e = false
  end.
Proof.
  remember (length l) as k eqn:Hk. revert l Hk.
  induction k as [k IH] using lt_wf_ind. intros l Hk.
  rewrite findBuffer_body.
  pose proof (scan_spec l s e (length l) (le_n _)) as Hscan.
  destruct (_findBuffer_scan l (length l) s e) as [i |].
  - destruct Hscan as (Hi & (n & Hn & Hc) & Hrest).
    rewrite Hn. destruct n as [p b]. simpl in Hc.
    destruct (differs b s w) eqn:Hd.
    + apply (IH (length (erase i l))); [| reflexivity].
      rewrite erase_length by exact Hi. lia.
    + destruct (nth_error_split l i Hn) as (l1 & l2 & Hl & Hl1).
      exists l1, b, l2. repeat split; try assumption.
      intros n Hin. destruct (In_nth_error l2 n Hin) as [j Hj].
      apply (Hrest (i + 1 + j)%nat n).
      * assert (Hjl : (j < length l2)%nat)
          by (apply nth_error_Some; congruence).
        rewrite Hl, length_app. simpl. lia.
      * rewrite Hl, nth_error_app2 by lia.
        replace (i + 1 + j - length l1)%nat with (S j) by lia. exact Hj.
  - intros n Hin. destruct (In_nth_error l n Hin) as [j Hj].
    apply (Hscan j n); [| exact Hj].
    apply nth_error_Some. congruence.
Qed.

(** The list that [_findBuffer] leaves is not longer than the list it got:
    every restart has erased one entry. *)
Lemma findBuffer_length (l : FrameBuffers) (s e w : Z) :
  (length (snd (_findBuffer l s e w)) <= length l)%nat.
Proof.
  remember (length l) as k eqn:Hk. revert l Hk.
  induction k as [k IH] using lt_wf_ind. intros l Hk.
  rewrite findBuffer_body.
  destruct (_findBuffer_scan l (length l) s e) as [i |]; [| simpl; lia].
  destruct (nth_error l i) as [[p b] |] eqn:Hn; [| simpl; lia].
  destruct (differs b s w); [| simpl; lia].
  assert (Hi : (i < length l)%nat) by (apply nth_error_Some; congruence).
  pose proof (erase_length i l Hi) as He.
  specialize (IH (length (erase i l)) ltac:(lia) (erase i l) eq_refl). lia.
Qed.


Lemma findBuffer_scans_from_back_witness :
  _findBuffer two_claims 0x100000 0x1003FF 32 = (Some 0%nat, two_claims).
Proof.
  apply (proj2 (findBuffer_scans_from_back two_claims 0x100000 0x1003FF 32)
           [(1%nat, wide_buffer)] 0%nat screen_buffer []).
  - reflexivity.
  - reflexivity.
  - intros n [].
Defined.

(** ** The no-overlap invariant and [saveBuffer] *)





(** A call that does not return at line 531 runs the four steps in turn. *)
Lemma saveBuffer_steps (g : Globals) (h : Host)
  (_address _format _size _width _height : Z) (_cfb : bool) (st : Machine) :
  VI_width g <> 0 -> _height <> 0 ->
  saveBuffer g h _address _format _size _width _height _cfb st =
  saveBuffer_finish g _address
    (saveBuffer_create g _address _format _size _width _height _cfb
       (saveBuffer_lookup g _address _format _size _width
          (saveBuffer_resolveCurrent g (saveBuffer_flushAux g h st)))).
Proof.
  intros Hw Hh. unfold saveBuffer.
  destruct (Z.eqb_spec (VI_width g) 0); [contradiction |].
  destruct (Z.eqb_spec _height 0); [contradiction |].
  reflexivity.
Qed.

(** In the other order the second call finds the first buffer, whose range
    holds the new start address, and removes it. *)
Lemma saveBuffer_evicts_holder :
  map (fun n => (m_startAddress (snd n), m_endAddress (snd n), m_width (snd n)))
      (m_list (frameBufferList
                 (saveBuffer_calls frame7 host_idle [call_lower; call_upper]
                    (Machine_init (fun _ => 0) 16))))
  = [(0x100200, 0x1005FF, 32)].
Proof. vm_compute. reflexivity. Qed.

(** The correction of the bound buffer keeps its start address and width. *)
Lemma copyRdram_keeps_range (g : Globals) (b : FrameBuffer) (m : Memory) :
  let b' := fst (copyRdram g b m) in
  m_startAddress b' = m_startAddress b /\ m_endAddress b' = m_endAddress b
  /\ m_width b' = m_width b.
Proof.
  unfold copyRdram.
  destruct (_cutHeight _ _ _ _ =? 0); [repeat split |].
  destruct (isAuxiliary g b && (config_copyAuxToRDRAM g =? 0));
    repeat split.
Qed.

Lemma correctCurrent_keeps_start_width (g : Globals) (st : Machine)
  (b : FrameBuffer) :
  let b2 := fst (fst (fst (saveBuffer_correctCurrent g st b))) in
  m_startAddress b2 = m_startAddress b /\ m_width b2 = m_width b.
Proof.
  unfold saveBuffer_correctCurrent. cbv zeta.
  set (b1 := if negb (isAuxiliary g b) then _ else _).
  assert (Hb1 : m_startAddress b1 = m_startAddress b /\ m_width b1 = m_width b).
  { subst b1. destruct (negb (isAuxiliary g b)); [split; reflexivity |].
    destruct (m_needHeightCorrection b && _); split; reflexivity. }
  simpl.
  match goal with
  | |- context [if ?c then copyRdram g b1 ?m else _] => destruct c
  end; simpl.
  - destruct (copyRdram_keeps_range g b1 (RDRAM st)) as (Hs & _ & Hw).
    cbv zeta in Hs, Hw. rewrite Hs, Hw. exact Hb1.
  - exact Hb1.
Qed.



(** ** Capture and check: the fingerprint and the snapshot *)

Lemma load8_store8 (m : Memory) (a v x : Z) :
  load8 (store8 m a v) x = if x =? a then v mod 256 else load8 m x.
Proof.
  unfold load8, store8. destruct (x =? a); [| reflexivity].
  apply Z.mod_mod. lia.
Qed.

Lemma bytes_value (v : Z) :
  v mod 256 + 2 ^ 8 * ((v / 2 ^ 8) mod 256) + 2 ^ 16 * ((v / 2 ^ 16) mod 256)
  + 2 ^ 24 * ((v / 2 ^ 24) mod 256) = v mod 2 ^ 32.
Proof.
  change (2 ^ 8) with 256. change (2 ^ 16) with 65536.
  change (2 ^ 24) with 16777216. change (2 ^ 32) with 4294967296.
  Z.div_mod_to_equations. lia.
Qed.

Lemma load32_store32_same (m : Memory) (a v : Z) :
  load32 (store32 m a v) a = U32.wrap v.
Proof.
  unfold load32, store32. rewrite !load8_store8.
  replace (a =? a + 3) with false by (symmetry; apply Z.eqb_neq; lia).
  replace (a =? a + 2) with false by (symmetry; apply Z.eqb_neq; lia).
  replace (a =? a + 1) with false by (symmetry; apply Z.eqb_neq; lia).
  replace (a + 1 =? a + 3) with false by (symmetry; apply Z.eqb_neq; lia).
  replace (a + 1 =? a + 2) with false by (symmetry; apply Z.eqb_neq; lia).
  replace (a + 2 =? a + 3) with false by (symmetry; apply Z.eqb_neq; lia).
  rewrite !Z.eqb_refl. apply bytes_value.
Qed.

Lemma load32_store32_other (m : Memory) (a a' v : Z) :
  a' + 3 < a \/ a + 3 < a' -> load32 (store32 m a v) a' = load32 m a'.
Proof.
  intros H. unfold load32, store32. rewrite !load8_store8.
  repeat match goal with
         | |- context [?x =? ?y] =>
             replace (x =? y) with false by (symmetry; apply Z.eqb_neq; lia)
         end.
  reflexivity.
Qed.

Lemma pData_store_same (m : Memory) (i v : Z) :
  pData (pData_store m i v) i = U32.wrap v.
Proof. apply load32_store32_same. Qed.

Lemma pData_store_other (m : Memory) (i j v : Z) :
  i <> j -> pData (pData_store m i v) j = pData m j.
Proof. intros H. apply load32_store32_other. lia. Qed.

(** The words of guest memory after the stamping loop. *)
Lemma write_fingerprint_spec (fp : Z -> Z) (n : nat) :
  forall (m : Memory) (start i j : Z),
    0 <= start -> start + Z.of_nat n < U32.modulus ->
    pData (write_fingerprint fp m start i n) j =
    if (start <=? j) && (j <? start + Z.of_nat n)
    then U32.wrap (if i + (j - start) <? 4 then fp (i + (j - start)) else 0)
    else pData m j.
Proof.
  induction n as [| n IH]; intros m start i j Hs Hn.
  - simpl. replace ((start <=? j) && (j <? start + 0)) with false; [reflexivity |].
    symmetry. apply andb_false_iff.
    destruct (Z.leb_spec start j); [right; apply Z.ltb_ge | left; reflexivity]. lia.
  - cbn [write_fingerprint].
    assert (Hadd : U32.add start 1 = start + 1).
    { unfold U32.add. apply Z.mod_small. unfold U32.modulus in *. lia. }
    rewrite Hadd, IH by lia.
    destruct (Z.leb_spec (start + 1) j) as [H1 | H1];
      destruct (Z.ltb_spec j (start + 1 + Z.of_nat n)) as [H2 | H2];
      destruct (Z.leb_spec start j) as [H3 | H3];
      destruct (Z.ltb_spec j (start + Z.of_nat (S n))) as [H4 | H4];
      try lia; cbn [andb].
    all: try (rewrite pData_store_other by lia; reflexivity).
    + replace (i + 1 + (j - (start + 1))) with (i + (j - start)) by lia.
      reflexivity.
    + assert (j = start) by lia. subst j.
      rewrite pData_store_same. replace (i + (start - start)) with i by lia.
      reflexivity.
Qed.

Lemma check_fingerprint_spec (fp : Z -> Z) (m : Memory) (n : nat) :
  forall start i : Z,
    0 <= start -> start + Z.of_nat n < U32.modulus ->
    (check_fingerprint fp m start i n = true <->
     forall k, 0 <= k < Z.of_nat n ->
               Z.land (pData m (start + k)) validity_mask
               = Z.land (fp (i + k)) validity_mask).
Proof.
  induction n as [| n IH]; intros start i Hs Hn.
  - simpl. split; [intros _ k Hk; lia | reflexivity].
  - cbn [check_fingerprint].
    assert (Hadd : U32.add start 1 = start + 1).
    { unfold U32.add. apply Z.mod_small. unfold U32.modulus in *. lia. }
    rewrite Hadd.
    destruct (Z.eqb_spec (Z.land (pData m start) validity_mask)
                         (Z.land (fp i) validity_mask)) as [E | E]; cbn [negb].
    + rewrite IH by lia. split.
      * intros H k Hk. destruct (Z.eq_dec k 0) as [-> | Hk0].
        -- rewrite !Z.add_0_r. exact E.
        -- specialize (H (k - 1) ltac:(lia)).
           replace (start + 1 + (k - 1)) with (start + k) in H by lia.
           replace (i + 1 + (k - 1)) with (i + k) in H by lia. exact H.
      * intros H k Hk. specialize (H (k + 1) ltac:(lia)).
        replace (start + (k + 1)) with (start + 1 + k) in H by lia.
        replace (i + (k + 1)) with (i + 1 + k) in H by lia. exact H.
    + split; [discriminate |].
      intros H. exfalso. apply E. specialize (H 0 ltac:(lia)).
      rewrite !Z.add_0_r in H. exact H.
Qed.

Lemma shr2_range (a : Z) :
  U32.in_range a -> 0 <= U32.shr a 2 < 2 ^ 30.
Proof.
  unfold U32.in_range, U32.modulus, U32.shr. intros H.
  rewrite Z.shiftr_div_pow2 by lia.
  change (2 ^ 2) with 4. change (2 ^ 32) with 4294967296 in H.
  change (2 ^ 30) with 1073741824.
  Z.div_mod_to_equations. lia.
Qed.

(** [copyRdram] on an auxiliary buffer of at least 800 bytes that the
    policy does not flush: the stamping loop runs at least four times. *)
Lemma copyRdram_aux (g : Globals) (b : FrameBuffer) (m : Memory) :
  isAuxiliary g b = true -> config_copyAuxToRDRAM g = 0 ->
  let stride := U32.shr (U32.shl (m_width b) (m_size b)) 1 in
  let height :=
    _cutHeight (RDRAMSize g) (m_startAddress b) (m_height b) stride in
  800 <= U32.mul stride height ->
  copyRdram g b m =
  (set_fingerprinted b,
   write_fingerprint (fingerprint g) m (U32.shr (m_startAddress b) 2) 0
     (Z.to_nat (U32.div (U32.mul stride height) 200)))
  /\ 4 <= U32.div (U32.mul stride height) 200 < 2 ^ 25.
Proof.
  intros Haux Hcfg stride height Hsize.
  assert (Hh : height <> 0).
  { intros E. rewrite E in Hsize. unfold U32.mul, U32.wrap in Hsize.
    rewrite Z.mul_0_r, Z.mod_0_l in Hsize by (unfold U32.modulus; lia). lia. }
  split.
  - unfold copyRdram. fold stride. fold height.
    destruct (Z.eqb_spec height 0) as [E | _]; [contradiction |].
    rewrite Haux, Hcfg. reflexivity.
  - assert (Hds : 0 <= U32.mul stride height < U32.modulus)
      by (apply Z.mod_pos_bound; unfold U32.modulus; lia).
    unfold U32.div. unfold U32.modulus in Hds.
    change (2 ^ 32) with 4294967296 in Hds. change (2 ^ 25) with 33554432.
    Z.div_mod_to_equations. lia.
Qed.

(** The first four words after a stamping loop of at least four rounds. *)
Lemma stamped_words (fp : Z -> Z) (m : Memory) (start n i : Z) :
  0 <= start < 2 ^ 30 -> 4 <= n < 2 ^ 25 -> 0 <= i < 4 ->
  U32.in_range (fp i) ->
  pData (write_fingerprint fp m start 0 (Z.to_nat n)) (start + i) = fp i.
Proof.
  intros Hs Hn Hi Hfp.
  change (2 ^ 30) with 1073741824 in Hs. change (2 ^ 25) with 33554432 in Hn.
  rewrite write_fingerprint_spec.
  - replace ((start <=? start + i)
             && (start + i <? start + Z.of_nat (Z.to_nat n))) with true.
    + replace (0 + (start + i - start)) with i by lia.
      replace (i <? 4) with true by (symmetry; apply Z.ltb_lt; lia).
      apply wrap_small. exact Hfp.
    + symmetry. apply andb_true_iff. split.
      * apply Z.leb_le. lia.
      * apply Z.ltb_lt. rewrite Z2Nat.id by lia. lia.
  - lia.
  - rewrite Z2Nat.id by lia. unfold U32.modulus.
    change (2 ^ 32) with 4294967296. lia.
Qed.

(** What the check of a fingerprinted buffer reads, when it was not
    already made in this frame. *)
Lemma isValid_fingerprinted (g : Globals) (m : Memory) (b : FrameBuffer) :
  m_validityChecked b <> buffersSwapCount g ->
  U32.in_range (m_startAddress b) ->
  (isValid g m (set_fingerprinted b) = true <->
   forall i, 0 <= i < 4 ->
             Z.land (pData m (U32.shr (m_startAddress b) 2 + i)) validity_mask
             = Z.land (fingerprint g i) validity_mask).
Proof.
  intros Hnc Hstart.
  pose proof (shr2_range (m_startAddress b) Hstart) as Hs30.
  change (2 ^ 30) with 1073741824 in Hs30.
  unfold isValid, set_fingerprinted.
  cbn [m_validityChecked m_cleared m_fingerprint m_startAddress].
  destruct (Z.eqb_spec (m_validityChecked b) (buffersSwapCount g));
    [contradiction |].
  rewrite (check_fingerprint_spec (fingerprint g) m 4
             (U32.shr (m_startAddress b) 2) 0).
  - cbn [Z.of_nat Pos.of_succ_nat Pos.succ]. split; intros H i Hi.
    + specialize (H i Hi). cbn [Z.add] in H. exact H.
    + cbn [Z.add]. apply H. exact Hi.
  - lia.
  - unfold U32.modulus. change (Z.of_nat 4) with 4.
    change (2 ^ 32) with 4294967296. lia.
Qed.

(** C6, as stated, fails: for an auxiliary buffer that starts past the end
    of guest memory the clipped height is 0 and [copyRdram] returns before
    it writes anything; the buffer is not marked as fingerprinted. *)
Lemma copyRdram_fingerprint_counterexample :
  isAuxiliary frame7 beyond_buffer = true
  /\ config_copyAuxToRDRAM frame7 = 0
  /\ m_fingerprint (fst (copyRdram frame7 beyond_buffer (fun _ => 0))) = false
  /\ pData (snd (copyRdram frame7 beyond_buffer (fun _ => 0)))
           (U32.shr (m_startAddress beyond_buffer) 2)
     <> fingerprint frame7 0.
Proof.
  repeat split; try reflexivity. vm_compute. discriminate.
Qed.

(** C6 (amended): for an auxiliary buffer that the policy does not flush
    and whose clipped data size (stride times clipped height) is at least
    800 bytes, [copyRdram] marks the buffer as fingerprinted and not
    cleared and writes the four words of the fingerprint at the word index
    [m_startAddress >> 2]; for the buffer so marked, a validity check that
    was not already made in this frame returns true if and only if the four
    words at that index, with the low bit of each 16-bit half masked, equal
    the masked words of the fingerprint. *)
Theorem copyRdram_fingerprint (g : Globals) (b : FrameBuffer) (m : Memory) :
  isAuxiliary g b = true -> config_copyAuxToRDRAM g = 0 ->
  U32.in_range (m_startAddress b) ->
  (forall i, 0 <= i < 4 -> U32.in_range (fingerprint g i)) ->
  let stride := U32.shr (U32.shl (m_width b) (m_size b)) 1 in
  let height :=
    _cutHeight (RDRAMSize g) (m_startAddress b) (m_height b) stride in
  800 <= U32.mul stride height ->
  let b' := fst (copyRdram g b m) in
  let m' := snd (copyRdram g b m) in
  let start := U32.shr (m_startAddress b) 2 in
  (m_fingerprint b' = true /\ m_cleared b' = false)
  /\ (forall i, 0 <= i < 4 -> pData m' (start + i) = fingerprint g i)
  /\ (forall m2, m_validityChecked b <> buffersSwapCount g ->
        (isValid g m2 b' = true <->
         forall i, 0 <= i < 4 ->
                   Z.land (pData m2 (start + i)) validity_mask
                   = Z.land (fingerprint g i) validity_mask)).
Proof.
  intros Haux Hcfg Hstart Hfp stride height Hsize b' m' start.
  destruct (copyRdram_aux g b m Haux Hcfg Hsize) as [Hcopy Hrounds].
  fold stride in Hcopy, Hrounds. fold height in Hcopy, Hrounds.
  subst b' m'. rewrite Hcopy. cbn [fst snd].
  split; [split; reflexivity |]. split.
  - intros i Hi. apply stamped_words.
    + apply shr2_range. exact Hstart.
    + exact Hrounds.
    + exact Hi.
    + apply Hfp. exact Hi.
  - intros m2 Hnc. apply isValid_fingerprinted; assumption.
Qed.

Lemma copyRdram_fingerprint_witness :
  pData (snd (copyRdram frame7 aux_buffer (fun _ => 0)))
        (U32.shr (m_startAddress aux_buffer) 2 + 3)
  = fingerprint frame7 3.
Proof.
  assert (H1 : isAuxiliary frame7 aux_buffer = true) by reflexivity.
  assert (H2 : config_copyAuxToRDRAM frame7 = 0) by reflexivity.
  assert (H3 : U32.in_range (m_startAddress aux_buffer))
    by (vm_compute; split; [discriminate | reflexivity]).
  assert (H4 : forall i, 0 <= i < 4 -> U32.in_range (fingerprint frame7 i)).
  { intros i Hi. assert (Hc : i = 0 \/ i = 1 \/ i = 2 \/ i = 3) by lia.
    destruct Hc as [-> | [-> | [-> | ->]]]; vm_compute;
      (split; [discriminate | reflexivity]). }
  assert (H5 : 800 <= U32.mul
                        (U32.shr (U32.shl (m_width aux_buffer)
                                          (m_size aux_buffer)) 1)
                        (_cutHeight (RDRAMSize frame7)
                           (m_startAddress aux_buffer) (m_height aux_buffer)
                           (U32.shr (U32.shl (m_width aux_buffer)
                                             (m_size aux_buffer)) 1)))
    by (vm_compute; discriminate).
  destruct (copyRdram_fingerprint frame7 aux_buffer (fun _ => 0)
              H1 H2 H3 H4 H5) as (_ & Hwords & _).
  apply Hwords. lia.
Defined.

Lemma byte_at_read_bytes (m : Memory) (n : nat) :
  forall a k, 0 <= k < Z.of_nat n ->
              byte_at (read_bytes m a n) k = load8 m (a + k).
Proof.
  induction n as [| n IH]; intros a k Hk; [lia |].
  unfold byte_at. cbn [read_bytes].
  destruct (Z.eq_dec k 0) as [-> | Hk0].
  - rewrite Z.add_0_r. reflexivity.
  - replace (Z.to_nat k) with (S (Z.to_nat (k - 1))) by lia.
    cbn [nth]. fold (byte_at (read_bytes m (a + 1) n) (k - 1)).
    rewrite IH by lia. f_equal. lia.
Qed.

Lemma pCopy_read_bytes (m : Memory) (n : nat) (a i : Z) :
  0 <= i -> 4 * i + 3 < Z.of_nat n ->
  pCopy (read_bytes m a n) i = load32 m (a + 4 * i).
Proof.
  intros Hi Hn. unfold pCopy, load32.
  rewrite !byte_at_read_bytes by lia.
  rewrite !Z.add_assoc. reflexivity.
Qed.

Lemma length_read_bytes (m : Memory) (n : nat) (a : Z) :
  length (read_bytes m a n) = n.
Proof. revert a. induction n; intros a; simpl; [| rewrite IHn]; reflexivity. Qed.

(** The counting loop finds no wrong word in a copy just taken at a start
    address that is a multiple of 4. *)
Lemma count_wrong_copy_fresh (m : Memory) (size : nat) (a : Z) (k : nat) :
  forall i acc,
    0 <= a -> a mod 4 = 0 -> 0 <= i ->
    4 * (i + Z.of_nat k) <= Z.of_nat size ->
    a / 4 + i + Z.of_nat k < U32.modulus ->
    count_wrong_copy m (read_bytes m a size) (a / 4 + i) i k acc = acc.
Proof.
  induction k as [| k IH]; intros i acc Ha Hal Hi Hsz Hw; [reflexivity |].
  cbn [count_wrong_copy].
  assert (Hadd : U32.add (a / 4 + i) 1 = a / 4 + (i + 1)).
  { unfold U32.add. rewrite Z.add_assoc. apply Z.mod_small.
    assert (0 <= a / 4) by (apply Z.div_pos; lia). lia. }
  rewrite Hadd.
  rewrite pCopy_read_bytes by lia.
  unfold pData.
  replace (4 * (a / 4 + i)) with (a + 4 * i)
    by (rewrite (Z.div_mod a 4) at 1 by lia; lia).
  rewrite Z.eqb_refl. cbn [negb].
  apply IH; try assumption; lia.
Qed.

(** C4 fails on small buffers.  A snapshot of 256 bytes: no word differs,
    but the threshold [size / 400] is 0 and [0 < 0] is false.  A fingerprint
    on a buffer of 512 bytes: [twoPercent] is 2, so only two of the four
    words are stamped, and the check reads four. *)
Theorem self_validity_fails_on_small_buffers :
  (let r := copyRdram frame7_flushing small_buffer (fun _ => 0) in
   length (m_RdramCopy (fst r)) = 256%nat
   /\ count_wrong_copy (snd r) (m_RdramCopy (fst r))
        (U32.shr (m_startAddress (fst r)) 2) 0 64 0 = 0
   /\ isValid frame7_flushing (snd r) (fst r) = false)
  /\ (let r := copyRdram frame7 small_aux_buffer (fun _ => 0) in
      m_fingerprint (fst r) = true
      /\ isValid frame7 (snd r) (fst r) = false).
Proof.
  split; cbv zeta; repeat split; vm_compute; reflexivity.
Qed.

(** X15: take a buffer that is neither marked cleared ([m_cleared] is
    false) nor carries a fingerprint ([m_fingerprint] is false), whose
    start address fits 32 bits and is a multiple of 4, and whose data size
    after clipping, [stride * height], is at least 400 bytes.  When
    [copyRdram] takes its snapshot path for it (the buffer is not
    auxiliary, or the policy flushes auxiliary buffers), [isValid] on the
    buffer and the memory that [copyRdram] leaves answers true.  The two
    flags matter: [copyRdram] leaves them as they are, and [isValid] tests
    them before it looks at the snapshot. *)
Lemma snapshot_self_valid (g : Globals) (b : FrameBuffer) (m : Memory) :
  isAuxiliary g b && (config_copyAuxToRDRAM g =? 0) = false ->
  m_cleared b = false -> m_fingerprint b = false ->
  U32.in_range (m_startAddress b) -> m_startAddress b mod 4 = 0 ->
  let stride := U32.shr (U32.shl (m_width b) (m_size b)) 1 in
  let height :=
    _cutHeight (RDRAMSize g) (m_startAddress b) (m_height b) stride in
  400 <= U32.mul stride height ->
  isValid g (snd (copyRdram g b m)) (fst (copyRdram g b m)) = true.
Proof.
  intros Hpath Hc Hf Hstart Hal stride height Hsize.
  assert (Hh : height <> 0).
  { intros E. rewrite E in Hsize. unfold U32.mul, U32.wrap in Hsize.
    rewrite Z.mul_0_r, Z.mod_0_l in Hsize by (unfold U32.modulus; lia). lia. }
  assert (Hds : 0 <= U32.mul stride height < U32.modulus)
    by (apply Z.mod_pos_bound; unfold U32.modulus; lia).
  set (n := Z.to_nat (U32.mul stride height)).
  assert (Hcopy : copyRdram g b m =
                  (set_RdramCopy (read_bytes m (m_startAddress b) n) b, m)).
  { unfold copyRdram. fold stride. fold height.
    destruct (Z.eqb_spec height 0) as [E | _]; [contradiction |].
    rewrite Hpath. reflexivity. }
  rewrite Hcopy. cbn [fst snd].
  unfold isValid, set_RdramCopy.
  cbn [m_validityChecked m_cleared m_fingerprint m_startAddress m_RdramCopy].
  destruct (m_validityChecked b =? buffersSwapCount g); [reflexivity |].
  rewrite Hc, Hf, length_read_bytes.
  assert (Hn : Z.of_nat n = U32.mul stride height) by (subst n; lia).
  assert (Hne : empty (read_bytes m (m_startAddress b) n) = false).
  { destruct n as [| n']; [lia | reflexivity]. }
  rewrite Hne. cbn [negb].
  rewrite Hn, (wrap_small (U32.mul stride height)) by exact Hds.
  unfold U32.shr. rewrite !Z.shiftr_div_pow2 by lia. change (2 ^ 2) with 4.
  pose proof (count_wrong_copy_fresh m n (m_startAddress b)
                (Z.to_nat (U32.mul stride height / 4)) 0 0) as Hcount.
  rewrite Z.add_0_r in Hcount. rewrite Hcount.
  - apply Z.ltb_lt. unfold U32.div. apply Z.div_str_pos. lia.
  - unfold U32.in_range in Hstart. lia.
  - exact Hal.
  - lia.
  - rewrite Z2Nat.id by (apply Z.div_pos; lia). rewrite Hn.
    pose proof (Z.mul_div_le (U32.mul stride height) 4). lia.
  - rewrite Z2Nat.id by (apply Z.div_pos; lia).
    unfold U32.in_range, U32.modulus in *.
    change (2 ^ 32) with 4294967296 in *.
    Z.div_mod_to_equations. lia.
Qed.

(** X16: a fingerprint on at least 800 bytes is valid right after the
    capture: [isValid] on the buffer and memory that [copyRdram] leaves
    answers true. *)
Lemma fingerprint_self_valid (g : Globals) (b : FrameBuffer) (m : Memory) :
  isAuxiliary g b = true -> config_copyAuxToRDRAM g = 0 ->
  U32.in_range (m_startAddress b) ->
  (forall i, 0 <= i < 4 -> U32.in_range (fingerprint g i)) ->
  800 <= U32.mul (U32.shr (U32.shl (m_width b) (m_size b)) 1)
           (_cutHeight (RDRAMSize g) (m_startAddress b) (m_height b)
              (U32.shr (U32.shl (m_width b) (m_size b)) 1)) ->
  isValid g (snd (copyRdram g b m)) (fst (copyRdram g b m)) = true.
Proof.
  intros Haux Hcfg Hstart Hfp Hsize.
  destruct (copyRdram_aux g b m Haux Hcfg Hsize) as [Hcopy Hrounds].
  rewrite Hcopy. cbn [fst snd].
  destruct (Z.eq_dec (m_validityChecked b) (buffersSwapCount g)) as [E | E].
  - unfold isValid, set_fingerprinted. cbn [m_validityChecked].
    rewrite E, Z.eqb_refl. reflexivity.
  - apply isValid_fingerprinted; [exact E | exact Hstart |].
    intros i Hi. rewrite stamped_words.
    + reflexivity.
    + apply shr2_range. exact Hstart.
    + exact Hrounds.
    + exact Hi.
    + apply Hfp. exact Hi.
Qed.

(** * Part III: the depth conversion, the rest of the registry, the pixel
    formats and the engines *)

(** ** The depth conversion [_FloatToUInt16] *)

(** C8, as stated, fails: the index is computed in single precision, and
    the sum with [0.5f] is rounded.  For the sample [(2^24 - 1) * 2^-43],
    which is less than 1, the product with 262144 is [0.5 - 2^-25], the
    sum with 0.5 is rounded to 1, and the code takes the table entry of
    index 1; the index that the claim gives, computed exactly, is 0. *)
Lemma FloatToUInt16_counterexample :
  valid_binary b32_prec b32_emax below_half_step = true
  /\ b32_lt below_half_step b32_one = true
  /\ _FloatToUInt16 (fun i => i) below_half_step = Some 1
  /\ spec_depth_index below_half_step = Some 0.
Proof. repeat split; vm_compute; reflexivity. Qed.

(** *** Shifts and rounding of [SpecFloat] in terms of [Z] *)

Lemma digits2_pos_bounds (p : positive) :
  2 ^ (Z.pos (digits2_pos p) - 1) <= Z.pos p < 2 ^ Z.pos (digits2_pos p).
Proof.
  induction p as [p IH | p IH |]; cbn [digits2_pos].
  - rewrite Pos2Z.inj_succ.
    replace (Z.succ (Z.pos (digits2_pos p)) - 1)
      with (Z.succ (Z.pos (digits2_pos p) - 1)) by lia.
    rewrite !Z.pow_succ_r by lia. lia.
  - rewrite Pos2Z.inj_succ.
    replace (Z.succ (Z.pos (digits2_pos p)) - 1)
      with (Z.succ (Z.pos (digits2_pos p) - 1)) by lia.
    rewrite !Z.pow_succ_r by lia. lia.
  - cbn. lia.
Qed.

Lemma digits2_pos_eq (p : positive) (d : Z) :
  2 ^ (d - 1) <= Z.pos p < 2 ^ d -> Z.pos (digits2_pos p) = d.
Proof.
  intros [Hlo Hhi]. pose proof (digits2_pos_bounds p) as [Blo Bhi].
  set (d' := Z.pos (digits2_pos p)) in *.
  assert (Hd' : 0 < d') by (subst d'; lia).
  destruct (Z.lt_trichotomy d' d) as [Hlt | [Heq | Hgt]]; [| exact Heq |].
  - assert (2 ^ d' <= 2 ^ (d - 1)) by (apply Z.pow_le_mono_r; lia). lia.
  - assert (0 <= d \/ d < 0) as [Hd | Hd] by lia.
    + assert (2 ^ d <= 2 ^ (d' - 1)) by (apply Z.pow_le_mono_r; lia). lia.
    + rewrite (Z.pow_neg_r 2 d Hd) in Hhi. lia.
Qed.

Lemma iter_pos_nat {A : Type} (f : A -> A) (n : positive) (x : A) :
  iter_pos f n x = Nat.iter (Pos.to_nat n) f x.
Proof.
  revert x. induction n as [n IH | n IH |]; intros x; cbn [iter_pos].
  - rewrite !IH, Pos2Nat.inj_xI.
    replace (S (2 * Pos.to_nat n))%nat with (Pos.to_nat n + S (Pos.to_nat n))%nat by lia.
    rewrite Nat.iter_add, Nat.iter_succ_r. reflexivity.
  - rewrite !IH, Pos2Nat.inj_xO.
    replace (2 * Pos.to_nat n)%nat with (Pos.to_nat n + Pos.to_nat n)%nat by lia.
    rewrite Nat.iter_add. reflexivity.
  - reflexivity.
Qed.

Lemma shr_1_nonneg (m : Z) (r s : bool) :
  0 <= m ->
  shr_1 {| shr_m := m; shr_r := r; shr_s := s |}
  = {| shr_m := m / 2; shr_r := Z.odd m; shr_s := r || s |}.
Proof.
  intros Hm. rewrite <- Z.div2_div.
  destruct m as [| p | p]; [reflexivity | | lia].
  destruct p; reflexivity.
Qed.

Lemma shr_iter (m : Z) (n : nat) :
  0 <= m ->
  Nat.iter (S n) shr_1 {| shr_m := m; shr_r := false; shr_s := false |}
  = {| shr_m := m / 2 ^ Z.of_nat (S n);
       shr_r := Z.odd (m / 2 ^ Z.of_nat n);
       shr_s := negb (m mod 2 ^ Z.of_nat n =? 0) |}.
Proof.
  intros Hm. induction n as [| n IH].
  - cbn [Nat.iter]. rewrite shr_1_nonneg by exact Hm.
    change (2 ^ Z.of_nat 1) with 2. change (2 ^ Z.of_nat 0) with 1.
    rewrite Z.div_1_r, Z.mod_1_r. reflexivity.
  - change (Nat.iter (S (S n)) shr_1 ?x) with (shr_1 (Nat.iter (S n) shr_1 x)).
    rewrite IH.
    assert (Hp : 0 < 2 ^ Z.of_nat n) by (apply Z.pow_pos_nonneg; lia).
    assert (Hp' : 0 < 2 ^ Z.of_nat (S n)) by (apply Z.pow_pos_nonneg; lia).
    assert (E2 : 2 ^ Z.of_nat (S n) = 2 ^ Z.of_nat n * 2).
    { rewrite Nat2Z.inj_succ, Z.pow_succ_r by lia. lia. }
    assert (E3 : 2 ^ Z.of_nat (S (S n)) = 2 ^ Z.of_nat (S n) * 2).
    { rewrite (Nat2Z.inj_succ (S n)), Z.pow_succ_r by lia. lia. }
    rewrite shr_1_nonneg by (apply Z.div_pos; lia).
    rewrite Z.div_div by lia. rewrite <- E3.
    f_equal.
    rewrite E2, Z.rem_mul_r by lia.
    pose proof (Z.mod_pos_bound m (2 ^ Z.of_nat n) Hp) as Hr.
    rewrite (Zmod_odd (m / 2 ^ Z.of_nat n)).
    destruct (Z.odd (m / 2 ^ Z.of_nat n)); cbn [orb].
    + symmetry. apply negb_true_iff, Z.eqb_neq. lia.
    + rewrite Z.mul_0_r, Z.add_0_r. reflexivity.
Qed.

Lemma round_shift (M : Z) (n : positive) :
  0 <= M ->
  let mrs := iter_pos shr_1 n
               {| shr_m := M; shr_r := false; shr_s := false |} in
  round_nearest_even (shr_m mrs) (loc_of_shr_record mrs)
  = shifted_rne M (Z.pos n).
Proof.
  intros HM mrs. subst mrs. rewrite iter_pos_nat.
  destruct (Pos2Nat.is_succ n) as [k Hk]. rewrite Hk, shr_iter by exact HM.
  assert (En : Z.pos n = Z.of_nat (S k)) by lia.
  rewrite En.
  assert (Hp : 0 < 2 ^ Z.of_nat k) by (apply Z.pow_pos_nonneg; lia).
  assert (E2 : 2 ^ Z.of_nat (S k) = 2 ^ Z.of_nat k * 2).
  { rewrite Nat2Z.inj_succ, Z.pow_succ_r by lia. lia. }
  unfold shifted_rne. cbv zeta.
  pose proof (Z.mod_pos_bound M (2 ^ Z.of_nat k) Hp) as Hr.
  assert (Hmod : M mod 2 ^ Z.of_nat (S k)
                 = M mod 2 ^ Z.of_nat k
                   + 2 ^ Z.of_nat k * ((M / 2 ^ Z.of_nat k) mod 2)).
  { rewrite E2. apply Z.rem_mul_r; lia. }
  rewrite Hmod, (Zmod_odd (M / 2 ^ Z.of_nat k)), E2.
  cbn [shr_m loc_of_shr_record shr_r shr_s].
  destruct (Z.odd (M / 2 ^ Z.of_nat k));
    destruct (Z.eqb_spec (M mod 2 ^ Z.of_nat k) 0) as [E0 | E0];
    cbn [negb round_nearest_even].
  - rewrite E0.
    destruct (Z.ltb_spec (2 * (0 + 2 ^ Z.of_nat k * 1)) (2 ^ Z.of_nat k * 2));
      [lia |].
    destruct (Z.eqb_spec (2 * (0 + 2 ^ Z.of_nat k * 1)) (2 ^ Z.of_nat k * 2));
      [reflexivity | lia].
  - destruct (Z.ltb_spec (2 * (M mod 2 ^ Z.of_nat k + 2 ^ Z.of_nat k * 1))
                (2 ^ Z.of_nat k * 2)); [lia |].
    destruct (Z.eqb_spec (2 * (M mod 2 ^ Z.of_nat k + 2 ^ Z.of_nat k * 1))
                (2 ^ Z.of_nat k * 2)); [lia | reflexivity].
  - rewrite E0.
    destruct (Z.ltb_spec (2 * (0 + 2 ^ Z.of_nat k * 0)) (2 ^ Z.of_nat k * 2));
      [reflexivity | lia].
  - destruct (Z.ltb_spec (2 * (M mod 2 ^ Z.of_nat k + 2 ^ Z.of_nat k * 0))
                (2 ^ Z.of_nat k * 2)); [reflexivity | lia].
Qed.

Lemma shifted_rne_exact (M n : Z) :
  0 <= n -> M mod 2 ^ n = 0 -> shifted_rne M n = M / 2 ^ n.
Proof.
  intros Hn H. unfold shifted_rne. cbv zeta. rewrite H.
  assert (0 < 2 ^ n) by (apply Z.pow_pos_nonneg; lia).
  destruct (Z.ltb_spec (2 * 0) (2 ^ n)); [reflexivity | lia].
Qed.

Lemma shifted_rne_bounds (M n : Z) :
  M / 2 ^ n <= shifted_rne M n <= M / 2 ^ n + 1.
Proof.
  unfold shifted_rne. cbv zeta.
  destruct (_ <? _); [lia |].
  destruct (_ =? _); [destruct (Z.even _); lia | lia].
Qed.

Lemma iter_xO_value (x n : positive) :
  Z.pos (Pos.iter xO x n) = Z.pos x * 2 ^ Z.pos n.
Proof.
  induction n as [| n IH] using Pos.peano_ind.
  - cbn [Pos.iter]. change (2 ^ 1) with 2. lia.
  - rewrite Pos.iter_succ, Pos2Z.inj_succ, Z.pow_succ_r by lia.
    change (Z.pos (Pos.iter xO x n)~0) with (2 * Z.pos (Pos.iter xO x n)).
    rewrite IH. lia.
Qed.

(** The definitions of [SpecFloat] at precision 24 and maximal exponent
    128, with the operations of [Z]. *)
Lemma fexp_b32 (x : Z) : fexp 24 128 x = Z.max (x - 24) (-149).
Proof. reflexivity. Qed.

Lemma shr_unfold (mrs : shr_record) (e n : Z) :
  shr mrs e n
  = match n with
    | Z.pos p => (iter_pos shr_1 p mrs, e + n)
    | _ => (mrs, e)
    end.
Proof. reflexivity. Qed.

Lemma shr_fexp_unfold (m e : Z) (l : location) :
  shr_fexp 24 128 m e l
  = shr (shr_record_of_loc m l) e (fexp 24 128 (Zdigits2 m + e) - e).
Proof. reflexivity. Qed.

Lemma binary_round_aux_unfold (sx : bool) (mx ex : Z) (lx : location) :
  binary_round_aux 24 128 sx mx ex lx
  = let '(mrs', e') := shr_fexp 24 128 mx ex lx in
    let '(mrs'', e'') :=
      shr_fexp 24 128
        (round_nearest_even (shr_m mrs') (loc_of_shr_record mrs')) e'
        loc_Exact in
    match shr_m mrs'' with
    | 0 => S754_zero sx
    | Z.pos m =>
        if e'' <=? 104 then S754_finite sx m e'' else S754_infinity sx
    | Z.neg _ => S754_nan
    end.
Proof. reflexivity. Qed.

Lemma shl_align_unfold (mx : positive) (ex ex' : Z) :
  shl_align mx ex ex'
  = match ex' - ex with
    | Z.neg d => (Pos.iter xO mx d, ex')
    | _ => (mx, ex)
    end.
Proof. reflexivity. Qed.

Lemma binary_normalize_pos (m : positive) (e : Z) :
  binary_normalize 24 128 (Z.pos m) e false
  = let '(mz, ez) :=
      shl_align m e (fexp 24 128 (Z.pos (digits2_pos m) + e)) in
    binary_round_aux 24 128 false (Z.pos mz) ez loc_Exact.
Proof. reflexivity. Qed.

Lemma SFmul_finite (sx sy : bool) (mx my : positive) (ex ey : Z) :
  SFmul 24 128 (S754_finite sx mx ex) (S754_finite sy my ey)
  = binary_round_aux 24 128 (xorb sx sy) (Z.pos (mx * my)) (ex + ey)
      loc_Exact.
Proof. reflexivity. Qed.

Lemma SFadd_finite_pos (mx my : positive) (ex ey : Z) :
  SFadd 24 128 (S754_finite false mx ex) (S754_finite false my ey)
  = binary_normalize 24 128
      (Z.pos (fst (shl_align mx ex (Z.min ex ey))
              + fst (shl_align my ey (Z.min ex ey))))
      (Z.min ex ey) false.
Proof. reflexivity. Qed.

Lemma shl_align_same (m : positive) (e : Z) : shl_align m e e = (m, e).
Proof. rewrite shl_align_unfold, Z.sub_diag. reflexivity. Qed.

Lemma shl_align_down (m : positive) (e e' : Z) (t : positive) :
  e - e' = Z.pos t -> shl_align m e e' = (Pos.iter xO m t, e').
Proof.
  intros H. rewrite shl_align_unfold.
  replace (e' - e) with (Z.neg t) by lia. reflexivity.
Qed.

Lemma shl_align_up (m : positive) (e e' : Z) :
  e <= e' -> shl_align m e e' = (m, e).
Proof.
  intros H. rewrite shl_align_unfold.
  destruct (e' - e) as [| p | p] eqn:E; [reflexivity | reflexivity | lia].
Qed.

Lemma binary_round_aux_shift (M R : positive) (E : Z) (n : positive) :
  fexp 24 128 (Z.pos (digits2_pos M) + E) - E = Z.pos n ->
  shifted_rne (Z.pos M) (Z.pos n) = Z.pos R ->
  fexp 24 128 (Z.pos (digits2_pos R) + (E + Z.pos n)) - (E + Z.pos n) = 0 ->
  E + Z.pos n <= 104 ->
  binary_round_aux 24 128 false (Z.pos M) E loc_Exact
  = S754_finite false R (E + Z.pos n).
Proof.
  intros Hn HR Hc Hmax. rewrite binary_round_aux_unfold.
  rewrite (shr_fexp_unfold (Z.pos M)). cbn [Zdigits2 shr_record_of_loc].
  rewrite Hn, shr_unfold.
  rewrite (round_shift (Z.pos M) n) by lia. rewrite HR.
  rewrite shr_fexp_unfold. cbn [Zdigits2 shr_record_of_loc]. rewrite Hc.
  rewrite shr_unfold. cbn [shr_m].
  destruct (Z.leb_spec (E + Z.pos n) 104); [reflexivity | lia].
Qed.

Lemma binary_normalize_shift (M R : positive) (E : Z) (n : positive) :
  fexp 24 128 (Z.pos (digits2_pos M) + E) - E = Z.pos n ->
  shifted_rne (Z.pos M) (Z.pos n) = Z.pos R ->
  fexp 24 128 (Z.pos (digits2_pos R) + (E + Z.pos n)) - (E + Z.pos n) = 0 ->
  E + Z.pos n <= 104 ->
  binary_normalize 24 128 (Z.pos M) E false
  = S754_finite false R (E + Z.pos n).
Proof.
  intros Hn HR Hc Hmax. rewrite binary_normalize_pos.
  rewrite shl_align_up by lia.
  apply binary_round_aux_shift; assumption.
Qed.

Lemma pow2_pos (k : Z) : 0 <= k -> 0 < 2 ^ k.
Proof. intros H. apply Z.pow_pos_nonneg; lia. Qed.

Lemma pow2_split (k n : Z) :
  0 <= k -> 0 <= n -> 2 ^ (k + n) = 2 ^ k * 2 ^ n.
Proof. intros Hk Hn. apply Z.pow_add_r; assumption. Qed.

(** The product of a sample below 1 and [262144.0f] is exact. *)
Lemma b32_mul_262144_value (m : positive) (e : Z) :
  Z.max (Z.pos (digits2_pos m) + e - 24) (-149) = e -> e <= 86 ->
  exists m',
    b32_mul (S754_finite false m e) b32_262144
    = S754_finite false m' (Z.max (Z.pos (digits2_pos m) + e - 6) (-149))
    /\ Z.pos m'
       = Z.pos m
         * 2 ^ (e + 18 - Z.max (Z.pos (digits2_pos m) + e - 6) (-149))
    /\ Z.pos m' < 2 ^ 24.
Proof.
  intros Hv He.
  pose proof (digits2_pos_bounds m) as Hb.
  set (d := Z.pos (digits2_pos m)) in *.
  assert (Hd : 1 <= d) by (subst d; lia).
  set (e' := Z.max (d + e - 6) (-149)).
  set (k := e + 18 - e').
  set (n0 := e' - (e + -5)).
  assert (Hk : 0 <= k <= 18) by (subst k e'; lia).
  assert (Hn0 : 5 <= n0 <= 23) by (subst n0 e'; lia).
  assert (Hkn : k + n0 = 23) by (subst k n0; lia).
  assert (Hdk : d + k <= 24) by (subst k e'; lia).
  pose proof (pow2_pos k ltac:(lia)) as Pk.
  pose proof (pow2_pos n0 ltac:(lia)) as Pn.
  pose proof (pow2_pos (d - 1) ltac:(lia)) as Pd.
  assert (Ekn : 2 ^ k * 2 ^ n0 = 8388608).
  { rewrite <- pow2_split, Hkn by lia. reflexivity. }
  assert (Ed : 2 ^ d = 2 * 2 ^ (d - 1)).
  { replace d with (Z.succ (d - 1)) at 1 by lia.
    apply Z.pow_succ_r. lia. }
  exists (m * Z.to_pos (2 ^ k))%positive.
  assert (ER : Z.pos (m * Z.to_pos (2 ^ k)) = Z.pos m * 2 ^ k).
  { rewrite Pos2Z.inj_mul, Z2Pos.id by lia. reflexivity. }
  assert (Hlo : 2 ^ (d - 1) * 2 ^ k <= Z.pos m * 2 ^ k)
    by (apply Z.mul_le_mono_nonneg_r; lia).
  assert (Hhi : Z.pos m * 2 ^ k < 2 ^ d * 2 ^ k)
    by (apply Z.mul_lt_mono_pos_r; lia).
  split; [| split].
  - unfold b32_mul, b32_prec, b32_emax, b32_262144.
    rewrite SFmul_finite. cbn [xorb].
    replace e' with (e + -5 + Z.pos (Z.to_pos n0))
      by (rewrite Z2Pos.id; subst n0; lia).
    apply binary_round_aux_shift.
    + rewrite (digits2_pos_eq (m * 8388608) (d + 23)).
      * rewrite fexp_b32, Z2Pos.id by lia. subst n0 e'. lia.
      * rewrite Pos2Z.inj_mul.
        replace (d + 23 - 1) with (d - 1 + 23) by lia.
        rewrite !pow2_split by lia. change (2 ^ 23) with 8388608. lia.
    + rewrite Z2Pos.id by lia.
      assert (EM : Z.pos (m * 8388608) = Z.pos m * 2 ^ k * 2 ^ n0).
      { rewrite Pos2Z.inj_mul, <- Z.mul_assoc, Ekn. reflexivity. }
      rewrite shifted_rne_exact, EM, ER.
      * apply Z.div_mul. lia.
      * lia.
      * rewrite EM. apply Z.mod_mul. lia.
    + rewrite (digits2_pos_eq (m * Z.to_pos (2 ^ k)) (d + k)).
      * rewrite fexp_b32, Z2Pos.id by lia. subst n0 k e'. lia.
      * rewrite ER. replace (d + k - 1) with (d - 1 + k) by lia.
        rewrite !pow2_split by lia. lia.
    + rewrite Z2Pos.id by lia. subst n0 e'. lia.
  - exact ER.
  - rewrite ER.
    assert (2 ^ (d + k) <= 2 ^ 24) by (apply Z.pow_le_mono_r; lia).
    rewrite pow2_split in H by lia. lia.
Qed.

Lemma shl_align_value (m : positive) (e e' : Z) :
  e' <= e -> Z.pos (fst (shl_align m e e')) = Z.pos m * 2 ^ (e - e').
Proof.
  intros H. destruct (Z.eq_dec e e') as [-> | Hne].
  - rewrite shl_align_same, Z.sub_diag. cbn [fst]. change (2 ^ 0) with 1. lia.
  - rewrite (shl_align_down m e e' (Z.to_pos (e - e')))
      by (rewrite Z2Pos.id; lia).
    cbn [fst]. rewrite iter_xO_value, Z2Pos.id by lia. reflexivity.
Qed.

(** The sum of [0.5f] and a number below [0.5f]: a number of exponent
    [-24], below 1 unless the number is the last one below [0.5f]. *)
Lemma b32_add_half_small (m' : positive) (e' : Z) :
  Z.pos m' < 2 ^ 24 -> -149 <= e' <= -25 ->
  ~ (Z.pos m' = 2 ^ 24 - 1 /\ e' = -25) ->
  exists R,
    b32_add (S754_finite false m' e') b32_half = S754_finite false R (-24)
    /\ Z.pos R < 2 ^ 24.
Proof.
  change (2 ^ 24) with 16777216.
  intros Hm He Hne.
  set (t := -24 - e').
  assert (Ht : 1 <= t <= 125) by (subst t; lia).
  pose proof (pow2_pos t ltac:(lia)) as PT.
  assert (HT : 2 <= 2 ^ t).
  { change 2 with (2 ^ 1) at 1. apply Z.pow_le_mono_r; lia. }
  set (M := (fst (shl_align m' e' (Z.min e' (-24)))
             + fst (shl_align 8388608 (-24) (Z.min e' (-24))))%positive).
  assert (EM : Z.pos M = Z.pos m' + 8388608 * 2 ^ t).
  { subst M. rewrite Pos2Z.inj_add, !shl_align_value by lia.
    rewrite Z.min_l by lia. rewrite Z.sub_diag. change (2 ^ 0) with 1.
    replace (-24 - e') with t by reflexivity. lia. }
  assert (Eq : Z.pos M / 2 ^ t = Z.pos m' / 2 ^ t + 8388608).
  { rewrite EM. apply Z.div_add. lia. }
  pose proof (shifted_rne_bounds (Z.pos M) t) as Hr. rewrite Eq in Hr.
  assert (Hq0 : 0 <= Z.pos m' / 2 ^ t) by (apply Z.div_pos; lia).
  assert (Hup : shifted_rne (Z.pos M) t < 16777216).
  { destruct (Z.eq_dec t 1) as [E1 | E1].
    - assert (Hm' : Z.pos m' <> 16777215) by (intros E; apply Hne; subst t; lia).
      clear Hr Eq. unfold shifted_rne. cbv zeta. rewrite EM, E1.
      change (2 ^ 1) with 2.
      destruct (Z.ltb_spec (2 * ((Z.pos m' + 8388608 * 2) mod 2)) 2);
        [Z.div_mod_to_equations; lia |].
      destruct (Z.eqb_spec (2 * ((Z.pos m' + 8388608 * 2) mod 2)) 2);
        [| Z.div_mod_to_equations; lia].
      destruct (Z.even _); Z.div_mod_to_equations; lia.
    - assert (H4 : 4 <= 2 ^ t).
      { change 4 with (2 ^ 2). apply Z.pow_le_mono_r; lia. }
      assert (Z.pos m' / 2 ^ t < 4194304)
        by (apply Z.div_lt_upper_bound; lia).
      lia. }
  exists (Z.to_pos (shifted_rne (Z.pos M) t)).
  split; [| rewrite Z2Pos.id; lia].
  unfold b32_add, b32_prec, b32_emax, b32_half. rewrite SFadd_finite_pos.
  fold M.
  rewrite (binary_normalize_shift M (Z.to_pos (shifted_rne (Z.pos M) t))
             (Z.min e' (-24)) (Z.to_pos t)).
  - rewrite Z2Pos.id, Z.min_l by lia. f_equal. subst t. lia.
  - rewrite (digits2_pos_eq M (24 + t)).
    + rewrite fexp_b32, Z2Pos.id, Z.min_l by lia. subst t. lia.
    + rewrite EM. replace (24 + t - 1) with (23 + t) by lia.
      rewrite !pow2_split by lia. change (2 ^ 23) with 8388608.
      change (2 ^ 24) with 16777216. lia.
  - rewrite !Z2Pos.id by lia. reflexivity.
  - rewrite (digits2_pos_eq _ 24).
    + rewrite fexp_b32, Z2Pos.id, Z.min_l by lia. subst t. lia.
    + rewrite Z2Pos.id by lia. change (2 ^ (24 - 1)) with 8388608.
      change (2 ^ 24) with 16777216. lia.
  - rewrite Z2Pos.id, Z.min_l by lia. subst t. lia.
Qed.

(** The sum of [0.5f] and a normal number [m * 2^(a - 24)] from [0.5f] on
    and below [262144]: its floor is the floor of the exact sum. *)
Lemma b32_add_half_large (m : positive) (a : Z) :
  2 ^ 23 <= Z.pos m < 2 ^ 24 -> 0 <= a <= 18 ->
  floorf (b32_add (S754_finite false m (a - 24)) b32_half)
  = Some ((Z.pos m * 2 ^ a + 2 ^ 23) / 2 ^ 24).
Proof.
  change (2 ^ 23) with 8388608. change (2 ^ 24) with 16777216.
  intros Hm Ha.
  pose proof (pow2_pos a ltac:(lia)) as PA.
  pose proof (pow2_pos (22 - a) ltac:(lia)) as PW.
  assert (EV : 2 ^ (23 - a) = 2 * 2 ^ (22 - a)).
  { replace (23 - a) with (Z.succ (22 - a)) by lia.
    apply Z.pow_succ_r. lia. }
  assert (EAV : 2 ^ a * 2 ^ (23 - a) = 8388608).
  { rewrite <- pow2_split by lia. replace (a + (23 - a)) with 23 by lia.
    reflexivity. }
  set (A := 2 ^ a) in *. set (W := 2 ^ (22 - a)) in *.
  set (M := (fst (shl_align m (a - 24) (Z.min (a - 24) (-24)))
             + fst (shl_align 8388608 (-24) (Z.min (a - 24) (-24))))%positive).
  assert (EM : Z.pos M = Z.pos m * A + 8388608).
  { subst M. rewrite Pos2Z.inj_add, !shl_align_value by lia.
    rewrite Z.min_r by lia. rewrite Z.sub_diag. change (2 ^ 0) with 1.
    replace (a - 24 - -24) with a by lia. fold A. lia. }
  assert (HmA : 8388608 * A <= Z.pos m * A)
    by (apply Z.mul_le_mono_nonneg_r; lia).
  assert (HmA' : Z.pos m * A < 16777216 * A)
    by (apply Z.mul_lt_mono_pos_r; lia).
  unfold b32_add, b32_prec, b32_emax, b32_half. rewrite SFadd_finite_pos.
  fold M. rewrite <- EM.
  destruct (Z.lt_ge_cases (Z.pos M) (16777216 * A)) as [Hnc | Hc].
  - (* the sum stays in the binade *)
    assert (Ha1 : 1 <= a).
    { destruct (Z.eq_dec a 0) as [E0 | E0]; [| lia].
      exfalso. subst A. rewrite E0 in *. change (2 ^ 0) with 1 in *. lia. }
    assert (ER : Z.pos (m + Z.to_pos (2 ^ (23 - a))) * A = Z.pos M).
    { rewrite Pos2Z.inj_add, Z2Pos.id, EM by lia. lia. }
    rewrite (binary_normalize_shift M (m + Z.to_pos (2 ^ (23 - a)))
               (Z.min (a - 24) (-24)) (Z.to_pos a)).
    + rewrite Z2Pos.id, Z.min_r by lia. cbn [floorf].
      destruct (Z.leb_spec 0 (-24 + a)); [lia |]. f_equal.
      replace (- (-24 + a)) with (24 - a) by lia.
      rewrite <- ER.
      replace 16777216 with (2 ^ (24 - a) * A).
      * symmetry. apply Z.div_mul_cancel_r; [| lia].
        pose proof (pow2_pos (24 - a) ltac:(lia)). lia.
      * subst A. rewrite <- pow2_split by lia.
        replace (24 - a + a) with 24 by lia. reflexivity.
    + rewrite (digits2_pos_eq M (24 + a)).
      * rewrite fexp_b32, Z2Pos.id, Z.min_r by lia. lia.
      * replace (24 + a - 1) with (23 + a) by lia.
        rewrite !pow2_split by lia. fold A. change (2 ^ 23) with 8388608.
        change (2 ^ 24) with 16777216. lia.
    + rewrite Z2Pos.id by lia. fold A.
      rewrite shifted_rne_exact by (lia || (rewrite <- ER; apply Z.mod_mul; lia)).
      rewrite <- ER. apply Z.div_mul. lia.
    + rewrite (digits2_pos_eq _ 24).
      * rewrite fexp_b32, Z2Pos.id, Z.min_r by lia. lia.
      * change (2 ^ (24 - 1)) with 8388608. change (2 ^ 24) with 16777216.
        split; [lia |].
        apply (Z.mul_lt_mono_pos_r A); [lia |]. rewrite ER. lia.
    + rewrite Z2Pos.id, Z.min_r by lia. lia.
  - (* the sum reaches the next binade *)
    assert (E2A : 2 ^ (a + 1) = 2 * A).
    { replace (a + 1) with (Z.succ a) by lia. apply Z.pow_succ_r. lia. }
    pose proof (shifted_rne_bounds (Z.pos M) (a + 1)) as Hr.
    rewrite E2A in Hr.
    assert (Hq1 : 8388608 <= Z.pos M / (2 * A))
      by (apply Z.div_le_lower_bound; lia).
    assert (Hq2 : Z.pos M / (2 * A) < 8388608 + W)
      by (apply Z.div_lt_upper_bound; lia).
    assert (HW : W <= 4194304).
    { subst W. change 4194304 with (2 ^ 22). apply Z.pow_le_mono_r; lia. }
    set (r := shifted_rne (Z.pos M) (a + 1)) in *.
    rewrite (binary_normalize_shift M (Z.to_pos r)
               (Z.min (a - 24) (-24)) (Z.to_pos (a + 1))).
    + rewrite Z2Pos.id, Z.min_r by lia. cbn [floorf].
      destruct (Z.leb_spec 0 (-24 + (a + 1))); [lia |]. f_equal.
      replace (- (-24 + (a + 1))) with (23 - a) by lia.
      rewrite Z2Pos.id by lia.
      transitivity A.
      * symmetry. apply (Z.div_unique r (2 ^ (23 - a)) A (r - 8388608)).
        -- left. lia.
        -- lia.
      * apply (Z.div_unique (Z.pos M) 16777216 A
                 (Z.pos M - 16777216 * A)).
        -- left. lia.
        -- lia.
    + rewrite (digits2_pos_eq M (25 + a)).
      * rewrite fexp_b32, Z2Pos.id, Z.min_r by lia. lia.
      * replace (25 + a - 1) with (24 + a) by lia.
        rewrite !pow2_split by lia. fold A. change (2 ^ 25) with 33554432.
        change (2 ^ 24) with 16777216. lia.
    + rewrite !Z2Pos.id by lia. reflexivity.
    + rewrite (digits2_pos_eq _ 24).
      * rewrite fexp_b32, Z2Pos.id, Z.min_r by lia. lia.
      * rewrite Z2Pos.id by lia. change (2 ^ (24 - 1)) with 8388608.
        change (2 ^ 24) with 16777216. lia.
    + rewrite Z2Pos.id, Z.min_r by lia. lia.
Qed.

Lemma spec_depth_index_finite (m : positive) (e : Z) :
  e < 0 ->
  spec_depth_index (S754_finite false m e)
  = Some (Z.min 0x3FFFF
            ((Z.pos m * 262144 * 2 + 2 ^ (- e)) / (2 ^ (- e) * 2))).
Proof.
  intros He. unfold spec_depth_index, b32_value. cbv zeta.
  destruct (Z.leb_spec 0 e); [lia |].
  pose proof (pow2_pos (- e) ltac:(lia)) as P.
  f_equal. f_equal. unfold Qfloor, Qplus, Qmult. cbn [Qnum Qden].
  rewrite !Pos2Z.inj_mul, Z2Pos.id by lia.
  f_equal; lia.
Qed.

Lemma valid_b32_finite (s : bool) (m : positive) (e : Z) :
  valid_binary b32_prec b32_emax (S754_finite s m e)
  = (Z.max (Z.pos (digits2_pos m) + e - 24) (-149) =? e) && (e <=? 104).
Proof. reflexivity. Qed.

Lemma b32_lt_one_finite (m : positive) (e : Z) :
  b32_lt (S754_finite false m e) b32_one
  = match (match e ?= -23 with
           | Lt => Lt
           | Gt => Gt
           | Eq => Pos.compare_cont Eq m 8388608
           end) with
    | Lt => true
    | _ => false
    end.
Proof. reflexivity. Qed.

Lemma b32_below_one (m : positive) (e : Z) :
  Z.max (Z.pos (digits2_pos m) + e - 24) (-149) = e ->
  b32_lt (S754_finite false m e) b32_one = true -> e <= -24.
Proof.
  intros Hv Hlt. rewrite b32_lt_one_finite in Hlt.
  destruct (Z.compare_spec e (-23)) as [E | E | E]; [| lia | discriminate].
  exfalso. rewrite Pos.compare_cont_spec in Hlt. cbn [Pos.switch_Eq] in Hlt.
  destruct (Pos.compare_spec m 8388608) as [E' | E' | E']; try discriminate.
  clear Hlt. apply Pos2Z.pos_lt_pos in E'.
  pose proof (digits2_pos_bounds m) as Hb.
  set (d := Z.pos (digits2_pos m)) in *.
  assert (Hd : d = 24) by (clear Hb E'; lia).
  rewrite Hd in Hb. change (2 ^ (24 - 1)) with 8388608 in Hb.
  clear Hv Hd E. lia.
Qed.

(** The index of a non-negative sample below 1 is the index of the
    specification, but for the last sample below [2^-19]. *)
Lemma FloatToUInt16_idx_exact (z : binary32) :
  valid_binary b32_prec b32_emax z = true ->
  b32_lt z b32_one = true -> b32_nonneg z = true ->
  z <> below_half_step ->
  exists i,
    spec_depth_index z = Some i /\ 0 <= i <= 0x3FFFF
    /\ FloatToUInt16_idx z = Some i.
Proof.
  intros Hvalid Hlt Hnn Hz.
  destruct z as [s | [|] | | [|] m e]; try discriminate.
  - exists 0. destruct s; repeat split; vm_compute; congruence.
  - clear Hnn.
    rewrite valid_b32_finite in Hvalid.
    apply andb_true_iff in Hvalid. destruct Hvalid as [Hv He104].
    apply Z.eqb_eq in Hv. apply Z.leb_le in He104.
    pose proof (b32_below_one m e Hv Hlt) as He.
    destruct (b32_mul_262144_value m e Hv ltac:(lia))
      as (m' & Hmul & Hm' & Hlt24).
    pose proof (digits2_pos_bounds m) as Hb.
    set (d := Z.pos (digits2_pos m)) in *.
    assert (Hd : 1 <= d) by (subst d; lia).
    set (e' := Z.max (d + e - 6) (-149)) in *.
    pose proof (pow2_pos (- e) ltac:(lia)) as PB.
    unfold FloatToUInt16_idx, u32_of_floorf.
    rewrite Hlt, Hmul, spec_depth_index_finite by lia.
    destruct (Z.le_gt_cases (-24) e') as [Hbig | Hsmall].
    + (* the product is a normal number from 0.5 on *)
      assert (Hd24 : d = 24) by (subst e'; lia).
      assert (Ee' : e' = e + 42 - 24) by (subst e'; lia).
      assert (Em : m' = m).
      { apply Pos2Z.inj. rewrite Hm'.
        replace (e + 18 - e') with 0 by lia. change (2 ^ 0) with 1. lia. }
      rewrite Hd24 in Hb. change (2 ^ (24 - 1)) with 8388608 in Hb.
      change (2 ^ 24) with 16777216 in Hb.
      rewrite Em, Ee', b32_add_half_large
        by (change (2 ^ 23) with 8388608; change (2 ^ 24) with 16777216;
            lia).
      set (a := e + 42) in *.
      assert (Ha : 0 <= a <= 18) by (subst a e'; lia).
      pose proof (pow2_pos a ltac:(lia)) as PA.
      pose proof (pow2_pos (19 - a) ltac:(lia)) as PC.
      assert (HA : 2 ^ a <= 262144).
      { change 262144 with (2 ^ 18). apply Z.pow_le_mono_r; lia. }
      assert (EAC : 2 ^ a * 2 ^ (19 - a) = 524288).
      { rewrite <- pow2_split by lia. replace (a + (19 - a)) with 19 by lia.
        reflexivity. }
      assert (EB : 2 ^ (- e) = 8388608 * 2 ^ (19 - a)).
      { replace (- e) with (23 + (19 - a)) by (subst a; lia).
        rewrite pow2_split by lia. reflexivity. }
      change (2 ^ 23) with 8388608. change (2 ^ 24) with 16777216.
      set (A := 2 ^ a) in *. set (C := 2 ^ (19 - a)) in *.
      assert (HmA : Z.pos m * A < 16777216 * A)
        by (apply Z.mul_lt_mono_pos_r; lia).
      assert (HF0 : 0 <= (Z.pos m * A + 8388608) / 16777216)
        by (apply Z.div_pos; lia).
      assert (HF1 : (Z.pos m * A + 8388608) / 16777216 < 2 ^ 32).
      { apply Z.div_lt_upper_bound; [lia |].
        change (2 ^ 32) with 4294967296. lia. }
      destruct (Z.leb_spec 0 ((Z.pos m * A + 8388608) / 16777216));
        [| lia].
      destruct (Z.ltb_spec ((Z.pos m * A + 8388608) / 16777216) (2 ^ 32));
        [| lia].
      cbn [andb].
      exists (Z.min 0x3FFFF ((Z.pos m * A + 8388608) / 16777216)).
      split; [| split; [lia | reflexivity]].
      f_equal. f_equal. rewrite EB.
      replace (Z.pos m * 262144 * 2) with (Z.pos m * (A * C))
        by (rewrite EAC; lia).
      replace (Z.pos m * (A * C) + 8388608 * C)
        with ((Z.pos m * A + 8388608) * C) by ring.
      replace (8388608 * C * 2) with (16777216 * C) by ring.
      apply Z.div_mul_cancel_r; lia.
    + (* the product is below 0.5 *)
      assert (Hde : d + e <= -19) by (subst e'; lia).
      destruct (b32_add_half_small m' e' Hlt24 ltac:(subst e'; lia))
        as (R & Hadd & HR).
      { intros [Hm1 He1]. apply Hz.
        assert (Ee : e = -43) by (subst e'; lia).
        assert (Em : m = 16777215%positive).
        { apply Pos2Z.inj. rewrite Hm' in Hm1.
          replace (e + 18 - e') with 0 in Hm1 by lia.
          change (2 ^ 0) with 1 in Hm1. change (2 ^ 24) with 16777216 in Hm1.
          lia. }
        rewrite Ee, Em. reflexivity. }
      rewrite Hadd. cbn [floorf].
      change (0 <=? -24) with false. cbv iota.
      change (2 ^ (- -24)) with 16777216.
      change (2 ^ 24) with 16777216 in HR.
      rewrite (Z.div_small (Z.pos R)) by lia.
      exists 0. split; [| split; [lia | reflexivity]].
      f_equal.
      assert (Hsm : Z.pos m * 524288 < 2 ^ (- e)).
      { assert (H1 : 2 ^ (d + 19) <= 2 ^ (- e))
          by (apply Z.pow_le_mono_r; lia).
        rewrite pow2_split in H1 by lia. change (2 ^ 19) with 524288 in H1.
        lia. }
      rewrite Z.div_small by lia. reflexivity.
Qed.

(** C8 (amended): for a sample that is not less than 1 (a number from 1
    on, the positive infinity, or a NaN) [_FloatToUInt16] returns the
    table entry of index [0x3FFFF].  For a sample less than 1 that is not
    negative, the function returns the table entry of index
    [min(0x3FFFF, floor(z * 262144 + 0.5))], computed exactly, which is a
    position of the table from 0 to [0x3FFFF], with one exception: for
    the sample [(2^24 - 1) * 2^-43], the last one below [2^-19], that
    index is 0 and the function returns the table entry of index 1. *)
Theorem FloatToUInt16_index (zLUT : Z -> Z) (z : binary32) :
  valid_binary b32_prec b32_emax z = true ->
  (b32_lt z b32_one = false ->
   _FloatToUInt16 zLUT z = Some (zLUT 0x3FFFF))
  /\ (b32_lt z b32_one = true -> b32_nonneg z = true ->
      z <> below_half_step ->
      exists i,
        spec_depth_index z = Some i /\ 0 <= i <= 0x3FFFF
        /\ _FloatToUInt16 zLUT z = Some (zLUT i))
  /\ (z = below_half_step ->
      spec_depth_index z = Some 0
      /\ _FloatToUInt16 zLUT z = Some (zLUT 1)).
Proof.
  intros Hvalid. split; [| split].
  - intros H. unfold _FloatToUInt16, FloatToUInt16_idx. rewrite H.
    reflexivity.
  - intros Hlt Hnn Hz.
    destruct (FloatToUInt16_idx_exact z Hvalid Hlt Hnn Hz)
      as (i & Hspec & Hi & Hidx).
    exists i. unfold _FloatToUInt16. rewrite Hidx.
    split; [exact Hspec | split; [exact Hi | reflexivity]].
  - intros ->. split; [vm_compute; reflexivity |].
    unfold _FloatToUInt16.
    replace (FloatToUInt16_idx below_half_step) with (Some 1)
      by (vm_compute; reflexivity).
    reflexivity.
Qed.

Lemma FloatToUInt16_index_witness :
  exists i,
    spec_depth_index b32_half = Some i /\ 0 <= i <= 0x3FFFF
    /\ _FloatToUInt16 (fun i => i) b32_half = Some i.
Proof.
  apply (proj1 (proj2 (FloatToUInt16_index (fun i => i) b32_half eq_refl))).
  - reflexivity.
  - reflexivity.
  - discriminate.
Defined.

(** ** Lookups by address *)

Lemma holds_test (b : FrameBuffer) (a : Z) :
  (m_startAddress b <=? a) && (m_endAddress b >=? a) = true <-> holds b a.
Proof.
  unfold holds. rewrite andb_true_iff, Z.leb_le, Z.geb_leb, Z.leb_le.
  reflexivity.
Qed.

(** X1: [findBuffer] returns the first entry, from the front of the list,
    whose range holds the address: the list splits at that entry, no entry
    in front of it holds the address, and the answer is null exactly when
    no entry of the list holds the address. *)
Theorem findBuffer_first_holder (l : FrameBuffers) (a : Z) :
  match findBuffer l a with
  | Some p =>
      exists l1 b l2,
        l = l1 ++ (p, b) :: l2 /\ holds b a
        /\ forall n, In n l1 -> ~ holds (snd n) a
  | None => forall n, In n l -> ~ holds (snd n) a
  end.
Proof.
  induction l as [| [q b] t IH]; simpl.
  - intros n [].
  - destruct ((m_startAddress b <=? a) && (m_endAddress b >=? a)) eqn:Hb.
    + exists [], b, t. split; [reflexivity |]. split.
      * apply holds_test. exact Hb.
      * intros n [].
    + assert (Hnb : ~ holds b a).
      { intros H. apply holds_test in H. congruence. }
      destruct (findBuffer t a) as [p |].
      * destruct IH as (l1 & c & l2 & Hl & Hc & Hl1).
        exists ((q, b) :: l1), c, l2. split; [rewrite Hl; reflexivity |].
        split; [exact Hc |].
        intros n [<- | Hin]; [exact Hnb | apply Hl1; exact Hin].
      * intros n [<- | Hin]; [exact Hnb | apply IH; exact Hin].
Qed.

(** X2: [findTmpBuffer] returns the first entry, from the front of the
    list, whose range does not hold the address; it returns null exactly
    when every entry holds the address (an empty list included). *)
Theorem findTmpBuffer_first_stranger (l : FrameBuffers) (a : Z) :
  match findTmpBuffer l a with
  | Some p =>
      exists l1 b l2,
        l = l1 ++ (p, b) :: l2 /\ ~ holds b a
        /\ forall n, In n l1 -> holds (snd n) a
  | None => forall n, In n l -> holds (snd n) a
  end.
Proof.
  induction l as [| [q b] t IH]; simpl.
  - intros n [].
  - destruct (Z.gtb_spec (m_startAddress b) a) as [H1 | H1];
      destruct (Z.ltb_spec (m_endAddress b) a) as [H2 | H2]; cbn [orb].
    1-3: (exists [], b, t; split; [reflexivity |]; split;
          [unfold holds; lia | intros n []]).
    assert (Hb : holds b a) by (unfold holds; lia).
    destruct (findTmpBuffer t a) as [p |].
    + destruct IH as (l1 & c & l2 & Hl & Hc & Hl1).
      exists ((q, b) :: l1), c, l2. split; [rewrite Hl; reflexivity |].
      split; [exact Hc |].
      intros n [<- | Hin]; [exact Hb | apply Hl1; exact Hin].
    + intros n [<- | Hin]; [exact Hb | apply IH; exact Hin].
Qed.

(** A list is split in one way only at its first element with a property. *)
Lemma first_split_unique {A : Type} (P : A -> Prop) (k1 l1 : list A)
  (y x : A) (k2 l2 : list A) :
  k1 ++ y :: k2 = l1 ++ x :: l2 -> P y -> P x ->
  (forall n, In n k1 -> ~ P n) -> (forall n, In n l1 -> ~ P n) ->
  k1 = l1 /\ y = x /\ k2 = l2.
Proof.
  revert l1. induction k1 as [| u k IH]; intros l1 H Hy Hx Hk Hl.
  - destruct l1 as [| v l]; simpl in H.
    + injection H as -> ->. auto.
    + injection H as -> _. exfalso.
      apply (Hl v); [left; reflexivity | exact Hy].
  - destruct l1 as [| v l]; simpl in H.
    + injection H as -> _. exfalso.
      apply (Hk x); [left; reflexivity | exact Hx].
    + injection H as -> H.
      destruct (IH l H Hy Hx (fun n Hn => Hk n (or_intror Hn))
                   (fun n Hn => Hl n (or_intror Hn))) as (-> & -> & ->).
      auto.
Qed.

Lemma removeBuffer_list_spec (l : FrameBuffers) (a : Z) :
  match snd (removeBuffer_list l a) with
  | Some p =>
      exists l1 b l2,
        l = l1 ++ (p, b) :: l2 /\ fst (removeBuffer_list l a) = l1 ++ l2
        /\ m_startAddress b = a
        /\ forall n, In n l1 -> m_startAddress (snd n) <> a
  | None =>
      fst (removeBuffer_list l a) = l
      /\ forall n, In n l -> m_startAddress (snd n) <> a
  end.
Proof.
  induction l as [| [q b] t IH]; simpl.
  - split; [reflexivity | intros n []].
  - destruct (Z.eqb_spec (m_startAddress b) a) as [E | E]; simpl.
    + exists [], b, t. repeat split; try assumption; try reflexivity.
      intros n [].
    + destruct (snd (removeBuffer_list t a)) as [p |].
      * destruct IH as (l1 & c & l2 & Hl & Hr & Hc & Hl1).
        exists ((q, b) :: l1), c, l2. rewrite Hl at 1. rewrite Hr.
        repeat split; try assumption; try reflexivity.
        intros n [<- | Hin]; [exact E | apply Hl1; exact Hin].
      * destruct IH as [Hr Hall]. rewrite Hr. split; [reflexivity |].
        intros n [<- | Hin]; [exact E | apply Hall; exact Hin].
Qed.

Lemma deref_app_other (l1 l2 : FrameBuffers) (p c : Ptr) (b : FrameBuffer) :
  p <> c -> deref (l1 ++ (p, b) :: l2) c = deref (l1 ++ l2) c.
Proof.
  intros Hne. induction l1 as [| [q d] t IH]; simpl.
  - destruct (Nat.eqb_spec p c); [contradiction | reflexivity].
  - destruct (Nat.eqb q c); [reflexivity | exact IH].
Qed.

(** X5: [removeBuffer] erases the first entry that starts at the address
    and no other one; a list with no such entry is left as it is.
    [m_pCurrent] becomes null exactly when it pointed to the erased node,
    and a pointer that is kept still points to the same buffer. *)
Theorem removeBuffer_spec (fbl : FrameBufferList) (a : Z) :
  ((forall n, In n (m_list fbl) -> m_startAddress (snd n) <> a) ->
   removeBuffer fbl a = fbl)
  /\ (forall l1 p b l2,
        m_list fbl = l1 ++ (p, b) :: l2 ->
        m_startAddress b = a ->
        (forall n, In n l1 -> m_startAddress (snd n) <> a) ->
        m_list (removeBuffer fbl a) = l1 ++ l2
        /\ m_pCurrent (removeBuffer fbl a)
           = (if ptr_eqb p (m_pCurrent fbl) then None else m_pCurrent fbl))
  /\ (forall c,
        m_pCurrent (removeBuffer fbl a) = Some c ->
        m_pCurrent fbl = Some c
        /\ deref (m_list (removeBuffer fbl a)) c = deref (m_list fbl) c).
Proof.
  pose proof (removeBuffer_list_spec (m_list fbl) a) as H.
  unfold removeBuffer. split; [| split].
  - intros Hno.
    destruct (snd (removeBuffer_list (m_list fbl) a)) as [p |].
    + destruct H as (l1 & b & l2 & Hl & _ & Hb & _).
      exfalso. apply (Hno (p, b)); [| exact Hb].
      rewrite Hl. apply in_or_app. right. left. reflexivity.
    + destruct H as [Hr _]. rewrite Hr. destruct fbl; reflexivity.
  - intros l1 p b l2 Hl Hb Hl1.
    destruct (snd (removeBuffer_list (m_list fbl) a)) as [p' |].
    + destruct H as (k1 & b' & k2 & Hk & Hr & Hb' & Hk1).
      assert (Hsame : k1 = l1 /\ (p', b') = (p, b) /\ k2 = l2).
      { apply (first_split_unique (fun n => m_startAddress (snd n) = a));
          try assumption.
        rewrite <- Hk. exact Hl. }
      destruct Hsame as (-> & E & ->). injection E as -> ->.
      simpl. rewrite Hr. split; reflexivity.
    + destruct H as [_ Hall]. exfalso. apply (Hall (p, b)); [| exact Hb].
      rewrite Hl. apply in_or_app. right. left. reflexivity.
  - intros c Hc. simpl in Hc |- *.
    destruct (snd (removeBuffer_list (m_list fbl) a)) as [p |].
    + destruct H as (l1 & b & l2 & Hl & Hr & _ & _).
      destruct (ptr_eqb p (m_pCurrent fbl)) eqn:Hp; [discriminate |].
      split; [exact Hc |]. rewrite Hr, Hl. symmetry.
      apply deref_app_other. intros ->. rewrite Hc in Hp. simpl in Hp.
      rewrite Nat.eqb_refl in Hp. discriminate.
    + destruct H as [Hr _]. rewrite Hr. split; [exact Hc | reflexivity].
Qed.

Lemma removeBuffer_spec_witness :
  m_list (removeBuffer two_claims_list 0x100000) = [(0%nat, screen_buffer)]
  /\ m_pCurrent (removeBuffer two_claims_list 0x100000) = Some 0%nat.
Proof.
  apply (proj1 (proj2 (removeBuffer_spec two_claims_list 0x100000))
           [] 1%nat wide_buffer [(0%nat, screen_buffer)]).
  - reflexivity.
  - reflexivity.
  - intros n [].
Defined.

(** ** [_findBuffer] in closed form *)

Lemma filter_all {A : Type} (f : A -> bool) (l : list A) :
  (forall x, In x l -> f x = true) -> filter f l = l.
Proof.
  induction l as [| x t IH]; intros H; simpl; [reflexivity |].
  rewrite (H x (or_introl eq_refl)). f_equal.
  apply IH. intros y Hy. apply H. right. exact Hy.
Qed.

Lemma filter_middle_out {A : Type} (f : A -> bool) (l1 l2 : list A) (x : A) :
  f x = false -> filter f (l1 ++ x :: l2) = filter f (l1 ++ l2).
Proof.
  intros H. rewrite !filter_app. cbn [filter]. rewrite H. reflexivity.
Qed.

Lemma clear_of_conflict (s e : Z) (p : Ptr) (b : FrameBuffer) :
  conflicts b s e = true -> clear_of s e (p, b) = false.
Proof. intros H. unfold clear_of. cbn [snd]. rewrite H. reflexivity. Qed.

Lemma findBuffer_no_match (l : FrameBuffers) (s e w : Z) :
  (forall n, In n l -> matches s e w n = false) ->
  _findBuffer l s e w = (None, filter (clear_of s e) l).
Proof.
  remember (length l) as k eqn:Hk. revert l Hk.
  induction k as [k IH] using lt_wf_ind. intros l Hk Hno.
  rewrite findBuffer_body.
  pose proof (scan_spec l s e (length l) (le_n _)) as Hscan.
  destruct (_findBuffer_scan l (length l) s e) as [i |].
  - destruct Hscan as (Hi & (n & Hn & Hc) & _).
    rewrite Hn. destruct n as [p b]. simpl in Hc.
    destruct (nth_error_split l i Hn) as (l1 & l2 & Hl & Hl1).
    assert (Hd : differs b s w = true).
    { specialize (Hno (p, b) (nth_error_In _ _ Hn)).
      unfold matches in Hno. simpl in Hno. rewrite Hc in Hno.
      simpl in Hno. apply negb_false_iff in Hno. exact Hno. }
    rewrite Hd. subst l i. rewrite erase_middle.
    rewrite (IH (length (l1 ++ l2))); [| | reflexivity |].
    + rewrite (filter_middle_out _ _ _ _ (clear_of_conflict s e p b Hc)).
      reflexivity.
    + rewrite Hk, !length_app. simpl. lia.
    + intros n Hin. apply Hno. apply in_app_or in Hin.
      apply in_or_app. destruct Hin; [left | right; right]; assumption.
  - rewrite filter_all; [reflexivity |].
    intros n Hin. destruct (In_nth_error l n Hin) as [j Hj].
    unfold clear_of. rewrite (Hscan j n); [reflexivity | | exact Hj].
    apply nth_error_Some. congruence.
Qed.

Lemma findBuffer_last_match (s e w : Z) (q : Ptr) (c : FrameBuffer)
  (l2 : FrameBuffers) :
  forall l1,
    matches s e w (q, c) = true ->
    (forall n, In n l2 -> matches s e w n = false) ->
    _findBuffer (l1 ++ (q, c) :: l2) s e w
    = (Some q, l1 ++ (q, c) :: filter (clear_of s e) l2).
Proof.
  remember (length l2) as k eqn:Hk. revert l2 Hk.
  induction k as [k IH] using lt_wf_ind. intros l2 Hk l1 Hm Hno.
  unfold matches in Hm. simpl in Hm. apply andb_true_iff in Hm.
  destruct Hm as [Hc Hd]. apply negb_true_iff in Hd.
  rewrite findBuffer_body.
  pose proof (scan_spec (l1 ++ (q, c) :: l2) s e _ (le_n _)) as Hscan.
  assert (Hnq : nth_error (l1 ++ (q, c) :: l2) (length l1) = Some (q, c))
    by (rewrite nth_error_app2, Nat.sub_diag by lia; reflexivity).
  assert (Hlen : (length l1 < length (l1 ++ (q, c) :: l2))%nat)
    by (rewrite length_app; simpl; lia).
  destruct (_findBuffer_scan (l1 ++ (q, c) :: l2)
              (length (l1 ++ (q, c) :: l2)) s e) as [i |].
  - destruct Hscan as (Hi & (n & Hn & Hcn) & Hrest).
    destruct (Nat.lt_trichotomy i (length l1)) as [Hlt | [Heq | Hgt]].
    + pose proof (Hrest (length l1) (q, c) ltac:(lia) Hnq) as Hx.
      simpl in Hx. congruence.
    + subst i. rewrite Hnq, Hd. f_equal. f_equal. f_equal.
      symmetry. apply filter_all. intros x Hx.
      destruct (In_nth_error l2 x Hx) as [j Hj].
      assert (Hjl : (j < length l2)%nat)
        by (apply nth_error_Some; congruence).
      unfold clear_of. rewrite (Hrest (length l1 + 1 + j)%nat x);
        [reflexivity | rewrite length_app; simpl; lia |].
      rewrite nth_error_app2 by lia.
      replace (length l1 + 1 + j - length l1)%nat with (S j) by lia.
      exact Hj.
    + rewrite Hn. destruct n as [p b]. simpl in Hcn.
      assert (Hn2 : nth_error l2 (i - length l1 - 1) = Some (p, b)).
      { rewrite nth_error_app2 in Hn by lia.
        destruct (i - length l1)%nat as [| d] eqn:Hdiff; [lia |].
        simpl in Hn. replace (S d - 1)%nat with d by lia. exact Hn. }
      destruct (nth_error_split l2 _ Hn2) as (k1 & k2 & Hl2 & Hk1).
      assert (Hdb : differs b s w = true).
      { specialize (Hno (p, b) (nth_error_In _ _ Hn2)).
        unfold matches in Hno. simpl in Hno. rewrite Hcn in Hno.
        simpl in Hno. apply negb_false_iff in Hno. exact Hno. }
      rewrite Hdb.
      assert (Her : erase i (l1 ++ (q, c) :: l2)
                    = l1 ++ (q, c) :: k1 ++ k2).
      { subst l2.
        replace (l1 ++ (q, c) :: k1 ++ (p, b) :: k2)
          with ((l1 ++ (q, c) :: k1) ++ (p, b) :: k2)
          by (rewrite <- app_assoc; reflexivity).
        replace i with (length (l1 ++ (q, c) :: k1))
          by (rewrite length_app; simpl; lia).
        rewrite erase_middle, <- app_assoc. reflexivity. }
      rewrite Her.
      rewrite (IH (length (k1 ++ k2))) with (l2 := k1 ++ k2);
        [| subst l2 k; rewrite !length_app; simpl; lia | reflexivity
         | unfold matches; simpl; rewrite Hc, Hd; reflexivity |].
      * subst l2.
        rewrite (filter_middle_out _ _ _ _ (clear_of_conflict s e p b Hcn)).
        reflexivity.
      * intros n Hin. apply Hno. subst l2. apply in_app_or in Hin.
        apply in_or_app. destruct Hin; [left | right; right]; assumption.
  - pose proof (Hscan (length l1) (q, c) Hlen Hnq) as Hx.
    simpl in Hx. congruence.
Qed.

(** X3: the result of [_findBuffer] in closed form.  Call an entry a match
    when it conflicts with the query and has the start address and width
    asked for.  If the list has no match, the answer is null and the list
    keeps exactly its entries that do not conflict, in their order.
    Otherwise the answer is the match nearest to the back of the list: the
    entries in front of it stay as they are, and of the entries behind it
    those that conflict are erased. *)
Theorem findBuffer_closed_form (l : FrameBuffers) (s e w : Z) :
  ((forall n, In n l -> matches s e w n = false) ->
   _findBuffer l s e w = (None, filter (clear_of s e) l))
  /\ (forall l1 q c l2,
        l = l1 ++ (q, c) :: l2 ->
        matches s e w (q, c) = true ->
        (forall n, In n l2 -> matches s e w n = false) ->
        _findBuffer l s e w
        = (Some q, l1 ++ (q, c) :: filter (clear_of s e) l2)).
Proof.
  split.
  - apply findBuffer_no_match.
  - intros l1 q c l2 -> Hm Hno. apply findBuffer_last_match; assumption.
Qed.

Lemma findBuffer_closed_form_witness :
  _findBuffer two_claims 0x100000 0x1003FF 32 = (Some 0%nat, two_claims).
Proof.
  apply (proj2 (findBuffer_closed_form two_claims 0x100000 0x1003FF 32)
           [(1%nat, wide_buffer)] 0%nat screen_buffer []).
  - reflexivity.
  - vm_compute. reflexivity.
  - intros n [].
Defined.

(** X4: a second call of [_findBuffer] with the same query returns the
    same pointer and erases nothing more. *)
Theorem findBuffer_idempotent (l : FrameBuffers) (s e w : Z) :
  _findBuffer (snd (_findBuffer l s e w)) s e w = _findBuffer l s e w.
Proof.
  pose proof (findBuffer_post l s e w) as H.
  destruct (_findBuffer l s e w) as [[q |] l'] eqn:E; simpl.
  - destruct H as (l1 & c & l2 & -> & Hd & Hc & Hno).
    rewrite findBuffer_body.
    rewrite (scan_last_conflict l1 l2 (q, c) s e Hc Hno).
    rewrite nth_error_app2, Nat.sub_diag by lia. simpl.
    rewrite Hd. reflexivity.
  - rewrite findBuffer_body, (scan_no_conflict l' s e H). reflexivity.
Qed.

(** ** Erasing entries *)

(** What the erase loop of [removeBuffers] and [removeAux] leaves. *)
Lemma remove_loop_list (cond : FrameBuffer -> bool) (from : FrameBuffers) :
  forall before pCurrent,
    fst (remove_loop cond before from pCurrent)
    = before ++ filter (fun n => negb (cond (snd n))) from.
Proof.
  induction from as [| [p b] t IH]; intros before pCurrent; simpl.
  - rewrite app_nil_r. reflexivity.
  - destruct (cond b); simpl.
    + apply IH.
    + rewrite IH, <- app_assoc. reflexivity.
Qed.

Lemma remove_loop_pointer (cond : FrameBuffer -> bool) (from : FrameBuffers) :
  forall before pCurrent c,
    snd (remove_loop cond before from pCurrent) = Some c ->
    pCurrent = Some c
    /\ forall n, In n from -> fst n = c -> cond (snd n) = false.
Proof.
  induction from as [| [p b] t IH]; intros before pCurrent c H; simpl in H.
  - split; [exact H | intros n []].
  - destruct (cond b) eqn:Hc.
    + destruct (IH _ _ _ H) as [Hp Hrest].
      destruct (ptr_eqb p pCurrent) eqn:Hpe; [discriminate |].
      split; [exact Hp |].
      intros n [<- | Hin] Hn; [| apply Hrest; assumption].
      simpl in Hn. subst p. rewrite Hp in Hpe. simpl in Hpe.
      rewrite Nat.eqb_refl in Hpe. discriminate.
    + destruct (IH _ _ _ H) as [Hp Hrest]. split; [exact Hp |].
      intros n [<- | Hin] Hn; [exact Hc | apply Hrest; assumption].
Qed.

Lemma deref_filter_kept (f : Ptr * FrameBuffer -> bool) (l : FrameBuffers)
  (c : Ptr) :
  (forall n, In n l -> fst n = c -> f n = true) ->
  deref (filter f l) c = deref l c.
Proof.
  induction l as [| [q b] t IH]; intros H; simpl; [reflexivity |].
  destruct (Nat.eqb_spec q c) as [E | E].
  - rewrite (H (q, b) (or_introl eq_refl) E). simpl.
    destruct (Nat.eqb_spec q c) as [_ | E']; [reflexivity | contradiction].
  - destruct (f (q, b)); simpl.
    + destruct (Nat.eqb_spec q c) as [E' | _]; [contradiction |].
      apply IH. intros n Hin. apply H. right. exact Hin.
    + apply IH. intros n Hin. apply H. right. exact Hin.
Qed.

(** X6: [removeBuffers] leaves exactly the entries of another width, in
    their order, and a null [m_pCurrent], whatever it was before. *)
Theorem removeBuffers_spec (fbl : FrameBufferList) (w : Z) :
  m_list (removeBuffers fbl w)
  = filter (fun n => negb (m_width (snd n) =? w)) (m_list fbl)
  /\ (forall n, In n (m_list (removeBuffers fbl w)) -> m_width (snd n) <> w)
  /\ m_pCurrent (removeBuffers fbl w) = None.
Proof.
  unfold removeBuffers. cbn [m_list m_pCurrent].
  rewrite remove_loop_list. cbn [app]. split; [reflexivity |]. split.
  - intros n Hin. apply filter_In in Hin. destruct Hin as [_ Hn].
    apply negb_true_iff, Z.eqb_neq in Hn. exact Hn.
  - destruct (snd (remove_loop _ [] (m_list fbl) None)) as [c |] eqn:E;
      [| reflexivity].
    apply remove_loop_pointer in E. destruct E as [E _]. discriminate.
Qed.

(** X7: [removeAux] erases exactly the entries whose width differs from
    [VI.width] and whose height differs from [VI.height], and keeps the
    others in their order; a [m_pCurrent] that is not null afterwards is
    the one from before and still points to the same buffer. *)
Theorem removeAux_spec (g : Globals) (fbl : FrameBufferList) :
  m_list (removeAux g fbl)
  = filter (fun n => negb (off_screen g (snd n))) (m_list fbl)
  /\ (forall c,
        m_pCurrent (removeAux g fbl) = Some c ->
        m_pCurrent fbl = Some c
        /\ deref (m_list (removeAux g fbl)) c = deref (m_list fbl) c).
Proof.
  unfold removeAux. cbn [m_list m_pCurrent].
  rewrite remove_loop_list. cbn [app]. split; [reflexivity |].
  intros c Hc. apply remove_loop_pointer in Hc. destruct Hc as [Hp Hkept].
  split; [exact Hp |].
  apply deref_filter_kept. intros n Hin Hn.
  unfold off_screen. rewrite (Hkept n Hin Hn). reflexivity.
Qed.

(** X8: after [clearDepthBuffer] no entry refers to the depth buffer; the
    nodes, ranges and widths of the list are the same, and an entry that
    did not refer to it is left as it is. *)
Theorem clearDepthBuffer_spec (d : Z) (l : FrameBuffers) :
  (forall n, In n (clearDepthBuffer d l) -> m_pDepthBuffer (snd n) <> Some d)
  /\ map (fun n => (fst n, m_startAddress (snd n), m_endAddress (snd n),
                    m_width (snd n)))
         (clearDepthBuffer d l)
     = map (fun n => (fst n, m_startAddress (snd n), m_endAddress (snd n),
                      m_width (snd n))) l
  /\ (forall n, In n l -> m_pDepthBuffer (snd n) <> Some d ->
                In n (clearDepthBuffer d l)).
Proof.
  unfold clearDepthBuffer. split; [| split].
  - intros n Hin. apply in_map_iff in Hin. destruct Hin as (x & Hx & _).
    destruct (m_pDepthBuffer (snd x)) as [e |] eqn:He.
    + destruct (Z.eqb_spec e d) as [E | E]; subst n.
      * simpl. discriminate.
      * rewrite He. intros H. injection H as ->. contradiction.
    + subst n. rewrite He. discriminate.
  - rewrite map_map. apply map_ext. intros n.
    destruct (m_pDepthBuffer (snd n)) as [e |]; [| reflexivity].
    destruct (e =? d); reflexivity.
  - intros n Hin Hn. apply in_map_iff. exists n. split; [| exact Hin].
    destruct (m_pDepthBuffer (snd n)) as [e |] eqn:He; [| reflexivity].
    destruct (Z.eqb_spec e d) as [E | E]; [| reflexivity].
    subst e. contradiction.
Qed.

(** ** [fillBufferInfo] *)

Lemma fillBufferInfo_loop_spec (g : Globals) (l : FrameBuffers) (size : Z) :
  forall idx pInfo,
    fillBufferInfo_loop g l size idx pInfo
    = pInfo ++ firstn (Z.to_nat (Z.max 1 (size - idx)))
                      (map info_of (filter (reported g) l)).
Proof.
  induction l as [| [p b] t IH]; intros idx pInfo; simpl.
  - rewrite firstn_nil, app_nil_r. reflexivity.
  - unfold reported at 1. cbn [snd].
    destruct ((m_width b =? VI_width g) && negb (m_cfb b)
              && negb (m_isDepthBuffer b)).
    + destruct (Z.to_nat (Z.max 1 (size - idx))) as [| k] eqn:Hk; [lia |].
      cbn [map firstn]. unfold info_of at 1. cbn [snd].
      destruct (Z.geb_spec (idx + 1) size) as [Hge | Hlt].
      * replace k with 0%nat by lia. rewrite firstn_O. reflexivity.
      * rewrite IH. rewrite <- app_assoc.
        replace (Z.to_nat (Z.max 1 (size - (idx + 1)))) with k by lia.
        reflexivity.
    + apply IH.
Qed.

(** X9: [fillBufferInfo] writes the records of the buffers that are as
    wide as the display and are neither CPU-written nor depth buffers, in
    list order, and stops after [_size] records.  The test [idx >= _size]
    comes after the write, so with [_size] zero the first such buffer is
    written all the same. *)
Theorem fillBufferInfo_spec (g : Globals) (l : FrameBuffers) (size : Z) :
  fillBufferInfo g l size
  = firstn (Z.to_nat (Z.max 1 size)) (map info_of (filter (reported g) l)).
Proof.
  unfold fillBufferInfo. rewrite fillBufferInfo_loop_spec.
  rewrite Z.sub_0_r. reflexivity.
Qed.

(** ** The buffer that [saveBuffer] binds *)

Lemma deref_update (p : Ptr) (f : FrameBuffer -> FrameBuffer)
  (l : FrameBuffers) :
  deref (update p f l) p = option_map f (deref l p).
Proof.
  induction l as [| [q b] t IH]; simpl; [reflexivity |].
  destruct (Nat.eqb q p) eqn:E; simpl; rewrite E; [reflexivity | exact IH].
Qed.

Lemma current_inv (st : Machine) (p : Ptr) (b : FrameBuffer) :
  current st = Some (p, b) ->
  m_pCurrent (frameBufferList st) = Some p
  /\ deref (m_list (frameBufferList st)) p = Some b.
Proof.
  unfold current. destruct (m_pCurrent (frameBufferList st)) as [q |];
    [| discriminate].
  destruct (deref (m_list (frameBufferList st)) q) as [c |] eqn:E;
    [| discriminate].
  intros H. injection H as -> ->. split; [reflexivity | exact E].
Qed.

Lemma current_intro (st : Machine) (p : Ptr) (b : FrameBuffer) :
  m_pCurrent (frameBufferList st) = Some p ->
  deref (m_list (frameBufferList st)) p = Some b ->
  current st = Some (p, b).
Proof. intros Hp Hd. unfold current. rewrite Hp, Hd. reflexivity. Qed.

(** [CopyFromRDRAM] leaves the registry, the allocator and the colour
    image alone. *)
Lemma CopyFromRDRAM_copy_frame (g : Globals) (a : Z) (cfb : bool)
  (st : Machine) :
  let st' := snd (CopyFromRDRAM_copy g a cfb st) in
  frameBufferList st' = frameBufferList st
  /\ heap_next st' = heap_next st
  /\ gDP_colorImage_height st' = gDP_colorImage_height st
  /\ gDP_colorImage_changed st' = gDP_colorImage_changed st.
Proof.
  unfold CopyFromRDRAM_copy.
  destruct (option_map _ (m_pCurBuffer (g_RDRAMtoFB st))) as [[b |] |];
    [| cbn; auto | cbn; auto].
  destruct (m_size b <? G_IM_SIZ_16b); [cbn; auto |].
  destruct ((m_startAddress b =? a) && _); [cbn; auto |].
  cbv zeta.
  destruct (_cutHeight _ _ _ _ =? 0); [cbn; auto |].
  destruct (negb (mapBufferRange_ok g)); [cbn; auto |].
  match goal with
  | |- context [if negb (fst ?c) then _ else _] => destruct (negb (fst c))
  end;
    destruct (negb cfb && m_changed b); cbn; auto.
Qed.

Lemma CopyFromRDRAM_frame (g : Globals) (a : Z) (cfb : bool) (st : Machine) :
  let st' := CopyFromRDRAM g a cfb st in
  frameBufferList st' = frameBufferList st
  /\ heap_next st' = heap_next st
  /\ gDP_colorImage_height st' = gDP_colorImage_height st
  /\ gDP_colorImage_changed st' = gDP_colorImage_changed st.
Proof.
  unfold CopyFromRDRAM, Cleaner_destructor, CopyFromRDRAM_body. cbv zeta.
  destruct (m_pCurBuffer (g_RDRAMtoFB st)).
  - destruct (empty (m_vecAddress (g_RDRAMtoFB st))); [cbn; auto |].
    pose proof (CopyFromRDRAM_copy_frame g a cfb st) as H. cbv zeta in H.
    cbn. exact H.
  - destruct (cfb || _).
    + match goal with
      | |- context [CopyFromRDRAM_copy g a cfb ?s] =>
          pose proof (CopyFromRDRAM_copy_frame g a cfb s) as H
      end.
      cbv zeta in H. cbn in *. exact H.
    + pose proof (CopyFromRDRAM_copy_frame g a cfb st) as H. cbv zeta in H.
      cbn. exact H.
Qed.

Lemma saveBuffer_lookup_post (g : Globals) (a fmt sz w : Z) (st : Machine) :
  bound_or_null a w (saveBuffer_lookup g a fmt sz w st).
Proof.
  unfold saveBuffer_lookup. cbv zeta.
  match goal with
  | |- context [match current ?s with Some _ => _ | None => set_pCurrent None _ end] =>
      set (st1 := s)
  end.
  destruct (current st1) as [[p b] |] eqn:Hcur; [| left; reflexivity].
  destruct (negb (m_startAddress b =? a)) eqn:Ha; [left; reflexivity |].
  destruct (negb (m_width b =? w)) eqn:Hw; [left; reflexivity |].
  cbn [orb].
  match goal with |- context [if ?c then _ else _] => destruct c end;
    [left; reflexivity |].
  destruct (current_inv st1 p b Hcur) as [Hp Hd].
  apply negb_false_iff, Z.eqb_eq in Ha, Hw.
  right. exists p.
  match goal with
  | |- context [update p (fun _ => fst ?c)] => set (changed := c)
  end.
  exists (fst changed). split; [| ].
  - apply current_intro.
    + cbn. exact Hp.
    + cbn. rewrite deref_update, Hd. reflexivity.
  - subst changed.
    destruct (negb (m_size (set_resolved false b) =? sz));
      [| cbn; auto].
    destruct (m_copiedToRdram _); [| cbn; auto].
    match goal with
    | |- context [copyRdram g ?x ?m] =>
        unfold copyRdram;
        destruct (_cutHeight _ _ _ _ =? 0); [cbn; auto |];
        destruct (isAuxiliary g x && _); cbn; auto
    end.
Qed.

Lemma saveBuffer_create_post (g : Globals) (a fmt sz w ht : Z) (cfb : bool)
  (st : Machine) :
  bound_or_null a w st ->
  exists p b,
    current (saveBuffer_create g a fmt sz w ht cfb st) = Some (p, b)
    /\ m_startAddress b = a /\ m_width b = w /\ m_resolved b = false.
Proof.
  intros H. unfold saveBuffer_create.
  destruct (m_pCurrent (frameBufferList st)) as [q |] eqn:Hq.
  - destruct H as [H | H]; [congruence | exact H].
  - cbv zeta.
    match goal with
    | |- context [if _ then CopyFromRDRAM g ?x false ?s else _] =>
        set (st1 := s);
        pose proof (CopyFromRDRAM_frame g x false st1) as (Hf & _)
    end.
    exists (heap_next st),
      (init g a
            (U32.wrap (a + I32.shr (I32.shl (I32.mul w ht) sz) 1 - 1))
            fmt sz w ht cfb FrameBuffer_new).
    split; [| cbn; auto].
    assert (Hc1 : current st1 = Some (heap_next st,
                    init g a
                      (U32.wrap
                         (a + I32.shr (I32.shl (I32.mul w ht) sz) 1 - 1))
                      fmt sz w ht cfb FrameBuffer_new)).
    { unfold current. subst st1. cbn [frameBufferList m_pCurrent m_list deref].
      rewrite Nat.eqb_refl. reflexivity. }
    destruct (_isMarioTennisScoreboard g _); [| exact Hc1].
    unfold current in *. rewrite Hf. exact Hc1.
Qed.

Lemma saveBuffer_finish_post (g : Globals) (a w : Z) (st : Machine)
  (p : Ptr) (b : FrameBuffer) :
  current st = Some (p, b) ->
  exists b',
    current (saveBuffer_finish g a st) = Some (p, b')
    /\ m_startAddress b' = m_startAddress b /\ m_width b' = m_width b
    /\ m_resolved b' = m_resolved b
    /\ m_isDepthBuffer b' = (a =? gDP_depthImageAddress g)
    /\ m_isPauseScreen b' = false /\ m_isOBScreen b' = false
    /\ m_postProcessed b' = 0.
Proof.
  intros Hcur. unfold saveBuffer_finish. cbv zeta.
  assert (H1 : exists b1,
             current (if a =? gDP_depthImageAddress g then st
                      else attachDepthBuffer g st) = Some (p, b1)
             /\ m_startAddress b1 = m_startAddress b
             /\ m_width b1 = m_width b /\ m_resolved b1 = m_resolved b).
  { destruct (a =? gDP_depthImageAddress g).
    - exists b. auto.
    - unfold attachDepthBuffer. rewrite Hcur.
      destruct (current_inv st p b Hcur) as [Hp Hd].
      eexists. split.
      + apply current_intro; [cbn; exact Hp |].
        cbn. rewrite deref_update, Hd. reflexivity.
      + cbn. auto. }
  destruct H1 as (b1 & Hc1 & Hs1 & Hw1 & Hr1).
  destruct (current_inv _ p b1 Hc1) as [Hp1 Hd1].
  rewrite Hp1. eexists. split.
  - apply current_intro; [cbn; exact Hp1 |].
    cbn. rewrite deref_update, Hd1. reflexivity.
  - cbn. auto 10.
Qed.

(** X10: what every call of [saveBuffer] leaves bound.  With [VI.width]
    zero or a zero height, [m_pCurrent] is null.  Otherwise [m_pCurrent]
    points to a live buffer that starts at [_address] and is [_width]
    pixels wide, whatever the registry held and whatever the host copied
    before; its [m_resolved], [m_isPauseScreen] and [m_isOBScreen] are
    false, [m_postProcessed] is 0, and [m_isDepthBuffer] tells whether
    [_address] is the address of the depth image. *)
Theorem saveBuffer_binds (g : Globals) (h : Host) (a fmt sz w ht : Z)
  (cfb : bool) (st : Machine) :
  let st' := saveBuffer g h a fmt sz w ht cfb st in
  (VI_width g = 0 \/ ht = 0 -> m_pCurrent (frameBufferList st') = None)
  /\ (VI_width g <> 0 -> ht <> 0 ->
      exists p b,
        current st' = Some (p, b)
        /\ m_startAddress b = a /\ m_width b = w
        /\ m_resolved b = false
        /\ m_isDepthBuffer b = (a =? gDP_depthImageAddress g)
        /\ m_isPauseScreen b = false /\ m_isOBScreen b = false
        /\ m_postProcessed b = 0).
Proof.
  cbv zeta. unfold saveBuffer. cbv zeta. split.
  - intros H.
    assert (E : (VI_width g =? 0) || (ht =? 0) = true).
    { destruct H as [-> | ->]; [reflexivity | apply orb_true_r]. }
    rewrite E. reflexivity.
  - intros Hv Hh.
    apply Z.eqb_neq in Hv, Hh. rewrite Hv, Hh. cbn [orb].
    destruct (saveBuffer_create_post g a fmt sz w ht cfb _
                (saveBuffer_lookup_post g a fmt sz w
                   (saveBuffer_resolveCurrent g (saveBuffer_flushAux g h st))))
      as (p & b & Hc & Hs & Hw & Hr).
    destruct (saveBuffer_finish_post g a w _ p b Hc)
      as (b' & Hc' & Hs' & Hw' & Hr' & Hflags).
    exists p, b'. split; [exact Hc' |].
    rewrite Hs', Hw', Hr'. auto.
Qed.

Lemma saveBuffer_binds_witness :
  exists p b,
    current (saveBuffer frame7 (host_gles2 frame7 true) 0x100000 0 2 32 16 false
               (Machine_init (fun _ => 0) 16)) = Some (p, b)
    /\ m_startAddress b = 0x100000 /\ m_width b = 32
    /\ m_resolved b = false
    /\ m_isDepthBuffer b = (0x100000 =? gDP_depthImageAddress frame7)
    /\ m_isPauseScreen b = false /\ m_isOBScreen b = false
    /\ m_postProcessed b = 0.
Proof.
  apply (proj2 (saveBuffer_binds frame7 (host_gles2 frame7 true) 0x100000 0 2 32 16 false
                  (Machine_init (fun _ => 0) 16))).
  - vm_compute. discriminate.
  - lia.
Defined.

(** ** [_cutHeight] on every 32-bit input *)

(** X11: for every 32-bit address, height and stride, clipped or not,
    wrapping or not, the height that [_cutHeight] returns is between 0 and
    the height it got.  A zero stride never reaches the division.  When
    the address is inside guest memory and the height was changed, the
    result is the largest number of whole rows that end at or before the
    last byte of guest memory. *)
Theorem cutHeight_never_grows (R a h s : Z) :
  0 <= R < U32.modulus - 1 ->
  U32.in_range a -> U32.in_range h -> U32.in_range s ->
  0 <= _cutHeight R a h s <= h
  /\ (s = 0 -> _cutHeight R a h s = if a >? R then 0 else h)
  /\ (a <= R -> _cutHeight R a h s <> h ->
      0 < s
      /\ a + s * _cutHeight R a h s <= R + 1
      /\ R + 1 < a + s * (_cutHeight R a h s + 1)).
Proof.
  unfold U32.in_range. rewrite modulus_value.
  intros HR Ha Hh Hs. unfold _cutHeight.
  destruct (Z.gtb_spec a R) as [Hout | Hin].
  - split; [lia |]. split; [reflexivity | lia].
  - assert (HR1 : U32.add R 1 = R + 1)
      by (unfold U32.add; apply wrap_small; unfold U32.in_range;
          rewrite modulus_value; lia).
    assert (Hsub : U32.sub (U32.add R 1) a = R + 1 - a)
      by (rewrite HR1; unfold U32.sub; apply wrap_small;
          unfold U32.in_range; rewrite modulus_value; lia).
    rewrite Hsub, HR1.
    destruct (Z.eq_dec s 0) as [-> | Hs0].
    + assert (E : U32.add a (U32.mul 0 h) = a).
      { unfold U32.mul, U32.add. rewrite Z.mul_0_l.
        unfold U32.wrap at 2. rewrite Z.mod_0_l by (rewrite modulus_value; lia).
        rewrite Z.add_0_r. apply wrap_small. unfold U32.in_range.
        rewrite modulus_value. lia. }
      rewrite E. destruct (Z.gtb_spec a (R + 1)) as [Hgt | _]; [lia |].
      split; [lia |]. split; [reflexivity | intros _ Hne; lia].
    + destruct (Z.gtb_spec (U32.add a (U32.mul s h)) (R + 1)) as [Hcut | Hfit].
      * unfold U32.div.
        assert (Hq : (R + 1 - a) / s <= h).
        { destruct (Z.le_gt_cases ((R + 1 - a) / s) h) as [Hle | Hgt];
            [exact Hle | exfalso].
          assert (Hm : s * ((R + 1 - a) / s) <= R + 1 - a)
            by (apply Z.mul_div_le; lia).
          assert (Hsh : s * h + s <= R + 1 - a) by nia.
          assert (E1 : U32.mul s h = s * h)
            by (unfold U32.mul; apply wrap_small; unfold U32.in_range;
                rewrite modulus_value; nia).
          assert (E2 : U32.add a (s * h) = a + s * h)
            by (unfold U32.add; apply wrap_small; unfold U32.in_range;
                rewrite modulus_value; nia).
          rewrite E1, E2 in Hcut. lia. }
        assert (Hq0 : 0 <= (R + 1 - a) / s) by (apply Z.div_pos; lia).
        split; [lia |]. split; [intros E; contradiction |].
        intros _ _. split; [lia |].
        pose proof (Z.mul_div_le (R + 1 - a) s ltac:(lia)).
        pose proof (Z.mul_succ_div_gt (R + 1 - a) s ltac:(lia)).
        lia.
      * split; [lia |]. split; [intros E; contradiction |].
        intros _ Hne. contradiction.
Qed.

Lemma cutHeight_never_grows_witness :
  0 <= _cutHeight 0x7FFFFF 0x7FFF00 240 640 <= 240
  /\ 0x7FFF00 + 640 * _cutHeight 0x7FFFFF 0x7FFF00 240 640 <= 0x7FFFFF + 1.
Proof.
  assert (HR : 0 <= 0x7FFFFF < U32.modulus - 1)
    by (rewrite modulus_value; lia).
  assert (Ha : U32.in_range 0x7FFF00)
    by (unfold U32.in_range; rewrite modulus_value; lia).
  assert (Hh : U32.in_range 240)
    by (unfold U32.in_range; rewrite modulus_value; lia).
  assert (Hs : U32.in_range 640)
    by (unfold U32.in_range; rewrite modulus_value; lia).
  destruct (cutHeight_never_grows 0x7FFFFF 0x7FFF00 240 640 HR Ha Hh Hs)
    as (H1 & _ & H3).
  split; [exact H1 |].
  apply H3; [lia | vm_compute; discriminate].
Defined.

(** ** Pixel conversions *)

Lemma byte_split (c : Z) :
  0 <= c < 2 ^ 32 ->
  c = RGBA_a c * 2 ^ 24 + RGBA_b c * 2 ^ 16 + RGBA_g c * 2 ^ 8 + RGBA_r c
  /\ 0 <= RGBA_r c < 256 /\ 0 <= RGBA_g c < 256
  /\ 0 <= RGBA_b c < 256 /\ 0 <= RGBA_a c < 256.
Proof.
  intros Hc. unfold RGBA_r, RGBA_g, RGBA_b, RGBA_a.
  rewrite !land_byte, !Z.shiftr_div_pow2 by lia.
  change (2 ^ 24) with 16777216. change (2 ^ 16) with 65536.
  change (2 ^ 8) with 256. change (2 ^ 32) with 4294967296 in Hc.
  repeat split; Z.div_mod_to_equations; lia.
Qed.

Lemma RGBAtoRGBA32_value (c : Z) :
  0 <= c < 2 ^ 32 ->
  _RGBAtoRGBA32 c
  = RGBA_r c * 2 ^ 24 + RGBA_g c * 2 ^ 16 + RGBA_b c * 2 ^ 8 + RGBA_a c.
Proof.
  intros Hc. destruct (byte_split c Hc) as (_ & Hr & Hg & Hb & Ha).
  unfold _RGBAtoRGBA32. apply lor4_value; assumption.
Qed.

(** X20: [_RGBAtoRGBA32] reverses the four bytes of a pixel: its result is
    a 32-bit value, and applying it twice gives the pixel back. *)
Theorem RGBAtoRGBA32_involutive (c : Z) :
  0 <= c < 2 ^ 32 ->
  0 <= _RGBAtoRGBA32 c < 2 ^ 32
  /\ _RGBAtoRGBA32 (_RGBAtoRGBA32 c) = c.
Proof.
  intros Hc. destruct (byte_split c Hc) as (Hsplit & Hr & Hg & Hb & Ha).
  rewrite (RGBAtoRGBA32_value c Hc).
  assert (Hrange : 0 <= RGBA_r c * 2 ^ 24 + RGBA_g c * 2 ^ 16
                        + RGBA_b c * 2 ^ 8 + RGBA_a c < 2 ^ 32) by lia.
  split; [exact Hrange |].
  rewrite (RGBAtoRGBA32_value _ Hrange).
  destruct (bytes_of_value (RGBA_r c) (RGBA_g c) (RGBA_b c) (RGBA_a c)
              Hr Hg Hb Ha) as (Er & Eg & Eb & Ea).
  cbv zeta in Er, Eg, Eb, Ea. rewrite Er, Eg, Eb, Ea. lia.
Qed.

Lemma RGBAtoRGBA32_involutive_witness :
  _RGBAtoRGBA32 (_RGBAtoRGBA32 0x11223344) = 0x11223344.
Proof. apply (RGBAtoRGBA32_involutive 0x11223344). lia. Defined.

Lemma land_31 (x : Z) : Z.land x 31 = x mod 32.
Proof. change 31 with (Z.ones 5). rewrite Z.land_ones by lia. reflexivity. Qed.

Lemma land_1 (x : Z) : Z.land x 1 = x mod 2.
Proof. change 1 with (Z.ones 1). rewrite Z.land_ones by lia. reflexivity. Qed.

(** The channels of a 16-bit guest pixel. *)
Lemma rgba16_split (col : Z) :
  0 <= col < 2 ^ 16 ->
  col = channel5 col 11 * 2 ^ 11 + channel5 col 6 * 2 ^ 6
        + channel5 col 1 * 2 + Z.land col 1
  /\ 0 <= channel5 col 11 < 32 /\ 0 <= channel5 col 6 < 32
  /\ 0 <= channel5 col 1 < 32 /\ 0 <= Z.land col 1 < 2.
Proof.
  intros Hc. unfold channel5.
  rewrite !land_31, land_1, !Z.shiftr_div_pow2 by lia.
  change (2 ^ 11) with 2048. change (2 ^ 6) with 64.
  change (2 ^ 1) with 2. change (2 ^ 16) with 65536 in Hc.
  repeat split; Z.div_mod_to_equations; lia.
Qed.

Lemma shl3_channel (x : Z) : 0 <= x < 32 -> U32.shl x 3 = x * 8.
Proof.
  intros Hx. unfold U32.shl. rewrite Z.shiftl_mul_pow2 by lia.
  change (2 ^ 3) with 8. apply wrap_small. unfold U32.in_range.
  rewrite modulus_value. lia.
Qed.

Lemma lor3_zero (r g b : Z) :
  0 <= r -> 0 <= g -> 0 <= b ->
  (Z.lor (Z.lor r g) b >? 0) = negb ((r =? 0) && (g =? 0) && (b =? 0)).
Proof.
  intros Hr Hg Hb.
  assert (Hnn : 0 <= Z.lor (Z.lor r g) b) by (rewrite !Z.lor_nonneg; lia).
  pose proof (Z.lor_eq_0_iff (Z.lor r g) b) as H1.
  pose proof (Z.lor_eq_0_iff r g) as H2.
  destruct (Z.gtb_spec (Z.lor (Z.lor r g) b) 0) as [Hpos | Hz];
    destruct (Z.eqb_spec r 0); destruct (Z.eqb_spec g 0);
    destruct (Z.eqb_spec b 0); simpl; try reflexivity; exfalso.
  - assert (Z.lor (Z.lor r g) b = 0) by (apply H1; split; [apply H2 |]; auto).
    lia.
  - assert (E : Z.lor (Z.lor r g) b = 0) by lia. apply H1 in E.
    destruct E as [E _]. apply H2 in E. lia.
  - assert (E : Z.lor (Z.lor r g) b = 0) by lia. apply H1 in E.
    destruct E as [E _]. apply H2 in E. lia.
  - assert (E : Z.lor (Z.lor r g) b = 0) by lia. apply H1 in E.
    destruct E as [E _]. apply H2 in E. lia.
  - assert (E : Z.lor (Z.lor r g) b = 0) by lia. apply H1 in E.
    destruct E as [E _]. apply H2 in E. lia.
  - assert (E : Z.lor (Z.lor r g) b = 0) by lia. apply H1 in E. lia.
  - assert (E : Z.lor (Z.lor r g) b = 0) by lia. apply H1 in E. lia.
  - assert (E : Z.lor (Z.lor r g) b = 0) by lia. apply H1 in E. lia.
Qed.

(** The host pixel of a 16-bit guest pixel: every channel is its five bits
    times 8, the alpha byte is 0 or 255. *)
Lemma RGBA16ToABGR32_value (col : Z) (cfb : bool) :
  0 <= col < 2 ^ 16 ->
  let a := if cfb then 255
           else if (Z.land col 1 >? 0)
                   && negb ((channel5 col 11 =? 0) && (channel5 col 6 =? 0)
                            && (channel5 col 1 =? 0))
                then 255 else 0 in
  RGBA16ToABGR32 col cfb
  = a * 2 ^ 24 + (channel5 col 1 * 8) * 2 ^ 16
    + (channel5 col 6 * 8) * 2 ^ 8 + channel5 col 11 * 8.
Proof.
  intros Hc a.
  destruct (rgba16_split col Hc) as (_ & Hr & Hg & Hb & Ha).
  unfold RGBA16ToABGR32. fold (channel5 col 11). fold (channel5 col 6).
  fold (channel5 col 1).
  rewrite !shl3_channel by assumption.
  rewrite lor3_zero by lia.
  replace (channel5 col 11 * 8 =? 0) with (channel5 col 11 =? 0)
    by (destruct (Z.eqb_spec (channel5 col 11) 0);
        destruct (Z.eqb_spec (channel5 col 11 * 8) 0); lia || reflexivity).
  replace (channel5 col 6 * 8 =? 0) with (channel5 col 6 =? 0)
    by (destruct (Z.eqb_spec (channel5 col 6) 0);
        destruct (Z.eqb_spec (channel5 col 6 * 8) 0); lia || reflexivity).
  replace (channel5 col 1 * 8 =? 0) with (channel5 col 1 =? 0)
    by (destruct (Z.eqb_spec (channel5 col 1) 0);
        destruct (Z.eqb_spec (channel5 col 1 * 8) 0); lia || reflexivity).
  fold a.
  assert (Haa : 0 <= a < 256).
  { subst a. destruct cfb; [lia |].
    destruct ((Z.land col 1 >? 0) && _); lia. }
  apply lor4_value; lia.
Qed.

Lemma shr3_channel (x : Z) : 0 <= x < 32 -> Z.shiftr (x * 8) 3 = x.
Proof.
  intros Hx. rewrite Z.shiftr_div_pow2 by lia. change (2 ^ 3) with 8.
  apply Z.div_mul. lia.
Qed.

Lemma rgba16_pack (r g b a : Z) :
  0 <= r < 32 -> 0 <= g < 32 -> 0 <= b < 32 -> 0 <= a < 2 ->
  Z.lor (Z.lor (Z.lor (Z.shiftl r 11) (Z.shiftl g 6)) (Z.shiftl b 1)) a
  = r * 2 ^ 11 + g * 2 ^ 6 + b * 2 + a.
Proof.
  intros Hr Hg Hb Ha. rewrite !Z.shiftl_mul_pow2 by lia.
  rewrite (lor_add r (g * 2 ^ 6) 11) by lia.
  replace (r * 2 ^ 11 + g * 2 ^ 6) with ((r * 2 ^ 5 + g) * 2 ^ 6) by lia.
  rewrite (lor_add _ (b * 2 ^ 1) 6) by lia.
  replace ((r * 2 ^ 5 + g) * 2 ^ 6 + b * 2 ^ 1)
    with ((r * 2 ^ 10 + g * 2 ^ 5 + b) * 2 ^ 1) by lia.
  rewrite (lor_add _ a 1) by lia. lia.
Qed.

(** X17: decoding a 16-bit guest pixel with [RGBA16ToABGR32] and encoding
    the result with [_RGBAtoRGBA16] gives the pixel back when [_bCFB] is
    false, except for the pixel [0x0001] (alpha set, colour black), which
    comes back as 0; with [_bCFB] true it gives the pixel with its alpha
    bit set. *)
Theorem rgba16_round_trip (col : Z) (cfb : bool) :
  0 <= col < 2 ^ 16 ->
  _RGBAtoRGBA16 (RGBA16ToABGR32 col cfb)
  = if cfb then Z.lor col 1 else if col =? 1 then 0 else col.
Proof.
  intros Hc. rewrite (RGBA16ToABGR32_value col cfb Hc). cbv zeta.
  destruct (rgba16_split col Hc) as (Hsplit & Hr & Hg & Hb & Ha).
  set (a := if cfb then 255 else _).
  assert (Haa : 0 <= a < 256).
  { subst a. destruct cfb; [lia |].
    destruct ((Z.land col 1 >? 0) && _); lia. }
  destruct (bytes_of_value a (channel5 col 1 * 8) (channel5 col 6 * 8)
              (channel5 col 11 * 8) Haa ltac:(lia) ltac:(lia) ltac:(lia))
    as (Er & Eg & Eb & Ea).
  cbv zeta in Er, Eg, Eb, Ea.
  unfold _RGBAtoRGBA16. rewrite Er, Eg, Eb, Ea.
  rewrite !shr3_channel by assumption.
  rewrite rgba16_pack by (try assumption; destruct (a =? 0); lia).
  destruct cfb.
  - subst a. simpl (255 =? 0). cbv iota.
    replace (Z.lor col 1) with (col - Z.land col 1 + 1); [lia |].
    rewrite land_1.
    replace col with ((col / 2) * 2 ^ 1 + col mod 2) at 3
      by (change (2 ^ 1) with 2; Z.div_mod_to_equations; lia).
    pose proof (Z.mod_pos_bound col 2 ltac:(lia)).
    destruct (Z.eq_dec (col mod 2) 0) as [E | E].
    + rewrite E, Z.add_0_r, (lor_add (col / 2) 1 1) by lia.
      change (2 ^ 1) with 2. Z.div_mod_to_equations. lia.
    + replace (col mod 2) with 1 by lia.
      rewrite <- (lor_add (col / 2) 1 1) by lia.
      rewrite <- Z.lor_assoc. change (Z.lor 1 1) with 1.
      rewrite (lor_add (col / 2) 1 1) by lia.
      change (2 ^ 1) with 2. Z.div_mod_to_equations. lia.
  - subst a.
    destruct (Z.gtb_spec (Z.land col 1) 0) as [Hodd | Heven]; cbn [andb].
    + destruct (Z.eqb_spec (channel5 col 11) 0) as [E11 | E11];
        destruct (Z.eqb_spec (channel5 col 6) 0) as [E6 | E6];
        destruct (Z.eqb_spec (channel5 col 1) 0) as [E1 | E1];
        cbn [andb negb]; simpl (_ =? 0); cbv iota;
        destruct (Z.eqb_spec col 1) as [Ec | Ec]; lia.
    + simpl (0 =? 0). cbv iota.
      destruct (Z.eqb_spec col 1) as [Ec | Ec];
        [subst col; vm_compute in Heven; lia | lia].
Qed.

Lemma rgba16_round_trip_witness :
  _RGBAtoRGBA16 (RGBA16ToABGR32 0x8421 false) = 0x8421.
Proof. apply (rgba16_round_trip 0x8421 false). lia. Defined.

(** X19: encoding a 32-bit host pixel with [_RGBAtoRGBA32] and decoding
    the result with [RGBA32ToABGR32] gives the pixel back when [_bCFB] is
    false and one of its colour bytes is not zero; with the three colour
    bytes zero it gives 0, and with [_bCFB] true it gives the pixel with
    its alpha byte replaced by [0xFF]. *)
Theorem rgba32_host_round_trip (c : Z) (cfb : bool) :
  0 <= c < 2 ^ 32 ->
  RGBA32ToABGR32 (_RGBAtoRGBA32 c) cfb
  = if cfb then c mod 2 ^ 24 + 255 * 2 ^ 24
    else if c mod 2 ^ 24 =? 0 then 0 else c.
Proof.
  intros Hc. destruct (byte_split c Hc) as (Hsplit & Hr & Hg & Hb & Ha).
  rewrite (RGBAtoRGBA32_value c Hc).
  destruct (bytes_of_value (RGBA_r c) (RGBA_g c) (RGBA_b c) (RGBA_a c)
              Hr Hg Hb Ha) as (Er & Eg & Eb & Ea).
  cbv zeta in Er, Eg, Eb, Ea.
  set (col := RGBA_r c * 2 ^ 24 + RGBA_g c * 2 ^ 16 + RGBA_b c * 2 ^ 8
              + RGBA_a c) in *.
  unfold RGBA32ToABGR32.
  change (Z.land (Z.shiftr col 24) 255) with (RGBA_a col).
  change (Z.land (Z.shiftr col 16) 255) with (RGBA_b col).
  change (Z.land (Z.shiftr col 8) 255) with (RGBA_g col).
  change (Z.land col 255) with (RGBA_r col).
  rewrite Er, Eg, Eb, Ea.
  rewrite lor3_zero by lia.
  assert (Hlow : c mod 2 ^ 24
                 = RGBA_b c * 2 ^ 16 + RGBA_g c * 2 ^ 8 + RGBA_r c).
  { rewrite Hsplit at 1.
    replace (RGBA_a c * 2 ^ 24 + RGBA_b c * 2 ^ 16 + RGBA_g c * 2 ^ 8
             + RGBA_r c)
      with ((RGBA_b c * 2 ^ 16 + RGBA_g c * 2 ^ 8 + RGBA_r c)
            + RGBA_a c * 2 ^ 24) by lia.
    rewrite Z.mod_add by lia. apply Z.mod_small. lia. }
  destruct cfb.
  - rewrite lor4_value by lia. lia.
  - destruct (Z.eqb_spec (RGBA_r c) 0) as [E1 | E1];
      destruct (Z.eqb_spec (RGBA_g c) 0) as [E2 | E2];
      destruct (Z.eqb_spec (RGBA_b c) 0) as [E3 | E3];
      cbn [andb negb]; rewrite lor4_value by lia;
      destruct (Z.eqb_spec (c mod 2 ^ 24) 0) as [E | E]; lia.
Qed.

Lemma rgba32_host_round_trip_witness :
  RGBA32ToABGR32 (_RGBAtoRGBA32 0x80112233) false = 0x80112233.
Proof. apply (rgba32_host_round_trip 0x80112233 false). lia. Defined.

Lemma RGBAtoRGBA16_value (c : Z) :
  0 <= c < 2 ^ 32 ->
  let col := _RGBAtoRGBA16 c in
  0 <= col < 2 ^ 16
  /\ channel5 col 11 = RGBA_r c / 8 /\ channel5 col 6 = RGBA_g c / 8
  /\ channel5 col 1 = RGBA_b c / 8
  /\ Z.land col 1 = if RGBA_a c =? 0 then 0 else 1.
Proof.
  intros Hc. destruct (byte_split c Hc) as (_ & Hr & Hg & Hb & Ha).
  cbv zeta. unfold _RGBAtoRGBA16.
  rewrite !Z.shiftr_div_pow2 by lia. change (2 ^ 3) with 8.
  set (r := RGBA_r c / 8). set (g := RGBA_g c / 8). set (b := RGBA_b c / 8).
  set (a := if RGBA_a c =? 0 then 0 else 1).
  assert (Hr5 : 0 <= r < 32) by (subst r; Z.div_mod_to_equations; lia).
  assert (Hg5 : 0 <= g < 32) by (subst g; Z.div_mod_to_equations; lia).
  assert (Hb5 : 0 <= b < 32) by (subst b; Z.div_mod_to_equations; lia).
  assert (Ha1 : 0 <= a < 2) by (subst a; destruct (RGBA_a c =? 0); lia).
  rewrite rgba16_pack by assumption.
  unfold channel5. rewrite !land_31, land_1, !Z.shiftr_div_pow2 by lia.
  change (2 ^ 11) with 2048. change (2 ^ 6) with 64. change (2 ^ 1) with 2.
  change (2 ^ 16) with 65536.
  repeat split; Z.div_mod_to_equations; lia.
Qed.

(** X18: what is left of a 32-bit host pixel after [_RGBAtoRGBA16] and
    [RGBA16ToABGR32]: every colour byte loses its three low bits, and the
    alpha byte becomes [0xFF] when [_bCFB] is true, or when the alpha byte
    was not zero and one of the shortened colour bytes is not zero, and 0
    otherwise. *)
Theorem rgba16_host_round_trip (c : Z) (cfb : bool) :
  0 <= c < 2 ^ 32 ->
  let a := if cfb then 255
           else if negb (RGBA_a c =? 0)
                   && negb ((RGBA_r c / 8 =? 0) && (RGBA_g c / 8 =? 0)
                            && (RGBA_b c / 8 =? 0))
                then 255 else 0 in
  RGBA16ToABGR32 (_RGBAtoRGBA16 c) cfb
  = a * 2 ^ 24 + (RGBA_b c / 8 * 8) * 2 ^ 16 + (RGBA_g c / 8 * 8) * 2 ^ 8
    + RGBA_r c / 8 * 8.
Proof.
  intros Hc a.
  destruct (RGBAtoRGBA16_value c Hc) as (Hcol & Er & Eg & Eb & Ea).
  cbv zeta in Hcol, Er, Eg, Eb, Ea.
  rewrite (RGBA16ToABGR32_value _ cfb Hcol). cbv zeta.
  rewrite Er, Eg, Eb, Ea. subst a.
  destruct cfb; [reflexivity |].
  destruct (RGBA_a c =? 0); reflexivity.
Qed.

Lemma rgba16_host_round_trip_witness :
  RGBA16ToABGR32 (_RGBAtoRGBA16 0xFF0A141F) false = 0xFF081018.
Proof. apply (rgba16_host_round_trip 0xFF0A141F false). lia. Defined.

(** ** Validity: what the check reads and what the capture writes *)

Lemma count_wrong_cleared_masked (m m' : Memory) (color : Z) (n : nat) :
  same_masked m m' ->
  forall i acc,
    count_wrong_cleared m color i n acc = count_wrong_cleared m' color i n acc.
Proof.
  intros H. induction n as [| n IH]; intros i acc; simpl; [reflexivity |].
  rewrite (H i). apply IH.
Qed.

Lemma check_fingerprint_masked (fp : Z -> Z) (m m' : Memory) (n : nat) :
  same_masked m m' ->
  forall start i,
    check_fingerprint fp m start i n = check_fingerprint fp m' start i n.
Proof.
  intros H. induction n as [| n IH]; intros start i; simpl; [reflexivity |].
  rewrite (H start), IH. reflexivity.
Qed.

Lemma count_wrong_copy_masked (m m' : Memory) (copy : list Z) (n : nat) :
  same_masked m m' ->
  forall start i acc,
    count_wrong_copy m copy start i n acc
    = count_wrong_copy m' copy start i n acc.
Proof.
  intros H. induction n as [| n IH]; intros start i acc; simpl;
    [reflexivity |].
  rewrite (H start). apply IH.
Qed.

(** X13: [isValid] reads guest memory only through words masked with
    [0xFFFEFFFE]: two memories whose 32-bit words agree but for the low
    bit of each 16-bit half get the same answer, for every buffer. *)
Theorem isValid_masked (g : Globals) (m m' : Memory) (b : FrameBuffer) :
  same_masked m m' -> isValid g m b = isValid g m' b.
Proof.
  intros H. unfold isValid.
  destruct (m_validityChecked b =? buffersSwapCount g); [reflexivity |].
  destruct (m_cleared b).
  - cbv zeta. rewrite (count_wrong_cleared_masked m m' _ _ H). reflexivity.
  - destruct (m_fingerprint b).
    + apply check_fingerprint_masked. exact H.
    + destruct (negb (empty (m_RdramCopy b))); [| reflexivity].
      cbv zeta. rewrite (count_wrong_copy_masked m m' _ _ H). reflexivity.
Qed.

Lemma alpha_bit_masked : same_masked (fun _ => 0) alpha_bit_set.
Proof.
  intros i. unfold pData, load32, load8, alpha_bit_set.
  destruct (Z.eqb_spec (4 * i) 0x100000) as [E | E].
  - replace (4 * i + 1 =? 1048576) with false
      by (symmetry; apply Z.eqb_neq; lia).
    replace (4 * i + 2 =? 1048576) with false
      by (symmetry; apply Z.eqb_neq; lia).
    replace (4 * i + 3 =? 1048576) with false
      by (symmetry; apply Z.eqb_neq; lia).
    reflexivity.
  - replace (4 * i + 1 =? 1048576) with false
      by (symmetry; apply Z.eqb_neq; lia).
    replace (4 * i + 2 =? 1048576) with false
      by (symmetry; apply Z.eqb_neq; lia).
    replace (4 * i + 3 =? 1048576) with false
      by (symmetry; apply Z.eqb_neq; lia).
    reflexivity.
Qed.

Lemma isValid_masked_witness :
  isValid frame7 (fun _ => 0) stale_buffer
  = isValid frame7 alpha_bit_set stale_buffer.
Proof. apply (isValid_masked frame7 _ _ stale_buffer alpha_bit_masked). Defined.

(** ** What [copyRdram] writes *)

(** X12: what [copyRdram] writes.  On the snapshot path guest memory is
    left as it is.  On the path of an auxiliary buffer that the policy does
    not flush, the words from index [m_startAddress >> 2] on, as many as
    [dataSize / 200], are overwritten: the first four with the
    fingerprint, the others with 0; every other word is left as it is. *)
Theorem copyRdram_memory (g : Globals) (b : FrameBuffer) (m : Memory) :
  U32.in_range (m_startAddress b) ->
  let stride := U32.shr (U32.shl (m_width b) (m_size b)) 1 in
  let height :=
    _cutHeight (RDRAMSize g) (m_startAddress b) (m_height b) stride in
  let first := U32.shr (m_startAddress b) 2 in
  let twoPercent := U32.div (U32.mul stride height) 200 in
  (isAuxiliary g b && (config_copyAuxToRDRAM g =? 0) = false ->
   snd (copyRdram g b m) = m)
  /\ (isAuxiliary g b && (config_copyAuxToRDRAM g =? 0) = true ->
      forall j,
        pData (snd (copyRdram g b m)) j
        = if (first <=? j) && (j <? first + twoPercent)
          then if j - first <? 4 then U32.wrap (fingerprint g (j - first))
               else 0
          else pData m j).
Proof.
  intros Hstart stride height first twoPercent.
  pose proof (shr2_range (m_startAddress b) Hstart) as Hs30.
  change (2 ^ 30) with 1073741824 in Hs30. fold first in Hs30.
  assert (Hds : 0 <= U32.mul stride height < U32.modulus)
    by (apply Z.mod_pos_bound; unfold U32.modulus; lia).
  assert (Htp : 0 <= twoPercent < 2 ^ 25).
  { subst twoPercent. unfold U32.div. rewrite modulus_value in Hds.
    change (2 ^ 25) with 33554432. Z.div_mod_to_equations. lia. }
  change (2 ^ 25) with 33554432 in Htp.
  unfold copyRdram. fold stride. fold height. fold first.
  split.
  - intros Hpath. destruct (height =? 0); [reflexivity |].
    rewrite Hpath. reflexivity.
  - intros Hpath j. destruct (Z.eqb_spec height 0) as [E | E].
    + cbn [snd].
      assert (E0 : twoPercent = 0).
      { subst twoPercent. rewrite E. unfold U32.mul, U32.div, U32.wrap.
        rewrite Z.mul_0_r, Z.mod_0_l by (rewrite modulus_value; lia).
        reflexivity. }
      rewrite E0.
      replace ((first <=? j) && (j <? first + 0)) with false; [reflexivity |].
      symmetry. apply andb_false_iff.
      destruct (Z.leb_spec first j); [right; apply Z.ltb_ge; lia |].
      left. reflexivity.
    + rewrite Hpath. cbn [snd]. fold twoPercent.
      rewrite write_fingerprint_spec
        by (rewrite ?Z2Nat.id, ?modulus_value; lia).
      rewrite Z2Nat.id by lia. cbn [Z.add].
      destruct ((first <=? j) && (j <? first + twoPercent)); [| reflexivity].
      replace (0 + (j - first)) with (j - first) by lia.
      destruct (j - first <? 4); [reflexivity |].
      unfold U32.wrap. apply Z.mod_0_l. rewrite modulus_value. lia.
Qed.

Lemma copyRdram_memory_witness :
  pData (snd (copyRdram frame7 aux_buffer (fun _ => 255)))
        (U32.shr (m_startAddress aux_buffer) 2 + 4) = 0.
Proof.
  assert (Hs : U32.in_range (m_startAddress aux_buffer))
    by (unfold U32.in_range; rewrite modulus_value; vm_compute;
        split; [discriminate | reflexivity]).
  destruct (copyRdram_memory frame7 aux_buffer (fun _ => 255) Hs)
    as [_ Hstamp].
  cbv zeta in Hstamp. rewrite Hstamp; [| vm_compute; reflexivity].
  vm_compute. reflexivity.
Defined.

(** ** The check of a cleared buffer *)

Lemma count_wrong_cleared_none (m : Memory) (color : Z) (n : nat) :
  forall i acc,
    (forall k, i <= k < i + Z.of_nat n ->
               Z.land (pData m k) validity_mask = color) ->
    count_wrong_cleared m color i n acc = acc.
Proof.
  induction n as [| n IH]; intros i acc H; simpl; [reflexivity |].
  rewrite (H i) by lia. rewrite Z.eqb_refl. cbn [negb].
  apply IH. intros k Hk. apply H. lia.
Qed.

(** X14: a cleared buffer whose words from index [m_startAddress >> 2] to
    [m_endAddress >> 2] all hold the fill colour, the low bit of each
    16-bit half apart, is reported valid by a check not yet made in this
    frame exactly when [m_endAddress - m_startAddress] is at least 400. *)
Theorem isValid_cleared (g : Globals) (m : Memory) (b : FrameBuffer) :
  m_validityChecked b <> buffersSwapCount g ->
  m_cleared b = true ->
  (forall k, U32.shr (m_startAddress b) 2 <= k < U32.shr (m_endAddress b) 2 ->
             Z.land (pData m k) validity_mask
             = Z.land (m_fillcolor b) validity_mask) ->
  isValid g m b
  = (400 <=? U32.sub (m_endAddress b) (m_startAddress b)).
Proof.
  intros Hnc Hcl Hfill. unfold isValid.
  destruct (Z.eqb_spec (m_validityChecked b) (buffersSwapCount g));
    [contradiction |].
  rewrite Hcl. cbv zeta.
  rewrite count_wrong_cleared_none.
  - unfold U32.div.
    assert (Hr : 0 <= U32.sub (m_endAddress b) (m_startAddress b)
                 < U32.modulus)
      by (apply Z.mod_pos_bound; unfold U32.modulus; lia).
    destruct (Z.leb_spec 400 (U32.sub (m_endAddress b) (m_startAddress b)))
      as [Hge | Hlt].
    + apply Z.ltb_lt. apply Z.div_str_pos. lia.
    + apply Z.ltb_ge. rewrite Z.div_small by lia. lia.
  - intros k Hk. apply Hfill. lia.
Qed.

Lemma isValid_cleared_witness :
  isValid frame7 (fun _ => 0) cleared_buffer = true.
Proof.
  apply (isValid_cleared frame7 (fun _ => 0) cleared_buffer).
  - vm_compute. discriminate.
  - reflexivity.
  - intros k _. reflexivity.
Defined.

Lemma snapshot_self_valid_witness :
  isValid frame7_flushing
    (snd (copyRdram frame7_flushing aux_buffer (fun _ => 0)))
    (fst (copyRdram frame7_flushing aux_buffer (fun _ => 0))) = true.
Proof.
  apply (snapshot_self_valid frame7_flushing aux_buffer (fun _ => 0)).
  - reflexivity.
  - reflexivity.
  - reflexivity.
  - unfold U32.in_range. rewrite modulus_value. vm_compute.
    split; [discriminate | reflexivity].
  - reflexivity.
  - vm_compute. discriminate.
Defined.

Lemma fingerprint_self_valid_witness :
  isValid frame7 (snd (copyRdram frame7 aux_buffer (fun _ => 0)))
    (fst (copyRdram frame7 aux_buffer (fun _ => 0))) = true.
Proof.
  apply (fingerprint_self_valid frame7 aux_buffer (fun _ => 0)).
  - reflexivity.
  - reflexivity.
  - unfold U32.in_range. rewrite modulus_value. vm_compute.
    split; [discriminate | reflexivity].
  - intros i Hi. unfold U32.in_range. rewrite modulus_value.
    assert (Hcases : i = 0 \/ i = 1 \/ i = 2 \/ i = 3) by lia.
    destruct Hcases as [-> | [-> | [-> | ->]]]; vm_compute;
      (split; [discriminate | reflexivity]).
  - vm_compute. discriminate.
Defined.

(** ** The guest-to-GPU engine *)

Lemma memset0_spec (n : nat) :
  forall (m : Memory) (a x : Z),
    memset0 m a n x
    = if (a <=? x) && (x <? a + Z.of_nat n) then 0 else m x.
Proof.
  induction n as [| n IH]; intros m a x.
  - simpl. destruct (Z.leb_spec a x); destruct (Z.ltb_spec x (a + 0));
      simpl; try reflexivity; lia.
  - cbn [memset0]. rewrite IH. unfold store8.
    destruct (Z.leb_spec (a + 1) x); destruct (Z.ltb_spec x (a + 1 + Z.of_nat n));
      destruct (Z.leb_spec a x); destruct (Z.ltb_spec x (a + Z.of_nat (S n)));
      destruct (Z.eqb_spec x a); cbn [andb]; try reflexivity; lia.
Qed.

Lemma cleared_bytes_bound (g : Globals) (b : FrameBuffer) (height : Z) :
  0 <= RDRAMSize g < 2 ^ 31 ->
  0 <= m_startAddress b <= RDRAMSize g ->
  0 <= cleared_bytes g b height
  /\ m_startAddress b + cleared_bytes g b height <= RDRAMSize g + 1.
Proof.
  intros HR Ha. unfold cleared_bytes. cbv zeta.
  change (2 ^ 31) with 2147483648 in HR.
  set (t := U32.shr (U32.shl (U32.mul (m_width b) height) (m_size b)) 1).
  assert (Ht : 0 <= t < 2147483648).
  { subst t. unfold U32.shr, U32.shl.
    pose proof (wrap_range (Z.shiftl (U32.mul (m_width b) height) (m_size b)))
      as Hw. unfold U32.in_range in Hw. rewrite modulus_value in Hw.
    rewrite Z.shiftr_div_pow2 by lia. change (2 ^ 1) with 2.
    Z.div_mod_to_equations. lia. }
  assert (HR1 : U32.add (RDRAMSize g) 1 = RDRAMSize g + 1)
    by (unfold U32.add; apply wrap_small; unfold U32.in_range;
        rewrite modulus_value; lia).
  assert (Hadd : U32.add (m_startAddress b) t = m_startAddress b + t)
    by (unfold U32.add; apply wrap_small; unfold U32.in_range;
        rewrite modulus_value; lia).
  rewrite HR1, Hadd.
  destruct (Z.gtb_spec (m_startAddress b + t) (RDRAMSize g + 1)).
  - assert (E : U32.sub (RDRAMSize g + 1) (m_startAddress b)
                = RDRAMSize g + 1 - m_startAddress b)
      by (unfold U32.sub; apply wrap_small; unfold U32.in_range;
          rewrite modulus_value; lia).
    rewrite E. lia.
  - lia.
Qed.

(** What the copy part of [CopyFromRDRAM] leaves of guest memory: the
    memory it got, or that memory with the bytes of one live buffer
    cleared. *)
Lemma CopyFromRDRAM_copy_memory (g : Globals) (a : Z) (cfb : bool)
  (st : Machine) :
  RDRAM (snd (CopyFromRDRAM_copy g a cfb st)) = RDRAM st
  \/ (cfb = false
      /\ exists p b height,
           m_pCurBuffer (g_RDRAMtoFB st) = Some p
           /\ deref (m_list (frameBufferList st)) p = Some b
           /\ m_startAddress b <= RDRAMSize g
           /\ RDRAM (snd (CopyFromRDRAM_copy g a cfb st))
              = memset0 (RDRAM st) (m_startAddress b)
                        (Z.to_nat (cleared_bytes g b height))).
Proof.
  unfold CopyFromRDRAM_copy.
  destruct (m_pCurBuffer (g_RDRAMtoFB st)) as [p |] eqn:Hp;
    [| left; reflexivity].
  cbn [option_map].
  destruct (deref (m_list (frameBufferList st)) p) as [b |] eqn:Hd;
    [| left; reflexivity].
  destruct (m_size b <? G_IM_SIZ_16b); [left; reflexivity |].
  destruct ((m_startAddress b =? a) && _); [left; reflexivity |].
  cbv zeta.
  set (height := _cutHeight _ _ _ _).
  destruct (Z.eqb_spec height 0) as [E | E]; [left; reflexivity |].
  destruct (negb (mapBufferRange_ok g)); [left; reflexivity |].
  assert (Hin : m_startAddress b <= RDRAMSize g).
  { destruct (Z.le_gt_cases (m_startAddress b) (RDRAMSize g)) as [H | H];
      [exact H | exfalso].
    apply E. subst height. apply cutHeight_outside. exact H. }
  match goal with
  | |- context [if negb (fst ?c) then _ else _] => destruct (negb (fst c))
  end.
  - destruct cfb; [left; reflexivity |].
    cbn [negb andb]. destruct (m_changed b); [| left; reflexivity].
    right. split; [reflexivity |]. exists p, b, height.
    repeat split; try assumption.
  - destruct cfb; [left; reflexivity |].
    cbn [negb andb]. destruct (m_changed b); [| left; reflexivity].
    right. split; [reflexivity |]. exists p, b, height.
    repeat split; try assumption.
Qed.

Lemma findBuffer_In (l : FrameBuffers) (a : Z) (p : Ptr) :
  findBuffer l a = Some p -> In p (map fst l).
Proof.
  induction l as [| [q b] t IH]; simpl; [discriminate |].
  destruct ((m_startAddress b <=? a) && (m_endAddress b >=? a)).
  - intros H. injection H as ->. left. reflexivity.
  - intros H. right. apply IH. exact H.
Qed.

Lemma deref_In (l : FrameBuffers) (p : Ptr) (b : FrameBuffer) :
  deref l p = Some b -> In (p, b) l.
Proof.
  induction l as [| [q c] t IH]; simpl; [discriminate |].
  destruct (Nat.eqb_spec q p) as [-> | _].
  - intros H. injection H as ->. left. reflexivity.
  - intros H. right. apply IH. exact H.
Qed.

(** X23: what [CopyFromRDRAM] changes.  The registry and the colour image
    are left as they are.  With [_bCFB] true guest memory is left as it
    is.  With at most 2 GB of guest memory and buffers at addresses that
    are not negative, a byte of memory that differs after the call is 0
    and lies inside guest memory: the function never writes past
    [RDRAMSize]. *)
Theorem CopyFromRDRAM_effects (g : Globals) (a : Z) (cfb : bool)
  (st : Machine) :
  0 <= RDRAMSize g < 2 ^ 31 ->
  (forall n, In n (m_list (frameBufferList st)) ->
             0 <= m_startAddress (snd n)) ->
  let st' := CopyFromRDRAM g a cfb st in
  frameBufferList st' = frameBufferList st
  /\ gDP_colorImage_height st' = gDP_colorImage_height st
  /\ gDP_colorImage_changed st' = gDP_colorImage_changed st
  /\ (cfb = true -> RDRAM st' = RDRAM st)
  /\ (forall x, RDRAM st' x = RDRAM st x
                \/ (RDRAM st' x = 0 /\ 0 <= x <= RDRAMSize g)).
Proof.
  intros HR Hstarts st'.
  destruct (CopyFromRDRAM_frame g a cfb st) as (Hf & _ & Hh & Hc).
  fold st' in Hf, Hh, Hc.
  split; [exact Hf |]. split; [exact Hh |]. split; [exact Hc |].
  assert (Hmem :
    RDRAM st' = RDRAM st
    \/ (cfb = false
        /\ exists b height,
             In b (map snd (m_list (frameBufferList st)))
             /\ m_startAddress b <= RDRAMSize g
             /\ RDRAM st' = memset0 (RDRAM st) (m_startAddress b)
                                    (Z.to_nat (cleared_bytes g b height)))).
  { subst st'. unfold CopyFromRDRAM, Cleaner_destructor, CopyFromRDRAM_body.
    cbv zeta. cbn [RDRAM with_g_RDRAMtoFB].
    destruct (m_pCurBuffer (g_RDRAMtoFB st)) as [p0 |] eqn:Hp0.
    - destruct (empty (m_vecAddress (g_RDRAMtoFB st))); [left; reflexivity |].
      destruct (CopyFromRDRAM_copy_memory g a cfb st)
        as [H | (Hcfb & p & b & height & _ & Hd & Hin & Hm)];
        [left; exact H |].
      right. split; [exact Hcfb |]. exists b, height.
      split; [| split; assumption].
      apply in_map_iff. exists (p, b). split; [reflexivity |].
      apply deref_In. exact Hd.
    - destruct (cfb || _).
      + match goal with
        | |- context [CopyFromRDRAM_copy g a cfb ?s] =>
            destruct (CopyFromRDRAM_copy_memory g a cfb s)
              as [H | (Hcfb & p & b & height & _ & Hd & Hin & Hm)]
        end; [left; exact H |].
        right. split; [exact Hcfb |]. exists b, height.
        split; [| split; assumption].
        apply in_map_iff. exists (p, b). split; [reflexivity |].
        apply deref_In. exact Hd.
      + destruct (CopyFromRDRAM_copy_memory g a cfb st)
          as [H | (Hcfb & p & b & height & Hp & _)];
          [left; exact H | congruence]. }
  split.
  - intros Hcfb. destruct Hmem as [H | [H _]]; [exact H | congruence].
  - intros x. destruct Hmem as [H | (_ & b & height & Hb & Hin & Hm)].
    + left. rewrite H. reflexivity.
    + rewrite Hm, memset0_spec.
      apply in_map_iff in Hb. destruct Hb as (n & <- & Hn).
      pose proof (Hstarts n Hn) as H0.
      destruct (cleared_bytes_bound g (snd n) height HR (conj H0 Hin))
        as [Hc0 Hc1].
      destruct (Z.leb_spec (m_startAddress (snd n)) x);
        destruct (Z.ltb_spec x (m_startAddress (snd n)
                                + Z.of_nat (Z.to_nat (cleared_bytes g (snd n)
                                                        height))));
        cbn [andb]; [right; split; [reflexivity | lia] | left .. ];
        reflexivity.
Qed.

Lemma CopyFromRDRAM_effects_witness :
  RDRAM (CopyFromRDRAM frame7 0x100000 true
           (screen_machine (fun _ => 255) 0 (mkRDRAMtoFrameBuffer None [])))
  = RDRAM (screen_machine (fun _ => 255) 0 (mkRDRAMtoFrameBuffer None [])).
Proof.
  assert (HR : 0 <= RDRAMSize frame7 < 2 ^ 31)
    by (vm_compute; split; [discriminate | reflexivity]).
  assert (Hs : forall n,
             In n (m_list (frameBufferList
                     (screen_machine (fun _ => 255) 0
                        (mkRDRAMtoFrameBuffer None [])))) ->
             0 <= m_startAddress (snd n))
    by (intros n [<- | []]; vm_compute; discriminate).
  apply (CopyFromRDRAM_effects frame7 0x100000 true _ HR Hs). reflexivity.
Defined.

(** ** [AddAddress] *)

(** The three ways [AddAddress] ends: without a buffer, with a misaligned
    address, and with the address queued. *)
Lemma AddAddress_cases (_address _size : Z) (st : Machine) :
  let e := g_RDRAMtoFB st in
  let l := m_list (frameBufferList st) in
  (AddAddress _address _size st = st
   /\ match m_pCurBuffer e with
      | Some p => deref l p = None
      | None => match findBuffer l _address with
                | Some p => deref l p = None
                | None => True
                end
      end)
  \/ exists p b,
       (m_pCurBuffer e = Some p
        \/ m_pCurBuffer e = None /\ findBuffer l _address = Some p)
       /\ deref l p = Some b
       /\ (AddAddress _address _size st
           = with_g_RDRAMtoFB (mkRDRAMtoFrameBuffer (Some p) (m_vecAddress e))
                              st
           /\ _size <> U32.shr (U32.shl 1 (m_size b)) 1
           /\ U32.rem _address (U32.shr (U32.shl 1 (m_size b)) 1) > 0
           \/ AddAddress _address _size st
              = mkMachine (frameBufferList st) (RDRAM st)
                  (gDP_colorImage_height st) 1
                  (mkRDRAMtoFrameBuffer (Some p)
                     (m_vecAddress e ++ [_address]))
                  (heap_next st)
              /\ (_size = U32.shr (U32.shl 1 (m_size b)) 1
                  \/ U32.rem _address (U32.shr (U32.shl 1 (m_size b)) 1)
                     <= 0)).
Proof.
  cbv zeta. unfold AddAddress. cbv zeta.
  destruct (m_pCurBuffer (g_RDRAMtoFB st)) as [p |] eqn:Hp.
  - cbn [option_map].
    destruct (deref (m_list (frameBufferList st)) p) as [b |] eqn:Hd;
      [| left; auto].
    right. exists p, b. split; [left; reflexivity |]. split; [exact Hd |].
    destruct (Z.eqb_spec _size (U32.shr (U32.shl 1 (m_size b)) 1));
      cbn [negb andb]; [right; auto |].
    destruct (Z.gtb_spec (U32.rem _address (U32.shr (U32.shl 1 (m_size b)) 1))
                0); [left; split; [reflexivity | split; [assumption | lia]] |].
    right. split; [reflexivity | right; lia].
  - destruct (findBuffer (m_list (frameBufferList st)) _address) as [p |]
      eqn:Hf; cbn [option_map]; [| left; auto].
    destruct (deref (m_list (frameBufferList st)) p) as [b |] eqn:Hd;
      [| left; auto].
    right. exists p, b. split; [right; auto |]. split; [exact Hd |].
    destruct (Z.eqb_spec _size (U32.shr (U32.shl 1 (m_size b)) 1));
      cbn [negb andb]; [right; auto |].
    destruct (Z.gtb_spec (U32.rem _address (U32.shr (U32.shl 1 (m_size b)) 1))
                0); [left; split; [reflexivity | split; [assumption | lia]] |].
    right. split; [reflexivity | right; lia].
Qed.

(** X21: [AddAddress] never touches the registry or guest memory and
    never drops a queued address: the queue is left as it is, with
    [gDP.colorImage.changed] as it was, or it grows by [_address] at its
    end, with [gDP.colorImage.changed] set and the engine on a live
    buffer.  A buffer that the engine already has is kept, and without
    one, an address that no buffer holds leaves the whole state as it
    is. *)
Theorem AddAddress_spec (_address _size : Z) (st : Machine) :
  let st' := AddAddress _address _size st in
  frameBufferList st' = frameBufferList st
  /\ RDRAM st' = RDRAM st
  /\ (m_vecAddress (g_RDRAMtoFB st') = m_vecAddress (g_RDRAMtoFB st)
      /\ gDP_colorImage_changed st' = gDP_colorImage_changed st
      \/ m_vecAddress (g_RDRAMtoFB st')
         = m_vecAddress (g_RDRAMtoFB st) ++ [_address]
         /\ gDP_colorImage_changed st' = 1
         /\ exists p b,
              m_pCurBuffer (g_RDRAMtoFB st') = Some p
              /\ deref (m_list (frameBufferList st)) p = Some b)
  /\ (forall p, m_pCurBuffer (g_RDRAMtoFB st) = Some p ->
                m_pCurBuffer (g_RDRAMtoFB st') = Some p)
  /\ (m_pCurBuffer (g_RDRAMtoFB st) = None ->
      findBuffer (m_list (frameBufferList st)) _address = None ->
      st' = st).
Proof.
  cbv zeta.
  destruct (AddAddress_cases _address _size st)
    as [[E Hnone] | (p & b & Hsrc & Hd & [(E & _) | (E & _)])];
    cbv zeta in *; rewrite E.
  - repeat split; auto.
  - cbn. repeat split; auto.
    + intros q Hq. destruct Hsrc as [Hs | [Hs _]]; congruence.
    + intros Hn Hf. destruct Hsrc as [Hs | [_ Hs]]; congruence.
  - cbn. repeat split; auto.
    + right. repeat split; auto. exists p, b. auto.
    + intros q Hq. destruct Hsrc as [Hs | [Hs _]]; congruence.
    + intros Hn Hf. destruct Hsrc as [Hs | [_ Hs]]; congruence.
Qed.

Lemma AddAddress_spec_witness :
  AddAddress 0x200000 2
    (screen_machine (fun _ => 0) 0 (mkRDRAMtoFrameBuffer None []))
  = screen_machine (fun _ => 0) 0 (mkRDRAMtoFrameBuffer None []).
Proof.
  apply (AddAddress_spec 0x200000 2
           (screen_machine (fun _ => 0) 0 (mkRDRAMtoFrameBuffer None []))).
  - reflexivity.
  - reflexivity.
Defined.

(** ** [_copyBufferFromRdram] reads guest memory only *)

Lemma src_load_same (szPixel R a idx : Z) (m m' : Memory) :
  szPixel = 2 \/ szPixel = 4 ->
  same_guest_bytes R a m m' ->
  0 <= idx -> a + szPixel * idx + szPixel - 1 <= R ->
  src_load szPixel m a idx = src_load szPixel m' a idx.
Proof.
  intros Hsz H Hidx Hb. unfold src_load.
  destruct Hsz as [-> | ->]; simpl (_ =? 2).
  - unfold load16. rewrite (H (a + 2 * idx)), (H (a + 2 * idx + 1)) by lia.
    reflexivity.
  - unfold load32.
    rewrite (H (a + 4 * idx)), (H (a + 4 * idx + 1)),
      (H (a + 4 * idx + 2)), (H (a + 4 * idx + 3)) by lia.
    reflexivity.
Qed.

Lemma lxor_nonneg_small (x k : Z) : 0 <= x -> 0 <= k -> 0 <= Z.lxor x k.
Proof. intros Hx Hk. apply Z.lxor_nonneg. lia. Qed.

Section Locality.

Variable szPixel : Z.
Variable converter : Z -> bool -> Z.
Variables m m' : Memory.
Variables R _address _xor _width _height bound : Z.
Variable _bCFB : bool.

Hypothesis Hsz : szPixel = 2 \/ szPixel = 4.
Hypothesis Hxor : 0 <= _xor.
Hypothesis Hsame : same_guest_bytes R _address m m'.
Hypothesis Hbound : forall idx, 0 <= idx < bound ->
                                _address + szPixel * idx + szPixel - 1 <= R.

Lemma copyBuffer_row_same (n : nat) :
  forall y dsty x acc,
    copyBuffer_row szPixel converter m _address _xor _width _height _bCFB
                   bound y dsty x n acc
    = copyBuffer_row szPixel converter m' _address _xor _width _height _bCFB
                     bound y dsty x n acc.
Proof.
  induction n as [| n IH]; intros y dsty x acc; [reflexivity |].
  cbn [copyBuffer_row]. cbv zeta.
  set (idx := Z.lxor _ _xor).
  destruct (Z.geb_spec idx bound) as [Hge | Hlt]; [reflexivity |].
  assert (Hidx : 0 <= idx).
  { subst idx. apply lxor_nonneg_small; [| exact Hxor].
    pose proof (wrap_range (x + U32.mul (U32.sub (U32.sub _height y) 1) _width))
      as Hw. unfold U32.in_range in Hw. unfold U32.add. lia. }
  rewrite (src_load_same szPixel R _address idx m m' Hsz Hsame Hidx)
    by (apply Hbound; lia).
  apply IH.
Qed.

Lemma copyBuffer_rows_same (n : nat) :
  forall _x0 y dsty acc,
    copyBuffer_rows szPixel converter m _address _xor _width _height _bCFB
                    bound _x0 y dsty n acc
    = copyBuffer_rows szPixel converter m' _address _xor _width _height _bCFB
                      bound _x0 y dsty n acc.
Proof.
  induction n as [| n IH]; intros _x0 y dsty acc; [reflexivity |].
  cbn [copyBuffer_rows]. rewrite copyBuffer_row_same. apply IH.
Qed.

End Locality.

(** X24: [_copyBufferFromRdram] reads no byte past [RDRAMSize]: for a
    start address inside guest memory or one past its end, two memories
    with the same bytes from that address to [RDRAMSize] give the same
    answer and the same staging buffer, for 16-bit and for 32-bit
    pixels. *)
Theorem copyBufferFromRdram_reads_guest_memory (szPixel : Z) (g : Globals)
  (m m' : Memory) (_address : Z) (_dst : Staging)
  (converter : Z -> bool -> Z) (_xor _x0 _y0 _width _height : Z)
  (_bCFB : bool) :
  szPixel = 2 \/ szPixel = 4 ->
  0 <= _xor ->
  0 <= RDRAMSize g < U32.modulus - 1 ->
  0 <= _address <= RDRAMSize g + 1 ->
  same_guest_bytes (RDRAMSize g) _address m m' ->
  _copyBufferFromRdram szPixel g m _address _dst converter _xor _x0 _y0
                       _width _height _bCFB
  = _copyBufferFromRdram szPixel g m' _address _dst converter _xor _x0 _y0
                         _width _height _bCFB.
Proof.
  intros Hsz Hxor HR Ha Hsame. unfold _copyBufferFromRdram. cbv zeta.
  rewrite (copyBuffer_rows_same szPixel converter m m' (RDRAMSize g)
             _address _xor _width _height _ _bCFB Hsz Hxor Hsame);
    [reflexivity |].
  intros idx Hidx.
  rewrite modulus_value in HR.
  assert (HR1 : U32.add (RDRAMSize g) 1 = RDRAMSize g + 1)
    by (unfold U32.add; apply wrap_small; unfold U32.in_range;
        rewrite modulus_value; lia).
  assert (Hsub : U32.sub (U32.add (RDRAMSize g) 1) _address
                 = RDRAMSize g + 1 - _address)
    by (rewrite HR1; unfold U32.sub; apply wrap_small;
        unfold U32.in_range; rewrite modulus_value; lia).
  rewrite Hsub in Hidx. unfold U32.shr in Hidx.
  rewrite Z.shiftr_div_pow2 in Hidx
    by (destruct Hsz as [-> | ->]; vm_compute; discriminate).
  destruct Hsz as [-> | ->].
  - change (2 ^ (2 / 2)) with 2 in Hidx. Z.div_mod_to_equations. lia.
  - change (2 ^ (4 / 2)) with 4 in Hidx. Z.div_mod_to_equations. lia.
Qed.

Lemma copyBufferFromRdram_reads_guest_memory_witness :
  _copyBufferFromRdram 2 frame7 (fun _ => 0) 0x7FFF00 (fun _ => 0)
                       RGBA16ToABGR32 1 0 0 32 16 false
  = _copyBufferFromRdram 2 frame7 beyond_guest 0x7FFF00 (fun _ => 0)
                         RGBA16ToABGR32 1 0 0 32 16 false.
Proof.
  apply (copyBufferFromRdram_reads_guest_memory 2 frame7 (fun _ => 0)
           beyond_guest 0x7FFF00).
  - left. reflexivity.
  - lia.
  - rewrite modulus_value. vm_compute.
    split; [discriminate | reflexivity].
  - vm_compute. split; discriminate.
  - intros x Hx. unfold load8, beyond_guest.
    change (RDRAMSize frame7) with 0x7FFFFF in Hx.
    destruct (Z.gtb_spec x 0x7FFFFF); [lia | reflexivity].
Defined.

(** ** [_copyPixelsFromRdram] *)

Lemma copyPixels_loop_inv (szPixel : Z) (converter : Z -> bool -> Z)
  (m : Memory) (_address _xor _width _height : Z) (_bCFB : bool)
  (vec : list Z) :
  forall acc r,
    copyPixels_loop szPixel converter m _address _xor _width _height _bCFB
                    vec acc = (true, r) ->
    (forall a, In a vec ->
               _address <= a
               /\ pixel_row szPixel _address _width a <= _height)
    /\ (fst r <> 0 ->
        fst acc <> 0
        \/ exists a, In a vec
                     /\ src_load szPixel m _address
                                 (pixel_index szPixel _address a) <> 0).
Proof.
  induction vec as [| a rest IH]; intros acc r H.
  - simpl in H. injection H as <-. split; [intros a [] | auto].
  - cbn [copyPixels_loop] in H. cbv zeta in H.
    destruct (Z.ltb_spec a _address) as [Hlt | Hge]; [discriminate |].
    fold (pixel_index szPixel _address a) in H.
    fold (pixel_row szPixel _address _width a) in H.
    destruct (Z.gtb_spec (pixel_row szPixel _address _width a) _height)
      as [Hgt | Hle]; [discriminate |].
    destruct (IH _ _ H) as [Hall Hsum]. split.
    + intros x [<- | Hx]; [split; lia | apply Hall; exact Hx].
    + intros Hr. destruct (Hsum Hr) as [Hacc | (x & Hx & Hpx)].
      * cbn [fst] in Hacc.
        destruct (Z.eq_dec (fst acc) 0) as [E0 | E0]; [| left; exact E0].
        right. exists a. split; [left; reflexivity |].
        intros Ez. apply Hacc. rewrite E0, Ez. reflexivity.
      * right. exists x. split; [right; exact Hx | exact Hpx].
Qed.

(** X25: [_copyPixelsFromRdram] answers true only if every queued address
    is at or after the start of the buffer and in a row not greater than
    [_height], and the pixel of some queued address is not zero. *)
Theorem copyPixelsFromRdram_true (szPixel : Z) (m : Memory) (_address : Z)
  (_vecAddress : list Z) (_dst : Staging) (converter : Z -> bool -> Z)
  (_xor _width _height : Z) (_bCFB : bool) :
  fst (_copyPixelsFromRdram szPixel m _address _vecAddress _dst converter
                            _xor _width _height _bCFB) = true ->
  (forall a, In a _vecAddress ->
             _address <= a
             /\ pixel_row szPixel _address _width a <= _height)
  /\ exists a, In a _vecAddress
               /\ src_load szPixel m _address
                           (pixel_index szPixel _address a) <> 0.
Proof.
  unfold _copyPixelsFromRdram. cbv zeta.
  destruct (copyPixels_loop _ _ _ _ _ _ _ _ _ _) as [ok r] eqn:E.
  cbn [fst snd]. intros Hr. apply andb_true_iff in Hr.
  destruct Hr as [Hok Hr]. subst ok.
  apply negb_true_iff, Z.eqb_neq in Hr.
  destruct (copyPixels_loop_inv _ _ _ _ _ _ _ _ _ _ _ E) as [Hall Hsum].
  split; [exact Hall |].
  destruct (Hsum Hr) as [H0 | H]; [cbn in H0; congruence | exact H].
Qed.

Lemma copyPixelsFromRdram_true_witness :
  0x100000 <= 0x100010 /\ pixel_row 2 0x100000 32 0x100010 <= 16.
Proof.
  assert (H : fst (_copyPixelsFromRdram 2 (fun _ => 255) 0x100000
                     [0x100010] (fun _ => 0) RGBA16ToABGR32 1 32 16 false)
              = true) by (vm_compute; reflexivity).
  apply (proj1 (copyPixelsFromRdram_true 2 (fun _ => 255) 0x100000
                  [0x100010] (fun _ => 0) RGBA16ToABGR32 1 32 16 false H)).
  left. reflexivity.
Defined.

Lemma find_last {A : Type} (f : A -> bool) (l : list A) (x : A) :
  find f (l ++ [x])
  = match find f l with
    | Some y => Some y
    | None => if f x then Some x else None
    end.
Proof.
  induction l as [| y t IH]; simpl; [reflexivity |].
  destruct (f y); [reflexivity | exact IH].
Qed.

(** What the loop leaves at position [k]: the pixel of the last address
    reached whose target is [k], or what was there. *)
Lemma copyPixels_loop_stores (szPixel : Z) (converter : Z -> bool -> Z)
  (m : Memory) (_address _xor _width _height : Z) (_bCFB : bool)
  (vec : list Z) :
  forall acc k,
    snd (snd (copyPixels_loop szPixel converter m _address _xor _width
                _height _bCFB vec acc)) k
    = match find (fun a => pixel_target szPixel _address _xor _width
                             _height a =? k)
                 (rev (reached szPixel _address _width _height vec)) with
      | Some a =>
          converter
            (src_load szPixel m _address (pixel_index szPixel _address a))
            _bCFB
      | None => snd acc k
      end.
Proof.
  induction vec as [| a rest IH]; intros acc k; [reflexivity |].
  cbn [copyPixels_loop reached]. cbv zeta. unfold accepted.
  destruct (Z.ltb_spec a _address) as [Hlt | Hge]; [reflexivity |].
  fold (pixel_index szPixel _address a).
  fold (pixel_row szPixel _address _width a).
  destruct (pixel_row szPixel _address _width a >? _height);
    [reflexivity |].
  cbn [negb andb rev]. rewrite IH, find_last. cbn [snd].
  destruct (find _ (rev (reached szPixel _address _width _height rest)));
    [reflexivity |].
  unfold staging_store, pixel_target, pixel_row. cbv zeta.
  rewrite (Z.eqb_sym k).
  match goal with |- context [?t =? k] => destruct (t =? k) end;
    reflexivity.
Qed.

(** X26: where [_copyPixelsFromRdram] puts the queued pixels.  After the
    call, position [k] of the staging buffer holds the converted pixel of
    the last queued address whose target is [k], among the addresses in
    front of the first one that the loop rejects; without such an address
    it holds the 0 that [memset] wrote to the first [_width * _height]
    pixels, or what it held before.  The target of an accepted address of
    column [w] and row [h] is [(w + (_height - h) * _width) ^ _xor]: row
    [h] goes to row [_height - h] of the staging buffer, so that with
    [_xor] zero a pixel of row 0 is stored at [_width * _height + w],
    after the [_width * _height] pixels of the staging buffer. *)
Theorem copyPixelsFromRdram_stores (szPixel : Z) (m : Memory)
  (_address : Z) (_vecAddress : list Z) (_dst : Staging)
  (converter : Z -> bool -> Z) (_xor _width _height : Z) (_bCFB : bool) :
  (forall k,
     snd (_copyPixelsFromRdram szPixel m _address _vecAddress _dst converter
                               _xor _width _height _bCFB) k
     = match find (fun a => pixel_target szPixel _address _xor _width
                              _height a =? k)
                  (rev (reached szPixel _address _width _height
                          _vecAddress)) with
       | Some a =>
           converter
             (src_load szPixel m _address (pixel_index szPixel _address a))
             _bCFB
       | None =>
           if (0 <=? k) && (k <? U32.mul _width _height) then 0 else _dst k
       end)
  /\ (forall a,
        0 < szPixel -> 0 < _width -> 0 <= _height ->
        (_height + 1) * _width < U32.modulus ->
        _address <= a -> a - _address < U32.modulus ->
        let w := ((a - _address) / szPixel) mod _width in
        let h := (a - _address) / szPixel / _width in
        h <= _height ->
        pixel_target szPixel _address _xor _width _height a
        = Z.lxor (w + (_height - h) * _width) _xor
        /\ 0 <= w < _width
        /\ (_xor = 0 -> h = 0 ->
            pixel_target szPixel _address _xor _width _height a
            = _width * _height + w)).
Proof.
  split.
  - intros k. unfold _copyPixelsFromRdram. cbv zeta.
    match goal with
    | |- snd (_, ?r) k = _ => change (snd (_, r) k) with (r k)
    end.
    rewrite copyPixels_loop_stores. reflexivity.
  - rewrite modulus_value.
    intros a Hsz Hw Hh Hfit Hle Hrange w h Hrow.
    assert (Hidx : pixel_index szPixel _address a
                   = (a - _address) / szPixel).
    { unfold pixel_index, U32.div. f_equal. unfold U32.sub.
      apply wrap_small. unfold U32.in_range. rewrite modulus_value. lia. }
    assert (Hi0 : 0 <= (a - _address) / szPixel)
      by (apply Z.div_pos; lia).
    assert (Hw0 : 0 <= w < _width) by (subst w; apply Z.mod_pos_bound; lia).
    assert (Hh0 : 0 <= h) by (subst h; apply Z.div_pos; lia).
    assert (Htarget : pixel_target szPixel _address _xor _width _height a
                      = Z.lxor (w + (_height - h) * _width) _xor).
    { unfold pixel_target. cbv zeta. rewrite Hidx.
      unfold U32.rem, U32.div. fold w. fold h.
      assert (E1 : U32.sub _height h = _height - h)
        by (unfold U32.sub; apply wrap_small; unfold U32.in_range;
            rewrite modulus_value; nia).
      assert (E2 : U32.mul (_height - h) _width = (_height - h) * _width)
        by (unfold U32.mul; apply wrap_small; unfold U32.in_range;
            rewrite modulus_value; nia).
      assert (E3 : U32.add w ((_height - h) * _width)
                   = w + (_height - h) * _width)
        by (unfold U32.add; apply wrap_small; unfold U32.in_range;
            rewrite modulus_value; nia).
      rewrite E1, E2, E3. reflexivity. }
    split; [exact Htarget |]. split; [exact Hw0 |].
    intros Hx H0. rewrite Htarget, Hx, H0, Z.lxor_0_r. lia.
Qed.

Lemma copyPixelsFromRdram_stores_witness :
  pixel_target 4 0x100000 0 32 16 0x100008 = 32 * 16 + 2.
Proof.
  apply (proj2 (copyPixelsFromRdram_stores 4 (fun _ => 255) 0x100000
                  [0x100008] (fun _ => 0) RGBA32ToABGR32 0 32 16 false)
           0x100008);
    try (rewrite modulus_value); try lia; try reflexivity.
  - vm_compute. discriminate.
Defined.

(** ** [AddAddress] and [CopyFromRDRAM] together *)

(** The guard [m_pCurBuffer->m_startAddress == _address &&
    gDP.colorImage.changed != 0] of [CopyFromRDRAM]: with the colour image
    marked as changed, a call for the start address of the buffer of the
    engine only resets the engine. *)
Lemma CopyFromRDRAM_guarded (g : Globals) (cfb : bool) (st : Machine)
  (p : Ptr) (b : FrameBuffer) :
  m_pCurBuffer (g_RDRAMtoFB st) = Some p ->
  deref (m_list (frameBufferList st)) p = Some b ->
  gDP_colorImage_changed st <> 0 ->
  CopyFromRDRAM g (m_startAddress b) cfb st
  = with_g_RDRAMtoFB (mkRDRAMtoFrameBuffer None []) st.
Proof.
  intros Hp Hd Hc.
  unfold CopyFromRDRAM, CopyFromRDRAM_body, Cleaner_destructor. cbv zeta.
  rewrite Hp.
  assert (Hcopy : snd (CopyFromRDRAM_copy g (m_startAddress b) cfb st) = st).
  { unfold CopyFromRDRAM_copy. rewrite Hp. cbn [option_map]. rewrite Hd.
    destruct (m_size b <? G_IM_SIZ_16b); [reflexivity |].
    rewrite Z.eqb_refl.
    destruct (Z.eqb_spec (gDP_colorImage_changed st) 0); [contradiction |].
    reflexivity. }
  destruct (empty (m_vecAddress (g_RDRAMtoFB st))); [reflexivity |].
  rewrite Hcopy. reflexivity.
Qed.

(** X22: an address that [AddAddress] has queued is not copied by a call
    of [CopyFromRDRAM] for the start address of the buffer of the engine:
    [AddAddress] has set [gDP.colorImage.changed], so the call returns at
    its guard, guest memory and the registry are as they were before
    [AddAddress], and the queue is dropped when the engine is reset. *)
Theorem AddAddress_blocks_copy (g : Globals) (_address _size : Z)
  (cfb : bool) (st : Machine) :
  let st1 := AddAddress _address _size st in
  m_vecAddress (g_RDRAMtoFB st1) <> m_vecAddress (g_RDRAMtoFB st) ->
  exists p b,
    m_pCurBuffer (g_RDRAMtoFB st1) = Some p
    /\ deref (m_list (frameBufferList st1)) p = Some b
    /\ let st2 := CopyFromRDRAM g (m_startAddress b) cfb st1 in
       RDRAM st2 = RDRAM st
       /\ frameBufferList st2 = frameBufferList st
       /\ g_RDRAMtoFB st2 = mkRDRAMtoFrameBuffer None []
       /\ gDP_colorImage_changed st2 = 1.
Proof.
  intros st1 Hq. subst st1.
  destruct (AddAddress_cases _address _size st)
    as [[E _] | (p & b & _ & Hd & [(E & _) | (E & _)])];
    cbv zeta in *.
  - rewrite E in Hq. contradiction.
  - rewrite E in Hq. cbn in Hq. contradiction.
  - exists p, b. rewrite E. cbn [g_RDRAMtoFB m_pCurBuffer frameBufferList].
    split; [reflexivity |]. split; [exact Hd |].
    rewrite <- E.
    rewrite (CopyFromRDRAM_guarded g cfb (AddAddress _address _size st) p b);
      rewrite E; cbn; auto. discriminate.
Qed.

Lemma AddAddress_blocks_copy_witness :
  exists p b,
    m_pCurBuffer
      (g_RDRAMtoFB
         (AddAddress 0x100010 2
            (screen_machine (fun _ => 255) 0 (mkRDRAMtoFrameBuffer None []))))
    = Some p
    /\ deref
         (m_list
            (frameBufferList
               (AddAddress 0x100010 2
                  (screen_machine (fun _ => 255) 0
                     (mkRDRAMtoFrameBuffer None []))))) p = Some b
    /\ let st2 :=
         CopyFromRDRAM frame7 (m_startAddress b) false
           (AddAddress 0x100010 2
              (screen_machine (fun _ => 255) 0
                 (mkRDRAMtoFrameBuffer None []))) in
       RDRAM st2
       = RDRAM (screen_machine (fun _ => 255) 0
                  (mkRDRAMtoFrameBuffer None []))
       /\ frameBufferList st2
          = frameBufferList
              (screen_machine (fun _ => 255) 0
                 (mkRDRAMtoFrameBuffer None []))
       /\ g_RDRAMtoFB st2 = mkRDRAMtoFrameBuffer None []
       /\ gDP_colorImage_changed st2 = 1.
Proof.
  apply (AddAddress_blocks_copy frame7 0x100010 2 false
           (screen_machine (fun _ => 255) 0 (mkRDRAMtoFrameBuffer None []))).
  vm_compute. discriminate.
Defined.

(** ** The whole-buffer copy [_copyBufferFromRdram] *)

Lemma lxor_bit_le (i k : Z) : 0 <= i -> k = 0 \/ k = 1 -> Z.lxor i k <= i + k.
Proof.
  intros Hi [-> | ->].
  - rewrite Z.lxor_0_r. lia.
  - destruct (Z.eq_dec (i mod 2) 0) as [E | E].
    + replace i with ((i / 2) * 2 ^ 1 + 0) at 1
        by (change (2 ^ 1) with 2; Z.div_mod_to_equations; lia).
      rewrite <- (lor_add (i / 2) 0 1) by lia.
      rewrite Z.lor_0_r.
      assert (Hl : Z.land (i / 2 * 2 ^ 1) 1 = 0).
      { apply Z.bits_inj'. intros n Hn. rewrite Z.land_spec, Z.bits_0.
        destruct (Z.eq_dec n 0) as [-> | Hn0].
        - rewrite Z.mul_pow2_bits_low by lia. reflexivity.
        - rewrite (testbit_above 1 1 n) by lia. apply andb_false_r. }
      rewrite <- Z.add_nocarry_lxor by exact Hl.
      change (2 ^ 1) with 2. Z.div_mod_to_equations. lia.
    + assert (E1 : i mod 2 = 1) by (Z.div_mod_to_equations; lia).
      replace i with ((i / 2) * 2 ^ 1 + 1) at 1
        by (change (2 ^ 1) with 2; Z.div_mod_to_equations; lia).
      rewrite <- (lor_add (i / 2) 1 1) by lia.
      assert (Hl : Z.land (i / 2 * 2 ^ 1) 1 = 0).
      { apply Z.bits_inj'. intros n Hn. rewrite Z.land_spec, Z.bits_0.
        destruct (Z.eq_dec n 0) as [-> | Hn0].
        - rewrite Z.mul_pow2_bits_low by lia. reflexivity.
        - rewrite (testbit_above 1 1 n) by lia. apply andb_false_r. }
      rewrite <- Z.lxor_lor by exact Hl.
      rewrite Z.lxor_assoc, Z.lxor_nilpotent, Z.lxor_0_r.
      change (2 ^ 1) with 2. Z.div_mod_to_equations. lia.
Qed.

Section Flip.

Variable szPixel : Z.
Variable converter : Z -> bool -> Z.
Variable m : Memory.
Variables _address _xor _width _height bound : Z.
Variable _bCFB : bool.

Hypothesis Hxor : _xor = 0 \/ _xor = 1.
Hypothesis Hw : 0 < _width.
Hypothesis Hh : 0 <= _height.
Hypothesis Hsize : _width * _height < U32.modulus.
Hypothesis Hbound : _width * _height + _xor <= bound.

Lemma copyBuffer_row_flip (n : nat) :
  forall y x acc k,
    0 <= y < _height -> 0 <= x -> x + Z.of_nat n = _width ->
    snd (copyBuffer_row szPixel converter m _address _xor _width _height
           _bCFB bound y y x n acc) k
    = if (x + y * _width <=? k) && (k <? _width + y * _width)
      then flipped szPixel converter m _address _xor _width _height _bCFB k
      else snd acc k.
Proof.
  rewrite modulus_value in Hsize.
  induction n as [| n IH]; intros y x acc k Hy Hx Hn.
  - cbn [copyBuffer_row].
    destruct (Z.leb_spec (x + y * _width) k);
      destruct (Z.ltb_spec k (_width + y * _width)); cbn [andb];
      try reflexivity; lia.
  - cbn [copyBuffer_row]. cbv zeta.
    assert (Hrow : U32.sub (U32.sub _height y) 1 = _height - y - 1).
    { unfold U32.sub. rewrite (wrap_small (_height - y))
        by (unfold U32.in_range; rewrite modulus_value; nia).
      apply wrap_small. unfold U32.in_range. rewrite modulus_value. nia. }
    assert (Hmul : U32.mul (_height - y - 1) _width
                   = (_height - y - 1) * _width)
      by (unfold U32.mul; apply wrap_small; unfold U32.in_range;
          rewrite modulus_value; nia).
    assert (Hidx : U32.add x ((_height - y - 1) * _width)
                   = x + (_height - y - 1) * _width)
      by (unfold U32.add; apply wrap_small; unfold U32.in_range;
          rewrite modulus_value; nia).
    assert (Hmul2 : U32.mul y _width = y * _width)
      by (unfold U32.mul; apply wrap_small; unfold U32.in_range;
          rewrite modulus_value; nia).
    assert (Hdst : U32.add x (y * _width) = x + y * _width)
      by (unfold U32.add; apply wrap_small; unfold U32.in_range;
          rewrite modulus_value; nia).
    rewrite Hrow, Hmul, Hidx, Hmul2, Hdst.
    pose proof (lxor_bit_le (x + (_height - y - 1) * _width) _xor
                  ltac:(nia) Hxor) as Hle.
    destruct (Z.geb_spec (Z.lxor (x + (_height - y - 1) * _width) _xor) bound)
      as [Hbreak | _]; [nia |].
    rewrite IH by lia. cbn [snd]. unfold staging_store.
    destruct (Z.leb_spec (x + 1 + y * _width) k);
      destruct (Z.ltb_spec k (_width + y * _width));
      destruct (Z.leb_spec (x + y * _width) k);
      destruct (Z.eqb_spec k (x + y * _width)); cbn [andb];
      try reflexivity; try lia.
    subst k. unfold flipped.
    replace ((x + y * _width) mod _width) with x
      by (rewrite Z.mod_add by lia; symmetry; apply Z.mod_small; lia).
    replace ((x + y * _width) / _width) with y
      by (rewrite Z.div_add by lia; rewrite Z.div_small by lia; lia).
    reflexivity.
Qed.

Lemma copyBuffer_rows_flip (n : nat) :
  forall y acc k,
    0 <= y -> y + Z.of_nat n = _height ->
    snd (copyBuffer_rows szPixel converter m _address _xor _width _height
           _bCFB bound 0 y y n acc) k
    = if (y * _width <=? k) && (k <? _height * _width)
      then flipped szPixel converter m _address _xor _width _height _bCFB k
      else snd acc k.
Proof.
  induction n as [| n IH]; intros y acc k Hy Hn.
  - cbn [copyBuffer_rows].
    destruct (Z.leb_spec (y * _width) k);
      destruct (Z.ltb_spec k (_height * _width)); cbn [andb];
      try reflexivity; nia.
  - cbn [copyBuffer_rows]. rewrite IH by lia.
    rewrite Z.sub_0_r.
    rewrite (copyBuffer_row_flip (Z.to_nat _width) y 0 acc k) by lia.
    destruct (Z.leb_spec ((y + 1) * _width) k);
      destruct (Z.ltb_spec k (_height * _width));
      destruct (Z.leb_spec (0 + y * _width) k);
      destruct (Z.ltb_spec k (_width + y * _width));
      destruct (Z.leb_spec (y * _width) k); cbn [andb];
      try reflexivity; nia.
Qed.

End Flip.

(** X27: a whole-buffer copy turns the image upside down.  For a buffer
    that lies inside guest memory, [_copyBufferFromRdram] (called with
    [_x0 = _y0 = 0], as [CopyFromRDRAM] does) puts at position
    [x + y * _width] of the staging buffer the converted pixel of column
    [x] in row [_height - y - 1] of guest memory, the pixel index taken
    xor [_xor]. *)
Theorem copyBufferFromRdram_flips (szPixel : Z) (g : Globals) (m : Memory)
  (_address : Z) (_dst : Staging) (converter : Z -> bool -> Z)
  (_xor _width _height : Z) (_bCFB : bool) :
  _xor = 0 \/ _xor = 1 ->
  0 < _width -> 0 <= _height -> _width * _height < U32.modulus ->
  _width * _height + _xor <= copy_bound szPixel g _address ->
  forall x y,
    0 <= x < _width -> 0 <= y < _height ->
    snd (_copyBufferFromRdram szPixel g m _address _dst converter _xor
                              0 0 _width _height _bCFB) (x + y * _width)
    = converter
        (src_load szPixel m _address
           (Z.lxor (x + (_height - y - 1) * _width) _xor)) _bCFB.
Proof.
  intros Hxor Hw Hh Hsize Hbound x y Hx Hy.
  unfold _copyBufferFromRdram. cbv zeta. cbn [snd].
  fold (copy_bound szPixel g _address).
  assert (Hy1 : U32.add 0 _height = _height).
  { unfold U32.add. apply wrap_small. unfold U32.in_range.
    rewrite modulus_value in *. nia. }
  rewrite Hy1, Z.sub_0_r.
  rewrite (copyBuffer_rows_flip szPixel converter m _address _xor _width
             _height (copy_bound szPixel g _address) _bCFB Hxor Hw Hh Hsize
             Hbound (Z.to_nat _height) 0 (0, _dst) (x + y * _width))
    by lia.
  replace ((0 * _width <=? x + y * _width)
           && (x + y * _width <? _height * _width)) with true
    by (symmetry; apply andb_true_iff; split;
        [apply Z.leb_le | apply Z.ltb_lt]; nia).
  unfold flipped.
  replace ((x + y * _width) mod _width) with x
    by (rewrite Z.mod_add by lia; symmetry; apply Z.mod_small; lia).
  replace ((x + y * _width) / _width) with y
    by (rewrite Z.div_add by lia; rewrite Z.div_small by lia; lia).
  reflexivity.
Qed.

Lemma copyBufferFromRdram_flips_witness :
  snd (_copyBufferFromRdram 2 frame7 (fun _ => 255) 0x100000 (fun _ => 0)
         RGBA16ToABGR32 1 0 0 32 16 false) (3 + 5 * 32)
  = RGBA16ToABGR32
      (src_load 2 (fun _ => 255) 0x100000
         (Z.lxor (3 + (16 - 5 - 1) * 32) 1)) false.
Proof.
  apply (copyBufferFromRdram_flips 2 frame7 (fun _ => 255) 0x100000
           (fun _ => 0) RGBA16ToABGR32 1 32 16 false).
  - right. reflexivity.
  - lia.
  - lia.
  - rewrite modulus_value. lia.
  - vm_compute. discriminate.
  - lia.
  - lia.
Defined.

(** ** [copyWhiteToRDRAM] *)

Lemma lxor_1_value (p : Z) :
  0 <= p -> Z.lxor p 1 = if p mod 2 =? 0 then p + 1 else p - 1.
Proof.
  intros Hp.
  assert (Hl : Z.land (p / 2 * 2 ^ 1) 1 = 0).
  { apply Z.bits_inj'. intros n Hn. rewrite Z.land_spec, Z.bits_0.
    destruct (Z.eq_dec n 0) as [-> | Hn0].
    - rewrite Z.mul_pow2_bits_low by lia. reflexivity.
    - rewrite (testbit_above 1 1 n) by lia. apply andb_false_r. }
  destruct (Z.eqb_spec (p mod 2) 0) as [E | E].
  - replace p with ((p / 2) * 2 ^ 1) at 1
      by (change (2 ^ 1) with 2; Z.div_mod_to_equations; lia).
    rewrite <- Z.add_nocarry_lxor by exact Hl.
    change (2 ^ 1) with 2. Z.div_mod_to_equations. lia.
  - replace p with ((p / 2) * 2 ^ 1 + 1) at 1
      by (change (2 ^ 1) with 2; Z.div_mod_to_equations; lia).
    rewrite (Z.add_nocarry_lxor _ 1 Hl).
    rewrite Z.lxor_assoc, Z.lxor_nilpotent, Z.lxor_0_r.
    change (2 ^ 1) with 2. Z.div_mod_to_equations. lia.
Qed.

Lemma white_store_spec (size start idx : Z) (m : Memory) (k : Z) :
  0 <= idx ->
  load8 (white_store size start idx m) k
  = if (start <=? k) && (white_source size start k =? idx) then 255
    else load8 m k.
Proof.
  intros Hidx. unfold white_store, white_source, white_pixel_bytes.
  destruct (size =? G_IM_SIZ_32b).
  - cbv zeta. unfold store32. rewrite !load8_store8.
    change (4294967295 / 2 ^ 24 mod 256) with 255.
    change (4294967295 / 2 ^ 16 mod 256) with 255.
    change (4294967295 / 2 ^ 8 mod 256) with 255.
    change (4294967295 mod 256) with 255.
    destruct (Z.leb_spec start k);
      destruct (Z.eqb_spec ((k - start) / 4) idx);
      destruct (Z.eqb_spec k (start + 4 * idx + 3));
      destruct (Z.eqb_spec k (start + 4 * idx + 2));
      destruct (Z.eqb_spec k (start + 4 * idx + 1));
      destruct (Z.eqb_spec k (start + 4 * idx)); cbn [andb];
      try reflexivity; exfalso; Z.div_mod_to_equations; lia.
  - cbv zeta. unfold store16. rewrite !load8_store8.
    change (65535 / 2 ^ 8 mod 256) with 255.
    change (65535 mod 256) with 255.
    pose proof (lxor_1_value idx Hidx) as Hv.
    destruct (Z.leb_spec start k) as [Hle | Hgt]; cbn [andb].
    + pose proof (lxor_1_value ((k - start) / 2)
                    ltac:(Z.div_mod_to_equations; lia)) as Hk.
      destruct (Z.eqb_spec (idx mod 2) 0);
        destruct (Z.eqb_spec (((k - start) / 2) mod 2) 0);
        destruct (Z.eqb_spec (Z.lxor ((k - start) / 2) 1) idx);
        destruct (Z.eqb_spec k (start + 2 * Z.lxor idx 1 + 1));
        destruct (Z.eqb_spec k (start + 2 * Z.lxor idx 1));
        try reflexivity; exfalso; Z.div_mod_to_equations; lia.
    + assert (0 <= Z.lxor idx 1) by (apply Z.lxor_nonneg; lia).
      destruct (Z.eqb_spec k (start + 2 * Z.lxor idx 1 + 1));
        destruct (Z.eqb_spec k (start + 2 * Z.lxor idx 1));
        try reflexivity; lia.
Qed.

Section White.

Variable g : Globals.
Variables size start : Z.
Variable height : Z.

Hypothesis Hw : 0 < VI_width g.
Hypothesis Hsize : VI_width g * height < U32.modulus.

Lemma white_row_spec (n : nat) :
  forall y x m k,
    0 <= y < height -> 0 <= x -> x + Z.of_nat n = VI_width g ->
    load8 (white_row g size start y x n m) k
    = if (start <=? k)
         && (x + y * VI_width g <=? white_source size start k)
         && (white_source size start k <? VI_width g + y * VI_width g)
      then 255 else load8 m k.
Proof.
  rewrite modulus_value in Hsize.
  induction n as [| n IH]; intros y x m k Hy Hx Hn.
  - cbn [white_row].
    destruct (Z.leb_spec start k);
      destruct (Z.leb_spec (x + y * VI_width g) (white_source size start k));
      destruct (Z.ltb_spec (white_source size start k)
                  (VI_width g + y * VI_width g)); cbn [andb];
      try reflexivity; lia.
  - cbn [white_row].
    assert (Hmul : U32.mul y (VI_width g) = y * VI_width g)
      by (unfold U32.mul; apply wrap_small; unfold U32.in_range;
          rewrite modulus_value; nia).
    assert (Hadd : U32.add x (y * VI_width g) = x + y * VI_width g)
      by (unfold U32.add; apply wrap_small; unfold U32.in_range;
          rewrite modulus_value; nia).
    rewrite Hmul, Hadd, IH by lia.
    rewrite white_store_spec by nia.
    destruct (Z.leb_spec start k);
      destruct (Z.leb_spec (x + 1 + y * VI_width g)
                  (white_source size start k));
      destruct (Z.leb_spec (x + y * VI_width g) (white_source size start k));
      destruct (Z.ltb_spec (white_source size start k)
                  (VI_width g + y * VI_width g));
      destruct (Z.eqb_spec (white_source size start k) (x + y * VI_width g));
      cbn [andb]; try reflexivity; lia.
Qed.

Lemma white_rows_spec (n : nat) :
  forall y m k,
    0 <= y -> y + Z.of_nat n = height ->
    load8 (white_rows g size start y n m) k
    = if (start <=? k)
         && (y * VI_width g <=? white_source size start k)
         && (white_source size start k <? height * VI_width g)
      then 255 else load8 m k.
Proof.
  induction n as [| n IH]; intros y m k Hy Hn.
  - cbn [white_rows].
    destruct (Z.leb_spec start k);
      destruct (Z.leb_spec (y * VI_width g) (white_source size start k));
      destruct (Z.ltb_spec (white_source size start k)
                  (height * VI_width g)); cbn [andb];
      try reflexivity; nia.
  - cbn [white_rows]. rewrite IH by lia.
    rewrite (white_row_spec (Z.to_nat (VI_width g)) y 0 m k) by lia.
    destruct (Z.leb_spec start k);
      destruct (Z.leb_spec ((y + 1) * VI_width g)
                  (white_source size start k));
      destruct (Z.ltb_spec (white_source size start k)
                  (height * VI_width g));
      destruct (Z.leb_spec (0 + y * VI_width g) (white_source size start k));
      destruct (Z.ltb_spec (white_source size start k)
                  (VI_width g + y * VI_width g));
      destruct (Z.leb_spec (y * VI_width g) (white_source size start k));
      cbn [andb]; try reflexivity; nia.
Qed.

End White.

(** The words that the stamping path of [copyRdram] leaves. *)
Lemma copyRdram_stamped_words (g : Globals) (b : FrameBuffer) (m : Memory) :
  U32.in_range (m_startAddress b) ->
  isAuxiliary g b && (config_copyAuxToRDRAM g =? 0) = true ->
  let stride := U32.shr (U32.shl (m_width b) (m_size b)) 1 in
  let height :=
    _cutHeight (RDRAMSize g) (m_startAddress b) (m_height b) stride in
  let first := U32.shr (m_startAddress b) 2 in
  let twoPercent := U32.div (U32.mul stride height) 200 in
  forall j,
    pData (snd (copyRdram g b m)) j
    = if (first <=? j) && (j <? first + twoPercent)
      then if j - first <? 4 then U32.wrap (fingerprint g (j - first))
           else 0
      else pData m j.
Proof.
  intros Hstart Hpath stride height first twoPercent j.
  pose proof (shr2_range (m_startAddress b) Hstart) as Hs30.
  change (2 ^ 30) with 1073741824 in Hs30. fold first in Hs30.
  assert (Hds : 0 <= U32.mul stride height < U32.modulus)
    by (apply Z.mod_pos_bound; unfold U32.modulus; lia).
  assert (Htp : 0 <= twoPercent < 33554432).
  { subst twoPercent. unfold U32.div. rewrite modulus_value in Hds.
    Z.div_mod_to_equations. lia. }
  unfold copyRdram. fold stride. fold height. fold first.
  destruct (Z.eqb_spec height 0) as [E | E].
  - cbn [snd].
    assert (E0 : twoPercent = 0).
    { subst twoPercent. rewrite E. unfold U32.mul, U32.div, U32.wrap.
      rewrite Z.mul_0_r, Z.mod_0_l by (rewrite modulus_value; lia).
      reflexivity. }
    rewrite E0.
    replace ((first <=? j) && (j <? first + 0)) with false; [reflexivity |].
    symmetry. apply andb_false_iff.
    destruct (Z.leb_spec first j); [right; apply Z.ltb_ge; lia |].
    left. reflexivity.
  - rewrite Hpath. cbn [snd]. fold twoPercent.
    rewrite write_fingerprint_spec
      by (rewrite ?Z2Nat.id, ?modulus_value; lia).
    rewrite Z2Nat.id by lia. cbn [Z.add].
    destruct ((first <=? j) && (j <? first + twoPercent)); [| reflexivity].
    replace (0 + (j - first)) with (j - first) by lia.
    destruct (j - first <? 4); [reflexivity |].
    unfold U32.wrap. apply Z.mod_0_l. rewrite modulus_value. lia.
Qed.

(** X28: what [copyWhiteToRDRAM] leaves in guest memory.  Its loops set to
    [0xFF] every byte of the [VI.width * VI.height] pixels that start at
    the start address of the buffer, whatever the width and height of the
    buffer are and wherever guest memory ends, and leave every other byte
    as it is ([white] below; for 16-bit pixels the number of pixels has to
    be even).  Then [copyRdram] runs.  On its snapshot path the memory
    stays as the loops left it.  On the path of an auxiliary buffer that
    the policy does not flush, the [dataSize / 200] words from index
    [m_startAddress >> 2] on are overwritten, the first four with the
    fingerprint and the others with 0, and the other words stay as the
    loops left them.  On both paths the buffer is then marked as copied
    and not cleared. *)
Theorem copyWhiteToRDRAM_fills (g : Globals) (b : FrameBuffer) (m : Memory) :
  0 < VI_width g -> 0 <= VI_height g ->
  VI_width g * VI_height g < U32.modulus ->
  m_size b = G_IM_SIZ_32b \/ (VI_width g * VI_height g) mod 2 = 0 ->
  U32.in_range (m_startAddress b) ->
  let r := copyWhiteToRDRAM g b m in
  let bytes := white_pixel_bytes (m_size b) * (VI_width g * VI_height g) in
  let white := white_rows g (m_size b) (m_startAddress b) 0
                 (Z.to_nat (VI_height g)) m in
  let stride := U32.shr (U32.shl (m_width b) (m_size b)) 1 in
  let height :=
    _cutHeight (RDRAMSize g) (m_startAddress b) (m_height b) stride in
  let first := U32.shr (m_startAddress b) 2 in
  let twoPercent := U32.div (U32.mul stride height) 200 in
  (forall k,
     load8 white k
     = if (m_startAddress b <=? k) && (k <? m_startAddress b + bytes)
       then 255 else load8 m k)
  /\ (isAuxiliary g b && (config_copyAuxToRDRAM g =? 0) = false ->
      snd r = white)
  /\ (isAuxiliary g b && (config_copyAuxToRDRAM g =? 0) = true ->
      forall j,
        pData (snd r) j
        = if (first <=? j) && (j <? first + twoPercent)
          then if j - first <? 4 then U32.wrap (fingerprint g (j - first))
               else 0
          else pData white j)
  /\ m_copiedToRdram (fst r) = true /\ m_cleared (fst r) = false.
Proof.
  intros Hw Hh Hsize Hpar Hstart r bytes white stride height first
         twoPercent.
  split; [| split; [| split; [| split]]].
  - intros k. subst white.
    rewrite (white_rows_spec g (m_size b) (m_startAddress b) (VI_height g)
               Hw Hsize (Z.to_nat (VI_height g)) 0 m k) by lia.
    subst bytes. unfold white_source, white_pixel_bytes.
    destruct (Z.leb_spec (m_startAddress b) k) as [Hle | Hgt]; cbn [andb];
      [| reflexivity].
    destruct (Z.eqb_spec (m_size b) G_IM_SIZ_32b) as [E32 | E16]; cbv zeta.
    + destruct (Z.leb_spec (0 * VI_width g) ((k - m_startAddress b) / 4));
        destruct (Z.ltb_spec ((k - m_startAddress b) / 4)
                    (VI_height g * VI_width g));
        destruct (Z.ltb_spec k
                    (m_startAddress b + 4 * (VI_width g * VI_height g)));
        cbn [andb]; try reflexivity; exfalso;
        Z.div_mod_to_equations; nia.
    + destruct Hpar as [Hbad | Heven]; [contradiction |].
      pose proof (lxor_1_value ((k - m_startAddress b) / 2)
                    ltac:(Z.div_mod_to_equations; lia)) as Hv.
      set (p := (k - m_startAddress b) / 2) in *.
      assert (Hp : 0 <= p) by (subst p; Z.div_mod_to_equations; lia).
      assert (Hcmp : Z.lxor p 1 < VI_height g * VI_width g
                     <-> k < m_startAddress b
                             + 2 * (VI_width g * VI_height g)).
      { destruct (Z.eqb_spec (p mod 2) 0); rewrite Hv; subst p;
          split; intros; Z.div_mod_to_equations; nia. }
      assert (H0 : 0 <= Z.lxor p 1) by (apply Z.lxor_nonneg; lia).
      destruct (Z.leb_spec (0 * VI_width g) (Z.lxor p 1));
        destruct (Z.ltb_spec (Z.lxor p 1) (VI_height g * VI_width g));
        destruct (Z.ltb_spec k
                    (m_startAddress b + 2 * (VI_width g * VI_height g)));
        cbn [andb]; try reflexivity; exfalso; lia.
  - intros Hpath. subst r. unfold copyWhiteToRDRAM. cbv zeta. cbn [snd].
    fold white. unfold copyRdram.
    cbn [m_width m_size m_startAddress m_height set_copiedToRdram].
    destruct (_cutHeight _ _ _ _ =? 0); [reflexivity |].
    replace (isAuxiliary g (set_copiedToRdram true b)) with (isAuxiliary g b)
      by reflexivity.
    rewrite Hpath. reflexivity.
  - intros Hpath j. subst r. unfold copyWhiteToRDRAM. cbv zeta. cbn [snd].
    fold white.
    apply (copyRdram_stamped_words g (set_copiedToRdram true b) white
             Hstart Hpath j).
  - subst r. unfold copyWhiteToRDRAM. cbv zeta. cbn [fst].
    unfold copyRdram.
    destruct (_cutHeight _ _ _ _ =? 0); [reflexivity |].
    destruct (isAuxiliary g (set_copiedToRdram true b) && _); reflexivity.
  - reflexivity.
Qed.

Lemma copyWhiteToRDRAM_fills_witness :
  load8 (snd (copyWhiteToRDRAM small_display small_display_buffer
                (fun _ => 0))) 0x100000 = 255.
Proof.
  assert (H : 0 < VI_width small_display) by reflexivity.
  assert (H0 : 0 <= VI_height small_display) by (vm_compute; discriminate).
  assert (H1 : VI_width small_display * VI_height small_display
               < U32.modulus) by (rewrite modulus_value; reflexivity).
  assert (H2 : m_size small_display_buffer = G_IM_SIZ_32b
               \/ (VI_width small_display * VI_height small_display) mod 2
                  = 0) by (left; reflexivity).
  assert (H3 : U32.in_range (m_startAddress small_display_buffer))
    by (unfold U32.in_range; rewrite modulus_value; vm_compute;
        split; [discriminate | reflexivity]).
  destruct (copyWhiteToRDRAM_fills small_display small_display_buffer
              (fun _ => 0) H H0 H1 H2 H3) as (Hfill & Hsnap & _).
  cbv zeta in Hfill, Hsnap.
  rewrite (Hsnap eq_refl), Hfill. reflexivity.
Defined.

(** ** [FrameBuffer_CopyToRDRAM] without pixel read-back *)

Lemma update_shape (p : Ptr) (b' : FrameBuffer) (l : FrameBuffers) :
  (forall b, deref l p = Some b ->
             m_startAddress b' = m_startAddress b
             /\ m_endAddress b' = m_endAddress b
             /\ m_width b' = m_width b) ->
  NoDup (map fst l) ->
  map (fun n => (fst n, m_startAddress (snd n), m_endAddress (snd n),
                 m_width (snd n))) (update p (fun _ => b') l)
  = map (fun n => (fst n, m_startAddress (snd n), m_endAddress (snd n),
                   m_width (snd n))) l.
Proof.
  unfold update. induction l as [| [q c] t IH]; intros H Hnd;
    [reflexivity |].
  inversion Hnd as [| x xs Hnotin Hnd']; subst.
  cbn [map fst snd]. destruct (Nat.eqb_spec q p) as [-> | Hne].
  - destruct (H c) as (Hs & He & Hw).
    { cbn [deref]. rewrite Nat.eqb_refl. reflexivity. }
    cbn [fst snd]. rewrite Hs, He, Hw. f_equal.
    (* no other node has the address [p] *)
    clear IH H Hs He Hw Hnd. induction t as [| [r d] t IHt];
      [reflexivity |].
    cbn [map fst snd] in *.
    destruct (Nat.eqb_spec r p) as [-> | _].
    + exfalso. apply Hnotin. left. reflexivity.
    + f_equal. apply IHt.
      * intros Hin. apply Hnotin. right. exact Hin.
      * inversion Hnd'. assumption.
  - f_equal. apply IH; [| exact Hnd'].
    intros b Hb. apply H. cbn [deref].
    destruct (Nat.eqb_spec q p); [contradiction | exact Hb].
Qed.

(** X29: [FrameBuffer_CopyToRDRAM] of a build without pixel read-back
    returns at once unless the subscreen hack is set, [VI.width] is not
    zero, a buffer is bound and a buffer holds the address.  In every case
    it keeps [m_pCurrent] and the engine, and, in a registry whose nodes
    are distinct, the nodes of the list with their address ranges and
    widths. *)
Theorem CopyToRDRAM_GLES2_frame (g : Globals) (hack : bool) (_address : Z)
  (_sync : bool) (st : Machine) :
  let st' := FrameBuffer_CopyToRDRAM_GLES2 g hack _address _sync st in
  (hack = false \/ VI_width g = 0
   \/ m_pCurrent (frameBufferList st) = None
   \/ findBuffer (m_list (frameBufferList st)) _address = None ->
   st' = st)
  /\ m_pCurrent (frameBufferList st') = m_pCurrent (frameBufferList st)
  /\ g_RDRAMtoFB st' = g_RDRAMtoFB st
  /\ (NoDup (map fst (m_list (frameBufferList st))) ->
      map (fun n => (fst n, m_startAddress (snd n), m_endAddress (snd n),
                     m_width (snd n))) (m_list (frameBufferList st'))
      = map (fun n => (fst n, m_startAddress (snd n), m_endAddress (snd n),
                       m_width (snd n))) (m_list (frameBufferList st))).
Proof.
  cbv zeta. unfold FrameBuffer_CopyToRDRAM_GLES2. cbv zeta.
  destruct hack; cbn [negb]; [| auto].
  destruct (Z.eqb_spec (VI_width g) 0) as [Ev | Ev]; cbn [orb]; [auto |].
  destruct (m_pCurrent (frameBufferList st)) as [c |] eqn:Hc; [| auto].
  destruct (findBuffer (m_list (frameBufferList st)) _address) as [p |]
    eqn:Hf; [| auto].
  destruct (deref (m_list (frameBufferList st)) p) as [b |] eqn:Hd;
    [| split; [auto | auto]].
  destruct ((m_width b <? VI_width g) || m_isOBScreen b);
    [split; [auto | auto] |].
  split; [| split; [| split]].
  - intros [H | [H | [H | H]]]; congruence.
  - cbn. exact Hc.
  - reflexivity.
  - intros Hnd. cbn [frameBufferList with_RDRAM set_list m_list
                       with_frameBufferList].
    apply update_shape; [| exact Hnd].
    intros b0 Hb0. rewrite Hd in Hb0. injection Hb0 as <-.
    unfold copyWhiteToRDRAM. cbv zeta. cbn [fst].
    destruct (copyRdram_keeps_range g (set_copiedToRdram true b)
                (white_rows g (m_size b) (m_startAddress b) 0
                   (Z.to_nat (VI_height g)) (RDRAM st)))
      as (Hs & He & Hw).
    cbv zeta in Hs, He, Hw. cbn in *. auto.
Qed.

Lemma CopyToRDRAM_GLES2_frame_witness :
  FrameBuffer_CopyToRDRAM_GLES2 frame7 true 0x200000 true
    (screen_machine (fun _ => 0) 0 (mkRDRAMtoFrameBuffer None []))
  = screen_machine (fun _ => 0) 0 (mkRDRAMtoFrameBuffer None []).
Proof.
  apply (CopyToRDRAM_GLES2_frame frame7 true 0x200000 true
           (screen_machine (fun _ => 0) 0 (mkRDRAMtoFrameBuffer None []))).
  right. right. right. reflexivity.
Defined.

(** ** The write-back [_writeToRdram] *)

Lemma lxor_cancel (a k : Z) : Z.lxor (Z.lxor a k) k = a.
Proof. rewrite Z.lxor_assoc, Z.lxor_nilpotent, Z.lxor_0_r. reflexivity. Qed.

Lemma eqb_lxor (k a x : Z) : (k =? Z.lxor a x) = (Z.lxor k x =? a).
Proof.
  destruct (Z.eqb_spec k (Z.lxor a x)) as [E1 | H];
    destruct (Z.eqb_spec (Z.lxor k x) a) as [E | E]; try reflexivity.
  - exfalso. apply E. rewrite E1. apply lxor_cancel.
  - exfalso. apply H. rewrite <- E, lxor_cancel. reflexivity.
Qed.

Section Mirror.

Variable src : Z -> Z.
Variable converter : Z -> Z.
Variables _testValue _xor _width _height _numPixels : Z.

Hypothesis Hw : 0 < _width.
Hypothesis Hh : 0 <= _height.
Hypothesis Hsize : _width * _height < U32.modulus.
Hypothesis Hall : _width * _height <= _numPixels.

Lemma writeToRdram_row_mirror (n : nat) :
  forall y x acc k,
    0 <= y < _height -> 0 <= x -> x + Z.of_nat n = _width ->
    fst acc = x + y * _width ->
    let r := writeToRdram_row src converter _testValue _xor _width _height
               _numPixels y y x n 0 acc in
    fst r = _width + y * _width
    /\ snd r k
       = written src converter _testValue _xor _width _height
           (x + y * _width) (_width + y * _width) (snd acc) k.
Proof.
  rewrite modulus_value in Hsize.
  induction n as [| n IH]; intros y x acc k Hy Hx Hn Hacc; cbv zeta.
  - cbn [writeToRdram_row]. split; [lia |].
    unfold written. cbv zeta.
    destruct (Z.leb_spec (x + y * _width) (Z.lxor k _xor));
      destruct (Z.ltb_spec (Z.lxor k _xor) (_width + y * _width));
      cbn [andb]; try reflexivity; lia.
  - cbn [writeToRdram_row].
    destruct (Z.ltb_spec (fst acc) _numPixels) as [_ | Hstop]; [| nia].
    cbv zeta.
    assert (Hrow : U32.sub (U32.sub _height y) 1 = _height - y - 1).
    { unfold U32.sub. rewrite (wrap_small (_height - y))
        by (unfold U32.in_range; rewrite modulus_value; nia).
      apply wrap_small. unfold U32.in_range. rewrite modulus_value. nia. }
    assert (Hmul : U32.mul (_height - y - 1) _width
                   = (_height - y - 1) * _width)
      by (unfold U32.mul; apply wrap_small; unfold U32.in_range;
          rewrite modulus_value; nia).
    assert (Hidx : U32.add x ((_height - y - 1) * _width)
                   = x + (_height - y - 1) * _width)
      by (unfold U32.add; apply wrap_small; unfold U32.in_range;
          rewrite modulus_value; nia).
    assert (Hmul2 : U32.mul y _width = y * _width)
      by (unfold U32.mul; apply wrap_small; unfold U32.in_range;
          rewrite modulus_value; nia).
    assert (Hdst : U32.add x (y * _width) = x + y * _width)
      by (unfold U32.add; apply wrap_small; unfold U32.in_range;
          rewrite modulus_value; nia).
    assert (Hnum : U32.add (fst acc) 1 = x + 1 + y * _width)
      by (rewrite Hacc; unfold U32.add; rewrite wrap_small;
          [lia | unfold U32.in_range; rewrite modulus_value; nia]).
    rewrite Hrow, Hmul, Hidx, Hmul2, Hdst, Hnum.
    match goal with
    | |- context [writeToRdram_row _ _ _ _ _ _ _ _ _ _ _ _ ?a] =>
        destruct (IH y (x + 1) a k Hy ltac:(lia) ltac:(lia) eq_refl)
          as [Hf Hs]
    end.
    cbv zeta in Hf, Hs. split; [exact Hf |]. rewrite Hs. cbn [snd].
    assert (Hmir : mirrored src _width _height (x + y * _width)
                   = src (x + (_height - y - 1) * _width)).
    { unfold mirrored.
      replace ((x + y * _width) mod _width) with x
        by (rewrite Z.mod_add by lia; symmetry; apply Z.mod_small; lia).
      replace ((x + y * _width) / _width) with y
        by (rewrite Z.div_add by lia; rewrite Z.div_small by lia; lia).
      reflexivity. }
    unfold written. cbv zeta. rewrite Z.add_0_l.
    destruct (Z.eqb_spec (src (x + (_height - y - 1) * _width)) _testValue)
      as [Ec | Ec]; cbn [negb]; cbv iota.
    + destruct (Z.eqb_spec (Z.lxor k _xor) (x + y * _width)) as [E | E].
      * rewrite E, Hmir, Ec, Z.eqb_refl.
        destruct (Z.leb_spec (x + 1 + y * _width) (x + y * _width)); [lia |].
        destruct (Z.leb_spec (x + y * _width) (x + y * _width)); [| lia].
        destruct (Z.ltb_spec (x + y * _width) (_width + y * _width));
          [| lia].
        reflexivity.
      * destruct (Z.leb_spec (x + 1 + y * _width) (Z.lxor k _xor));
          destruct (Z.leb_spec (x + y * _width) (Z.lxor k _xor));
          destruct (Z.ltb_spec (Z.lxor k _xor) (_width + y * _width));
          cbn [andb]; try lia; reflexivity.
    + unfold dst_store. rewrite eqb_lxor.
      destruct (Z.eqb_spec (Z.lxor k _xor) (x + y * _width)) as [E | E].
      * rewrite E, Hmir.
        destruct (Z.leb_spec (x + 1 + y * _width) (x + y * _width)); [lia |].
        destruct (Z.leb_spec (x + y * _width) (x + y * _width)); [| lia].
        destruct (Z.ltb_spec (x + y * _width) (_width + y * _width));
          [| lia].
        cbn [andb].
        destruct (Z.eqb_spec (src (x + (_height - y - 1) * _width))
                    _testValue); [contradiction | reflexivity].
      * destruct (Z.leb_spec (x + 1 + y * _width) (Z.lxor k _xor));
          destruct (Z.leb_spec (x + y * _width) (Z.lxor k _xor));
          destruct (Z.ltb_spec (Z.lxor k _xor) (_width + y * _width));
          cbn [andb]; try lia; reflexivity.
Qed.

Lemma writeToRdram_rows_mirror (n : nat) :
  forall y acc k,
    0 <= y -> y + Z.of_nat n = _height -> fst acc = y * _width ->
    snd (writeToRdram_rows src converter _testValue _xor _width _height
           _numPixels y y n 0 acc) k
    = written src converter _testValue _xor _width _height
        (y * _width) (_height * _width) (snd acc) k.
Proof.
  induction n as [| n IH]; intros y acc k Hy Hn Hacc.
  - cbn [writeToRdram_rows]. unfold written. cbv zeta.
    destruct (Z.leb_spec (y * _width) (Z.lxor k _xor));
      destruct (Z.ltb_spec (Z.lxor k _xor) (_height * _width));
      cbn [andb]; try reflexivity; nia.
  - cbn [writeToRdram_rows].
    destruct (writeToRdram_row_mirror (Z.to_nat _width) y 0 acc k
                ltac:(lia) ltac:(lia) ltac:(lia) ltac:(lia)) as [Hf Hs].
    cbv zeta in Hf, Hs.
    rewrite IH by lia. unfold written in *. cbv zeta in *. rewrite Hs.
    destruct (Z.leb_spec ((y + 1) * _width) (Z.lxor k _xor));
      destruct (Z.ltb_spec (Z.lxor k _xor) (_height * _width));
      destruct (Z.leb_spec (0 + y * _width) (Z.lxor k _xor));
      destruct (Z.ltb_spec (Z.lxor k _xor) (_width + y * _width));
      destruct (Z.leb_spec (y * _width) (Z.lxor k _xor));
      cbn [andb]; try reflexivity; nia.
Qed.

End Mirror.

(** X30: a write-back of a whole buffer with [_writeToRdram] (start
    address equal to the address of the buffer, at least
    [_width * _height] pixels asked for) turns the image upside down and
    skips the pixels equal to the test value.  Position [k] of the
    destination gets the converted source pixel of index [k ^ _xor], taken
    from the same column of the row counted from the bottom, unless that
    pixel equals the test value; then, and at every position outside the
    [_width * _height] pixels, the destination keeps what it held. *)
Theorem writeToRdram_mirrors (_src _dst : Z -> Z) (converter : Z -> Z)
  (_testValue _xor _width _height _numPixels _address _bufferSize : Z) :
  0 < _width -> 0 <= _height -> _width * _height < U32.modulus ->
  _width * _height <= _numPixels ->
  forall k,
    _writeToRdram _src _dst converter _testValue _xor _width _height
                  _numPixels _address _address _bufferSize k
    = let i := Z.lxor k _xor in
      if (0 <=? i) && (i <? _width * _height)
      then if mirrored _src _width _height i =? _testValue then _dst k
           else converter (mirrored _src _width _height i)
      else _dst k.
Proof.
  intros Hw Hh Hsize Hall k. unfold _writeToRdram.
  assert (E0 : U32.rem (U32.shr (U32.sub _address _address)
                          (U32.sub _bufferSize 1)) _width = 0).
  { unfold U32.sub at 1. rewrite Z.sub_diag. unfold U32.wrap.
    rewrite Z.mod_0_l by (rewrite modulus_value; lia).
    unfold U32.shr. rewrite Z.shiftr_0_l. unfold U32.rem.
    apply Z.mod_0_l. lia. }
  rewrite E0. cbv zeta.
  change (U32.rem 0 2 =? 0) with true. cbn [negb].
  change (0 >? 0) with false. cbv iota.
  rewrite Z.sub_0_r.
  rewrite (writeToRdram_rows_mirror _src converter _testValue _xor _width
             _height _numPixels Hw Hh Hsize Hall (Z.to_nat _height) 0
             (0, _dst) k) by (cbn [fst]; lia).
  unfold written. cbv zeta. cbn [snd].
  rewrite Z.mul_0_l, (Z.mul_comm _height _width). reflexivity.
Qed.

Lemma writeToRdram_mirrors_witness :
  _writeToRdram (fun i => i + 1) (fun _ => 0) _RGBAtoRGBA16 0 1 4 2 8
                0x100000 0x100000 2 0
  = _RGBAtoRGBA16 6.
Proof.
  apply (writeToRdram_mirrors (fun i => i + 1) (fun _ => 0) _RGBAtoRGBA16
           0 1 4 2 8 0x100000 2).
  - lia.
  - lia.
  - rewrite modulus_value. lia.
  - lia.
Defined.
